(** * prepare_structure.py: compositing, distribution and background suppression

    A shallow embedding of [src/prepare_structure.py].  The script works on a
    directory tree of PNG files, so the embedding has three layers:

    - file names: [str.lower], [str.endswith], [os.path.splitext] and the
      [f"{i:06d}"] format, on Rocq strings;
    - pixel arrays: what [cv2.imread] hands to the script and the numpy
      assignments the script performs on them;
    - the file system: a tree of directories and files, threaded through a
      state-and-exception monad [Py] in which the functions of the script
      are written statement by statement.

    Console output ([print]) is not modelled.  Paths are lists of
    components, so [os.path.join folder name] is [folder ++ [name]].  Two
    computations of OpenCV stay parameters of the development: the grey
    value of a colour pixel and the interpolation of [cv2.resize]. *)

From Stdlib Require Import ZArith String Ascii DecimalString DecimalN.
From Stdlib Require Import DecimalFacts DecimalPos.
From stdpp Require Import gmap strings list sorting.

Set Warnings "-register-all".

(** ** File names *)

Module Names.

(** [c.lower()] on one byte: only ['A'..'Z'] change. *)
Definition lower_ascii (c : ascii) : ascii :=
  let n := nat_of_ascii c in
  if (65 <=? n)%nat && (n <=? 90)%nat then ascii_of_nat (n + 32) else c.

(** [s.lower()] *)
Fixpoint lower (s : string) : string :=
  match s with
  | EmptyString => EmptyString
  | String c s' => String (lower_ascii c) (lower s')
  end.

(** [s.endswith(suffix)] *)
Definition endswith (s suffix : string) : bool :=
  let n := String.length s in
  let k := String.length suffix in
  (k <=? n)%nat && String.eqb (substring (n - k) k s) suffix.

(** The filter of lines 38 and 192: [f.lower().endswith('.png')]. *)
Definition is_png (f : string) : bool := endswith (lower f) ".png".

(** [s.rfind(c)], [None] standing for [-1]. *)
Fixpoint rfind (c : ascii) (s : string) : option nat :=
  match s with
  | EmptyString => None
  | String a s' =>
      match rfind c s' with
      | Some i => Some (S i)
      | None => if Ascii.eqb a c then Some 0%nat else None
      end
  end.

Fixpoint all_dots (s : string) : bool :=
  match s with
  | EmptyString => true
  | String a s' => Ascii.eqb a "." && all_dots s'
  end.

(** [os.path.splitext(p)] for a name without separators
    ([genericpath._splitext]): the extension starts at the last dot,
    unless only dots come before it. *)
Definition splitext (p : string) : string * string :=
  match rfind "." p with
  | Some dotIndex =>
      if all_dots (substring 0 dotIndex p) then (p, EmptyString)
      else (substring 0 dotIndex p,
            substring dotIndex (String.length p - dotIndex) p)
  | None => (p, EmptyString)
  end.

(** Decimal digits of [n] padded with leading zeros to [width] digits. *)
Definition zero_padded (width : nat) (n : N) : Decimal.uint :=
  let d := N.to_uint n in
  Nat.iter (width - Decimal.nb_digits d) Decimal.D0 d.

(** [f"{i:06d}"]: sign-aware zero padding to six characters. *)
Definition fmt_06d (i : Z) : string :=
  if (i <? 0)%Z
  then String "-" (NilEmpty.string_of_uint (zero_padded 5 (Z.abs_N i)))
  else NilEmpty.string_of_uint (zero_padded 6 (Z.to_N i)).

(** [list.sort()] on names: ascending, byte-wise lexicographic. *)
Definition str_le (a b : string) : Prop := Is_true (String.leb a b).

Definition sort (l : list string) : list string := merge_sort str_le l.

End Names.

(** ** Pixel arrays *)

Module Img.

Local Open Scope Z_scope.

(** An [h x w] array is a list of [h] rows of [w] elements; samples are
    [uint8] values kept as [Z]. *)
Abbreviation matrix A := (list (list A)).

Definition px3 : Type := Z * Z * Z.
Definition px4 : Type := Z * Z * Z * Z.

(** [a.shape[:2]] *)
Definition shape2 {A} (m : matrix A) : nat * nat :=
  (length m, match m with [] => 0%nat | r :: _ => length r end).

(** All [h] rows have [w] elements. *)
Definition rect {A} (h w : nat) (m : matrix A) : Prop :=
  length m = h ∧ Forall (λ r, length r = w) m.

(** The pixel data of a PNG file as stored: grey, RGB or RGBA samples. *)
Inductive image :=
| Gray (m : matrix Z)
| RGB (m : matrix px3)
| RGBA (m : matrix px4).

(** What [cv2.imread(..., IMREAD_UNCHANGED)] returns: a 2-D array for a
    grey file, otherwise a 3-D array with 3 (BGR) or 4 (BGRA) channels. *)
Inductive ndarray :=
| Nd2 (m : matrix Z)
| Nd3 (m : matrix px3)
| Nd4 (m : matrix px4).

Inductive chan := C0 | C1 | C2 | C3.

Definition swap_rb3 (p : px3) : px3 := let '(a, b, c) := p in (c, b, a).
Definition swap_rb4 (p : px4) : px4 := let '(a, b, c, d) := p in (c, b, a, d).
Definition drop_alpha (p : px4) : px3 := let '(a, b, c, _) := p in (a, b, c).
Definition alpha (p : px4) : Z := let '(_, _, _, d) := p in d.
Definition grey3 (v : Z) : px3 := (v, v, v).

Definition set_chan (k : chan) (v : Z) (p : px4) : px4 :=
  let '(a, b, c, d) := p in
  match k with
  | C0 => (v, b, c, d)
  | C1 => (a, v, c, d)
  | C2 => (a, b, v, d)
  | C3 => (a, b, c, v)
  end.

Definition pmap {A B} (f : A → B) (m : matrix A) : matrix B := fmap (M:=list) f <$> m.

(** [np.zeros((h, w, 4), dtype=np.uint8)] *)
Definition np_zeros4 (h w : nat) : matrix px4 :=
  replicate h (replicate w (0, 0, 0, 0)).

(** [dst[:, :, :3] = src] *)
Definition assign_rgb (dst : matrix px4) (src : matrix px3) : matrix px4 :=
  zip_with (zip_with (λ d s, let '(r, g, b) := s in (r, g, b, alpha d))) dst src.

(** [dst[:, :, 3] = src] *)
Definition assign_alpha (dst : matrix px4) (src : matrix Z) : matrix px4 :=
  zip_with (zip_with (λ d a, set_chan C3 a d)) dst src.

(** [img[mask, k] = v] *)
Definition masked_fill (mask : matrix bool) (k : chan) (v : Z)
    (img : matrix px4) : matrix px4 :=
  zip_with (zip_with (λ (b : bool) p, if b then set_chan k v p else p)) mask img.

(** [cv2.cvtColor(img, cv2.COLOR_BGR2RGB)] *)
Definition cvtColor_BGR2RGB (m : matrix px3) : matrix px3 := pmap swap_rb3 m.

(** Lines 74-76: the RGBA array built from the colour and mask arrays. *)
Definition merge_rgba (rgb_image : matrix px3) (mask_image : matrix Z)
    : matrix px4 :=
  let '(h, w) := shape2 rgb_image in
  let rgba_image := np_zeros4 h w in
  let rgba_image := assign_rgb rgba_image rgb_image in
  assign_alpha rgba_image mask_image.

(** Lines 212-218: the background mask from the alpha channel and the
    three masked assignments. *)
Definition background_mask_of (rgba_image : matrix px4) : matrix bool :=
  let alpha_channel := pmap alpha rgba_image in
  pmap (λ a, a <? 10) alpha_channel.

Definition suppress_background (rgba_image : matrix px4) : matrix px4 :=
  let background_mask := background_mask_of rgba_image in
  let rgba_image := masked_fill background_mask C0 0 rgba_image in
  let rgba_image := masked_fill background_mask C1 0 rgba_image in
  masked_fill background_mask C2 0 rgba_image.

(** [m[i, j]] *)
Definition at_ {A} (m : matrix A) (i j : nat) : option A :=
  m !! i ≫= λ r, r !! j.

End Img.

Export Img.

(** ** The file system *)

Module Fs.

(** What a regular file holds: a decodable PNG, or bytes that [cv2.imread]
    cannot decode. *)
Inductive content :=
| Png (img : image)
| Blob.

Inductive node :=
| File (c : content)
| Dir (entries : gmap string node).

Definition path : Type := list string.

(** [os.path.join(folder, name)] *)
Definition os_path_join (folder : path) (name : string) : path := folder ++ [name].

(** The node a path leads to, from the root. *)
Fixpoint lookup_path (fs : node) (p : path) : option node :=
  match p with
  | [] => Some fs
  | k :: p' =>
      match fs with
      | Dir m => m !! k ≫= λ c, lookup_path c p'
      | File _ => None
      end
  end.

(** [os.path.exists(p)] *)
Definition exists_ (fs : node) (p : path) : bool :=
  match lookup_path fs p with Some _ => true | None => false end.

(** [os.path.isdir(p)] *)
Definition isdir (fs : node) (p : path) : bool :=
  match lookup_path fs p with Some (Dir _) => true | _ => false end.

(** [os.makedirs(p, exist_ok=True)]: every missing directory on the way is
    created; [None] when a component exists and is a regular file, in which
    case nothing has been created. *)
Fixpoint makedirs (p : path) (fs : node) : option node :=
  match fs with
  | File _ => None
  | Dir m =>
      match p with
      | [] => Some fs
      | k :: p' =>
          match makedirs p' (default (Dir ∅) (m !! k)) with
          | Some c => Some (Dir (<[k := c]> m))
          | None => None
          end
      end
  end.

(** [open(p, 'wb').write(c)]: the parent must be a directory and [p] must
    not be one; the file is created or replaced.  [None] when the open
    fails, the tree being untouched. *)
Fixpoint write_file (p : path) (c : content) (fs : node) : option node :=
  match fs, p with
  | Dir m, [k] =>
      match m !! k with
      | Some (Dir _) => None
      | _ => Some (Dir (<[k := File c]> m))
      end
  | Dir m, k :: p' =>
      match m !! k with
      | Some child =>
          match write_file p' c child with
          | Some child' => Some (Dir (<[k := child']> m))
          | None => None
          end
      | None => None
      end
  | _, _ => None
  end.

(** [os.listdir(p)]; [None] unless [p] is a directory. *)
Definition listdir (fs : node) (p : path) : option (list string) :=
  match lookup_path fs p with
  | Some (Dir m) => Some (elements (dom m))
  | _ => None
  end.

(** [os.path.basename(p)] *)
Definition basename (p : path) : string := default EmptyString (last p).

End Fs.

Export Fs.

(** ** Python computations: state and exceptions *)

Module Py.

Inductive exn :=
| FileExistsError
| NotADirectoryError
| IsADirectoryError
| FileNotFoundError
| SameFileError
| AttributeError
| IndexError
| CvError.

Inductive result (A : Type) :=
| Ok (a : A)
| Raised (e : exn).
Arguments Ok {A} a.
Arguments Raised {A} e.

(** A computation reads and updates the tree and either returns or raises;
    what it did to the tree before raising stays done. *)
Definition Py (A : Type) : Type := node → result A * node.

Definition ret {A} (a : A) : Py A := λ fs, (Ok a, fs).

Definition raise {A} (e : exn) : Py A := λ fs, (Raised e, fs).

Definition bind {A B} (m : Py A) (k : A → Py B) : Py B :=
  λ fs, match m fs with
        | (Ok a, fs') => k a fs'
        | (Raised e, fs') => (Raised e, fs')
        end.

(** [try: body  except Exception: handler] *)
Definition try_except {A} (body : Py A) (handler : exn → Py A) : Py A :=
  λ fs, match body fs with
        | (Ok a, fs') => (Ok a, fs')
        | (Raised e, fs') => handler e fs'
        end.

(** Read-only access to the tree. *)
Definition gets {A} (f : node → A) : Py A := λ fs, (Ok (f fs), fs).

(** An update of the tree that may fail with [e]. *)
Definition update (f : node → option node) (e : exn) : Py unit :=
  λ fs, match f fs with
        | Some fs' => (Ok tt, fs')
        | None => (Raised e, fs)
        end.

End Py.

Export Py.

Declare Scope py_scope.
Delimit Scope py_scope with py.
Notation "x <- m ;; k" := (bind m (λ x, k))
  (at level 100, m at next level, right associativity) : py_scope.
Notation "m ;; k" := (bind m (λ _, k))
  (at level 100, right associativity) : py_scope.

(** ** Library calls of the script *)

Module Lib.

Local Open Scope py_scope.

Section Codecs.

(** The grey value OpenCV computes for a colour pixel (R, G, B) when a
    colour file is read with [IMREAD_GRAYSCALE]. *)
Variable luma : Z → Z → Z → Z.

(** The sample [cv2.resize(src, (w, h))] puts at row [i], column [j] of its
    [h x w] result (bilinear interpolation by default). *)
Variable interp : matrix Z → nat → nat → nat → nat → Z.

(** [cv2.imread(file)] decodes to three channels in B, G, R order. *)
Definition decode_color (c : content) : option (matrix px3) :=
  match c with
  | Png (Gray m) => Some (pmap grey3 m)
  | Png (RGB m) => Some (pmap swap_rb3 m)
  | Png (RGBA m) => Some (pmap (λ p, swap_rb3 (drop_alpha p)) m)
  | Blob => None
  end.

(** [cv2.imread(file, cv2.IMREAD_GRAYSCALE)] decodes to one channel. *)
Definition decode_grayscale (c : content) : option (matrix Z) :=
  match c with
  | Png (Gray m) => Some m
  | Png (RGB m) => Some (pmap (λ '(r, g, b), luma r g b) m)
  | Png (RGBA m) => Some (pmap (λ '(r, g, b, _), luma r g b) m)
  | Blob => None
  end.

(** [cv2.imread(file, cv2.IMREAD_UNCHANGED)] keeps the file's channels,
    colour ones in B, G, R order. *)
Definition decode_unchanged (c : content) : option ndarray :=
  match c with
  | Png (Gray m) => Some (Nd2 m)
  | Png (RGB m) => Some (Nd3 (pmap swap_rb3 m))
  | Png (RGBA m) => Some (Nd4 (pmap swap_rb4 m))
  | Blob => None
  end.

(** [cv2.imread] returns [None] (no exception) for a missing path, a
    directory or undecodable bytes. *)
Definition imread_with {A} (decode : content → option A) (p : path) : Py (option A) :=
  gets (λ fs, match lookup_path fs p with
              | Some (File c) => decode c
              | _ => None
              end).

Definition cv2_imread : path → Py (option (matrix px3)) := imread_with decode_color.
Definition cv2_imread_grayscale : path → Py (option (matrix Z)) :=
  imread_with decode_grayscale.
Definition cv2_imread_unchanged : path → Py (option ndarray) :=
  imread_with decode_unchanged.

(** [cv2.cvtColor(img, cv2.COLOR_BGR2RGB)] raises on [None]. *)
Definition cv2_cvtColor_BGR2RGB (img : option (matrix px3)) : Py (matrix px3) :=
  match img with
  | Some m => ret (cvtColor_BGR2RGB m)
  | None => raise CvError
  end.

Definition tabulate {A} (h w : nat) (f : nat → nat → A) : matrix A :=
  (λ i, f i <$> seq 0 w) <$> seq 0 h.

(** [cv2.resize(src, (w, h))]: an [h x w] array; an empty target size is an
    error. *)
Definition cv2_resize (src : matrix Z) (dsize : nat * nat) : Py (matrix Z) :=
  let '(w, h) := dsize in
  if (w =? 0)%nat || (h =? 0)%nat then raise CvError
  else ret (tabulate h w (interp src h w)).

(** [Image.fromarray(a, 'RGBA').save(p)]: an RGBA PNG at [p]. *)
Definition pil_save (p : path) (a : matrix px4) : Py unit :=
  update (write_file p (Png (RGBA a))) FileNotFoundError.

(** [cv2.imwrite(p, a)] for a four-channel array: B, G, R, A in memory,
    an RGBA PNG on disk.  A failed write is reported by the return value,
    not by an exception. *)
Definition cv2_imwrite (p : path) (a : matrix px4) : Py bool :=
  λ fs, match write_file p (Png (RGBA (pmap swap_rb4 a))) fs with
        | Some fs' => (Ok true, fs')
        | None => (Ok false, fs)
        end.

Definition os_path_exists (p : path) : Py bool := gets (λ fs, exists_ fs p).

Definition os_makedirs (p : path) : Py unit := update (makedirs p) FileExistsError.

Definition os_listdir (p : path) : Py (list string) :=
  λ fs, match listdir fs p with
        | Some names => (Ok names, fs)
        | None => (Raised NotADirectoryError, fs)
        end.

(** [shutil.copy2(src, dst)]: into [dst] when it is a directory; the same
    file on both sides is an error, so is a directory as source. *)
Definition shutil_copy2 (src dst : path) : Py unit :=
  λ fs,
    let dst := if isdir fs dst then os_path_join dst (basename src) else dst in
    if decide (src = dst) then (Raised SameFileError, fs)
    else match lookup_path fs src with
         | Some (File c) => update (write_file dst c) IsADirectoryError fs
         | Some (Dir _) => (Raised IsADirectoryError, fs)
         | None => (Raised FileNotFoundError, fs)
         end.

(** [range(start, end)] *)
Definition range (start_idx end_idx : Z) : list Z :=
  seqZ start_idx (end_idx - start_idx).

End Codecs.

End Lib.

Export Lib.

(** ** The script *)

Module Script.

Local Open Scope py_scope.

Section Script.

Variable luma : Z → Z → Z → Z.
Variable interp : matrix Z → nat → nat → nat → nat → Z.

(** *** combine_rgb_mask (lines 15-91) *)

(** Lines 60-84, the body of the [try]: returns normally once the composite
    is saved. *)
Definition combine_try (rgb_folder output_folder : path)
    (rgb_file base_name : string) (mask_path : path) : Py unit :=
  let rgb_path := os_path_join rgb_folder rgb_file in
  rgb_image <- cv2_imread rgb_path ;;
  rgb_image <- cv2_cvtColor_BGR2RGB rgb_image ;;
  mask_image <- cv2_imread_grayscale luma mask_path ;;
  match mask_image with
  | None => raise AttributeError
  | Some mask_image =>
      mask_image <-
        (if decide (shape2 rgb_image ≠ shape2 mask_image)
         then cv2_resize interp mask_image
                (snd (shape2 rgb_image), fst (shape2 rgb_image))
         else ret mask_image) ;;
      let rgba_image := merge_rgba rgb_image mask_image in
      let output_path := os_path_join output_folder (base_name +:+ ".png") in
      pil_save output_path rgba_image
  end.

(** Lines 47-88, one iteration of the loop; [true] when [processed_count]
    is incremented, [false] on either [continue]. *)
Definition combine_one (rgb_folder mask_folder output_folder : path)
    (rgb_file : string) : Py bool :=
  let base_name := fst (Names.splitext rgb_file) in
  let mask_file := base_name +:+ "_000000.png" in
  let mask_path := os_path_join mask_folder mask_file in
  found <- os_path_exists mask_path ;;
  if negb found then ret false
  else
    try_except
      (combine_try rgb_folder output_folder rgb_file base_name mask_path ;;
       ret true)
      (λ _, ret false).

Fixpoint combine_loop (rgb_folder mask_folder output_folder : path)
    (rgb_files : list string) (processed_count : nat) : Py nat :=
  match rgb_files with
  | [] => ret processed_count
  | rgb_file :: rest =>
      ok <- combine_one rgb_folder mask_folder output_folder rgb_file ;;
      combine_loop rgb_folder mask_folder output_folder rest
        (if ok then S processed_count else processed_count)
  end.

(** Lines 38-39 and 192-193: the PNG names of a listing, sorted. *)
Definition png_files (names : list string) : list string :=
  Names.sort (filter (λ f, Is_true (Names.is_png f)) names).

Definition combine_rgb_mask (rgb_folder mask_folder output_folder : path)
    : Py bool :=
  rgb_found <- os_path_exists rgb_folder ;;
  if negb rgb_found then ret false
  else
    mask_found <- os_path_exists mask_folder ;;
    if negb mask_found then ret false
    else
      os_makedirs output_folder ;;
      names <- os_listdir rgb_folder ;;
      let rgb_files := png_files names in
      match rgb_files with
      | [] => ret false
      | _ =>
          processed_count <-
            combine_loop rgb_folder mask_folder output_folder rgb_files 0 ;;
          ret (0 <? processed_count)%nat
      end.

(** *** The three copy functions (lines 94-174)

    Each returns the [copied_count] it prints. *)

Fixpoint copy_images_loop (source_folder dest_folder : path)
    (indices : list Z) (copied_count : nat) : Py nat :=
  match indices with
  | [] => ret copied_count
  | i :: rest =>
      let source_file := os_path_join source_folder (Names.fmt_06d i +:+ ".png") in
      let dest_file := os_path_join dest_folder (Names.fmt_06d i +:+ ".png") in
      found <- os_path_exists source_file ;;
      if found then
        shutil_copy2 source_file dest_file ;;
        copy_images_loop source_folder dest_folder rest (S copied_count)
      else copy_images_loop source_folder dest_folder rest copied_count
  end.

Definition copy_images_to_directory (source_folder dest_folder : path)
    (image_range : Z * Z) : Py nat :=
  os_makedirs dest_folder ;;
  let '(start_idx, end_idx) := image_range in
  copy_images_loop source_folder dest_folder (range start_idx end_idx) 0.

Fixpoint copy_and_rename_loop (source_folder dest_folder : path)
    (indices : list Z) (copied_count : nat) : Py nat :=
  match indices with
  | [] => ret copied_count
  | i :: rest =>
      let source_file :=
        os_path_join source_folder (Names.fmt_06d i +:+ "_000000.png") in
      let dest_file := os_path_join dest_folder (Names.fmt_06d i +:+ ".png") in
      found <- os_path_exists source_file ;;
      if found then
        shutil_copy2 source_file dest_file ;;
        copy_and_rename_loop source_folder dest_folder rest (S copied_count)
      else copy_and_rename_loop source_folder dest_folder rest copied_count
  end.

Definition copy_and_rename_mask_images (source_folder dest_folder : path)
    (image_range : Z * Z) : Py nat :=
  os_makedirs dest_folder ;;
  let '(start_idx, end_idx) := image_range in
  copy_and_rename_loop source_folder dest_folder (range start_idx end_idx) 0.

Fixpoint copy_mask_loop (source_folder dest_folder : path)
    (indices : list Z) (copied_count : nat) : Py nat :=
  match indices with
  | [] => ret copied_count
  | i :: rest =>
      let source_file :=
        os_path_join source_folder (Names.fmt_06d i +:+ "_000000.png") in
      let dest_file :=
        os_path_join dest_folder (Names.fmt_06d i +:+ "_000000.png") in
      found <- os_path_exists source_file ;;
      if found then
        shutil_copy2 source_file dest_file ;;
        copy_mask_loop source_folder dest_folder rest (S copied_count)
      else copy_mask_loop source_folder dest_folder rest copied_count
  end.

Definition copy_mask_images_to_directory (source_folder dest_folder : path)
    (image_range : Z * Z) : Py nat :=
  os_makedirs dest_folder ;;
  let '(start_idx, end_idx) := image_range in
  copy_mask_loop source_folder dest_folder (range start_idx end_idx) 0.

(** *** postprocess_segmented_images (lines 177-232) *)

(** Lines 202-229, one iteration; [true] when [processed_count] is
    incremented.  [rgba_image.shape[2]] raises on [None] and on a 2-D
    array; both land in the [except]. *)
Definition postprocess_one (segmented_images_folder : path)
    (rgba_file : string) : Py bool :=
  try_except
    (let rgba_path := os_path_join segmented_images_folder rgba_file in
     rgba_image <- cv2_imread_unchanged rgba_path ;;
     match rgba_image with
     | None => raise AttributeError
     | Some (Nd2 _) => raise IndexError
     | Some (Nd3 _) => ret false
     | Some (Nd4 rgba_image) =>
         let rgba_image := suppress_background rgba_image in
         cv2_imwrite rgba_path rgba_image ;;
         ret true
     end)
    (λ _, ret false).

Fixpoint postprocess_loop (segmented_images_folder : path)
    (rgba_files : list string) (processed_count : nat) : Py nat :=
  match rgba_files with
  | [] => ret processed_count
  | rgba_file :: rest =>
      ok <- postprocess_one segmented_images_folder rgba_file ;;
      postprocess_loop segmented_images_folder rest
        (if ok then S processed_count else processed_count)
  end.

Definition postprocess_segmented_images (segmented_images_folder : path)
    : Py bool :=
  found <- os_path_exists segmented_images_folder ;;
  if negb found then ret false
  else
    names <- os_listdir segmented_images_folder ;;
    let rgba_files := png_files names in
    match rgba_files with
    | [] => ret false
    | _ =>
        processed_count <-
          postprocess_loop segmented_images_folder rgba_files 0 ;;
        ret (0 <? processed_count)%nat
    end.

(** *** process_object_directory (lines 235-294) *)

Definition process_object_directory (obj_path : path) : Py bool :=
  let train_pbr_path := os_path_join obj_path "train_pbr" in
  let base_000000_path := os_path_join train_pbr_path "000000" in
  let vggt_path := os_path_join train_pbr_path "vggt" in
  base_found <- os_path_exists base_000000_path ;;
  if negb base_found then ret false
  else
    let rgb_folder := os_path_join base_000000_path "rgb" in
    let mask_folder := os_path_join base_000000_path "mask" in
    let rgb_mask_000000 := os_path_join base_000000_path "rgb_mask" in
    ok <- combine_rgb_mask rgb_folder mask_folder rgb_mask_000000 ;;
    if negb ok then ret false
    else
      let segmented_path := os_path_join vggt_path "segmented" in
      let surface_path := os_path_join vggt_path "surface" in
      let segmented_images := os_path_join segmented_path "images" in
      let segmented_masks := os_path_join segmented_path "masks" in
      let surface_images := os_path_join surface_path "images" in
      let surface_masks := os_path_join surface_path "masks" in
      copy_and_rename_mask_images mask_folder segmented_masks (0, 30)%Z ;;
      copy_and_rename_mask_images mask_folder surface_masks (0, 20)%Z ;;
      copy_images_to_directory rgb_mask_000000 surface_images (0, 20)%Z ;;
      copy_images_to_directory rgb_mask_000000 segmented_images (0, 30)%Z ;;
      postprocess_segmented_images segmented_images ;;
      ret true.

End Script.

End Script.

Export Script.

(** ** Vocabulary of the properties *)

Module Props.

Local Open Scope Z_scope.
Local Open Scope py_scope.

(** What suppression does to one pixel, whatever the order of its three
    colour channels: below the threshold the colours go to zero. *)
Definition suppress_px (p : px4) : px4 :=
  if alpha p <? 10 then (0, 0, 0, alpha p) else p.

(** The path holds a PNG with four channels. *)
Definition is_rgba (fs : node) (p : path) : bool :=
  match lookup_path fs p with
  | Some (File (Png (RGBA _))) => true
  | _ => false
  end.

(** The two file-name patterns: [<index>.png] and [<index>_000000.png]. *)
Definition plain_name (i : Z) : string := Names.fmt_06d i +:+ ".png".
Definition mask_name (i : Z) : string := Names.fmt_06d i +:+ "_000000.png".

(** The common shape of the three copy loops, over the two name patterns. *)
Fixpoint copy_loop_with (sname dname : Z → string)
    (source_folder dest_folder : path) (indices : list Z) (copied_count : nat)
    : Py nat :=
  match indices with
  | [] => ret copied_count
  | i :: rest =>
      let source_file := os_path_join source_folder (sname i) in
      let dest_file := os_path_join dest_folder (dname i) in
      found <- os_path_exists source_file ;;
      if found then
        shutil_copy2 source_file dest_file ;;
        copy_loop_with sname dname source_folder dest_folder rest (S copied_count)
      else copy_loop_with sname dname source_folder dest_folder rest copied_count
  end.

(** A file is settled when suppression would write back what it holds. *)
Definition settled (fs : node) (p : path) : Prop :=
  ∀ m, lookup_path fs p = Some (File (Png (RGBA m))) → pmap suppress_px m = m.

(** The number of four-channel PNGs among the names. *)
Definition rgba_count (fs : node) (folder : path) (files : list string) : nat :=
  length (filter (λ f, Is_true (is_rgba fs (os_path_join folder f))) files).

(** The output name of a colour file. *)
Definition composite_name (rgb_file : string) : string :=
  fst (Names.splitext rgb_file) +:+ ".png".

(** The indices whose source file exists. *)
Definition present (sname : Z → string) (fs : node) (src : path)
    (indices : list Z) : list Z :=
  filter (λ i, Is_true (exists_ fs (os_path_join src (sname i)))) indices.

(** Neither folder lies inside the other. *)
Definition apart (p q : path) : Prop := ¬ p `prefix_of` q ∧ ¬ q `prefix_of` p.

(** A run [r] of a copy function from [src] to [dst] over [start, end),
    started in a tree whose state after the creation of [dst] is [fs1],
    returned, and copied index [i] exactly when [i] is in the range and its
    source file exists: those destination files hold the source's content,
    every other name in [dst] and every path outside [dst] is as it was, and
    the count is the number of such indices. *)
Definition copies_range (sname dname : Z → string) (src dst : path)
    (start_idx end_idx : Z) (fs1 : node) (r : result nat * node) : Prop :=
  ∃ fs',
    r = (Ok (length (present sname fs1 src (range start_idx end_idx))), fs')
    ∧ (∀ i c, start_idx ≤ i < end_idx →
         lookup_path fs1 (os_path_join src (sname i)) = Some (File c) →
         lookup_path fs' (os_path_join dst (dname i)) = Some (File c))
    ∧ (∀ i, ¬ (start_idx ≤ i < end_idx
               ∧ exists_ fs1 (os_path_join src (sname i)) = true) →
         lookup_path fs' (os_path_join dst (dname i))
         = lookup_path fs1 (os_path_join dst (dname i)))
    ∧ (∀ name,
         (∀ i, start_idx ≤ i < end_idx →
               exists_ fs1 (os_path_join src (sname i)) = true → name ≠ dname i) →
         lookup_path fs' (os_path_join dst name)
         = lookup_path fs1 (os_path_join dst name))
    ∧ (∀ p, ¬ dst `prefix_of` p → ¬ p `prefix_of` dst →
         lookup_path fs' p = lookup_path fs1 p).

Section Counts.

Variable luma : Z → Z → Z → Z.
Variable interp : matrix Z → nat → nat → nat → nat → Z.

(** The count of composites the compositor reports at line 90, when it
    gets as far as the loop. *)
Definition composites_written (rgb_folder mask_folder output_folder : path)
    (fs : node) : nat :=
  match makedirs output_folder fs with
  | Some fs1 =>
      match listdir fs1 rgb_folder with
      | Some names =>
          match combine_loop luma interp rgb_folder mask_folder output_folder
                  (png_files names) 0 fs1 with
          | (Ok n, _) => n
          | (Raised _, _) => 0%nat
          end
      | None => 0%nat
      end
  | None => 0%nat
  end.

(** Steps 2 to 6 of the orchestration, as the specification lists them. *)
Definition distribute_and_suppress (obj_path : path) : Py bool :=
  let base := obj_path ++ ["train_pbr"; "000000"] in
  let vggt := obj_path ++ ["train_pbr"; "vggt"] in
  copy_and_rename_mask_images (base ++ ["mask"])
    (vggt ++ ["segmented"; "masks"]) (0, 30) ;;
  copy_and_rename_mask_images (base ++ ["mask"])
    (vggt ++ ["surface"; "masks"]) (0, 20) ;;
  copy_images_to_directory (base ++ ["rgb_mask"])
    (vggt ++ ["surface"; "images"]) (0, 20) ;;
  copy_images_to_directory (base ++ ["rgb_mask"])
    (vggt ++ ["segmented"; "images"]) (0, 30) ;;
  postprocess_segmented_images (vggt ++ ["segmented"; "images"]) ;;
  ret true.

End Counts.

(** The folder holds regular files only (or is not there). *)
Definition files_only (fs : node) (d : path) : bool :=
  match lookup_path fs d with
  | Some (Dir m) =>
      forallb (λ kn, match snd kn with File _ => true | Dir _ => false end)
        (map_to_list m)
  | _ => true
  end.

(** No regular file stands on the way to the folder. *)
Definition creatable (fs : node) (d : path) : bool :=
  forallb (λ n, implb (exists_ fs (take n d)) (isdir fs (take n d)))
    (seq 0 (S (length d))).

(** The folders steps 2 to 6 read and the folders they fill, below the
    object directory. *)
Definition inputs : list path :=
  [["train_pbr"; "000000"; "mask"]; ["train_pbr"; "000000"; "rgb_mask"]].

Definition outputs : list path :=
  [["train_pbr"; "vggt"; "segmented"; "masks"];
   ["train_pbr"; "vggt"; "surface"; "masks"];
   ["train_pbr"; "vggt"; "surface"; "images"];
   ["train_pbr"; "vggt"; "segmented"; "images"]].

(** The tree as steps 2 to 6 expect it: the folders they touch hold regular
    files only, and the folders they fill can be created. *)
Definition tidy (obj_path : path) (fs : node) : bool :=
  forallb (λ d, files_only fs (obj_path ++ d)) (inputs ++ outputs)
  && forallb (λ d, creatable fs (obj_path ++ d)) outputs.

(** The PNG names of a folder, in processing order. *)
Definition eligible (fs : node) (folder : path) : list string :=
  match listdir fs folder with
  | Some names => png_files names
  | None => []
  end.

End Props.

Export Props.

(** ** Sample data *)

Module Demo.

Local Open Scope Z_scope.

(** An integer BT.601 luma and a nearest-neighbour sampler, to run the
    script on concrete trees. *)
Definition luma_bt601 (r g b : Z) : Z := (299 * r + 587 * g + 114 * b) / 1000.

Definition interp_nearest (src : matrix Z) (h w i j : nat) : Z :=
  let '(sh, sw) := shape2 src in
  default 0 (at_ src (i * sh / h) (j * sw / w)).

Definition dir (l : list (string * node)) : node := Dir (list_to_map l).

Definition color_2x2 : matrix px3 := [[(1, 2, 3); (4, 5, 6)]; [(7, 8, 9); (10, 11, 12)]].
Definition mask_2x2 : matrix Z := [[0; 9]; [10; 255]].
Definition mask_1x1 : matrix Z := [[77]].

(** An object directory with two frames; the second mask is smaller than
    its colour image. *)
Definition tree_two_frames : node :=
  dir [("obj", dir [("train_pbr", dir [("000000", dir [
    ("rgb", dir [("000000.png", File (Png (RGB color_2x2)));
                 ("000001.png", File (Png (RGB color_2x2)))]);
    ("mask", dir [("000000_000000.png", File (Png (Gray mask_2x2)));
                  ("000001_000000.png", File (Png (Gray mask_1x1)))]);
    ("rgb_mask", dir [])])])])].

(** A colour file and an empty mask folder. *)
Definition tree_no_mask : node :=
  dir [("rgb", dir [("000000.png", File (Png (RGB color_2x2)))]);
       ("mask", dir [])].

(** Input folders without a single PNG. *)
Definition tree_no_png : node :=
  dir [("rgb", dir [("notes.txt", File Blob)]); ("mask", dir [])].

(** A folder whose only PNG has three channels. *)
Definition tree_rgb_only : node :=
  dir [("images", dir [("000000.png", File (Png (RGB color_2x2)))])].

(** A folder of composites, one pixel each side of the threshold. *)
Definition tree_composites : node :=
  dir [("images", dir [
    ("000000.png", File (Png (RGBA [[(1, 2, 3, 9); (4, 5, 6, 10)]])));
    ("000001.png", File (Png (RGBA [[(7, 8, 9, 0); (1, 1, 1, 255)]])))])].

(** Sources 0 and 2 present, 1 missing. *)
Definition tree_gap : node :=
  dir [("src", dir [("000000.png", File (Png (Gray mask_1x1)));
                    ("000002.png", File (Png (Gray mask_2x2)));
                    ("000000_000000.png", File (Png (Gray mask_2x2)));
                    ("000002_000000.png", File (Png (Gray mask_1x1)));
                    ("000007.png", File Blob)])].


(** A directory where the source of index 0 is expected; index 1 is a
    file. *)
Definition tree_dir_source : node :=
  dir [("src", dir [("000000.png", dir []);
                    ("000001.png", File (Png (Gray mask_1x1)))])].

(** [tree_gap] once a destination inside the source folder is there. *)
Definition tree_gap_nested : node :=
  default tree_gap (makedirs ["src"; "copy"] tree_gap).


End Demo.

(** ** The entry point *)

Module Entry.

Local Open Scope py_scope.

Section Entry.

Variable luma : Z → Z → Z → Z.
Variable interp : matrix Z → nat → nat → nat → nat → Z.

(** *** main (lines 297-322)

    [args.obj_path] is the argument; both outcomes of the run only print. *)
Definition main (obj_path : path) : Py unit :=
  found <- os_path_exists obj_path ;;
  if negb found then ret tt
  else
    is_dir <- gets (λ fs, isdir fs obj_path) ;;
    if negb is_dir then ret tt
    else
      success <- process_object_directory luma interp obj_path ;;
      if success : bool then ret tt else ret tt.

End Entry.

End Entry.

Export Entry.

(** ** Further vocabulary of the properties *)

Module More.

Local Open Scope py_scope.

(** [int(s)] on a decimal numeral with an optional minus sign. *)
Definition parse_index (s : string) : option Z :=
  Z.of_int <$> NilEmpty.int_of_string s.

(** Everything that is neither inside [d] nor on the way to it is in [fs']
    as it is in [fs]. *)
Definition same_outside (d : path) (fs fs' : node) : Prop :=
  ∀ p, ¬ d `prefix_of` p → ¬ p `prefix_of` d →
       lookup_path fs' p = lookup_path fs p.

(** The content of the regular file at a path, if there is one. *)
Definition read_file (fs : node) (p : path) : option content :=
  match lookup_path fs p with
  | Some (File c) => Some c
  | _ => None
  end.

(** What suppression leaves of a file: a four-channel PNG is rewritten,
    any other content is kept. *)
Definition suppress_content (c : content) : content :=
  match c with
  | Png (RGBA m) => Png (RGBA (pmap suppress_px m))
  | _ => c
  end.

(** A copy function as one computation over the two name patterns:
    the destination is created, then the loop runs over the range. *)
Definition copy_step (sname dname : Z → string) (src dst : path) (s e : Z)
    : Py nat :=
  os_makedirs dst ;; copy_loop_with sname dname src dst (range s e) 0.

Section Composites.

Variable luma : Z → Z → Z → Z.
Variable interp : matrix Z → nat → nat → nat → nat → Z.

(** The array lines 60-76 build for a colour file, read off the tree:
    [None] when the iteration saves nothing (mask missing, an input that is
    no decodable regular file, an empty resize target). *)
Definition composite_of (fs : node) (rgb_folder mask_folder : path)
    (rgb_file : string) : option (matrix px4) :=
  let base_name := fst (Names.splitext rgb_file) in
  match read_file fs (os_path_join rgb_folder rgb_file),
        read_file fs (os_path_join mask_folder (base_name +:+ "_000000.png")) with
  | Some c, Some cm =>
      match decode_color c, decode_grayscale luma cm with
      | Some bgr, Some mask_image =>
          let rgb_image := cvtColor_BGR2RGB bgr in
          if decide (shape2 rgb_image ≠ shape2 mask_image) then
            let '(h, w) := shape2 rgb_image in
            if (w =? 0)%nat || (h =? 0)%nat then None
            else Some (merge_rgba rgb_image (tabulate h w (interp mask_image h w)))
          else Some (merge_rgba rgb_image mask_image)
      | _, _ => None
      end
  | _, _ => None
  end.

(** The file the loop saves for a colour file. *)
Definition composite_file (fs : node) (rgb_folder mask_folder : path)
    (rgb_file : string) : option node :=
  (λ rgba, File (Png (RGBA rgba)))
    <$> composite_of fs rgb_folder mask_folder rgb_file.

(** The colour file yields a composite and no directory stands at its
    output name. *)
Definition composable (fs : node) (rgb_folder mask_folder output_folder : path)
    (rgb_file : string) : bool :=
  match composite_of fs rgb_folder mask_folder rgb_file with
  | Some _ => negb (isdir fs (os_path_join output_folder (composite_name rgb_file)))
  | None => false
  end.

(** The colour files the loop counts, in processing order. *)
Definition processed (fs : node) (rgb_folder mask_folder output_folder : path)
    : list string :=
  filter (λ f, Is_true (composable fs rgb_folder mask_folder output_folder f))
    (eligible fs rgb_folder).

(** The last of them that is saved under [name]. *)
Definition last_saved_as (fs : node) (rgb_folder mask_folder output_folder : path)
    (name : string) : option string :=
  last (filter (λ f, composite_name f = name)
          (processed fs rgb_folder mask_folder output_folder)).

End Composites.

End More.

Export More.

(** * Properties *)

(** Running a function of the script symbolically starts by unfolding the
    monad and the library calls. *)
Create HintDb py discriminated.
#[global] Hint Unfold ret raise bind try_except gets update : py.
#[global] Hint Unfold imread_with cv2_imread cv2_imread_grayscale
  cv2_imread_unchanged cv2_cvtColor_BGR2RGB pil_save cv2_imwrite
  os_path_exists os_makedirs os_listdir : py.

Ltac py_unfold := autounfold with py.

(** ** Pixel arrays *)

Module ImgFacts.

Local Open Scope Z_scope.

Lemma pmap_pmap {A B C} (f : A → B) (g : B → C) (m : matrix A) :
  pmap g (pmap f m) = pmap (g ∘ f) m.
Proof.
  unfold pmap. rewrite <- list_fmap_compose. apply list_fmap_ext.
  intros _ r _. simpl. by rewrite <- list_fmap_compose.
Qed.

Lemma pmap_ext {A B} (f g : A → B) (m : matrix A) :
  (∀ x, f x = g x) → pmap f m = pmap g m.
Proof.
  intros E. unfold pmap. apply list_fmap_ext. intros _ r _.
  apply list_fmap_ext. auto.
Qed.

Lemma pmap_id {A} (f : A → A) (m : matrix A) :
  (∀ x, f x = x) → pmap f m = m.
Proof.
  intros E. unfold pmap. rewrite <- (list_fmap_id m) at 2.
  apply list_fmap_ext. intros _ r _. rewrite <- (list_fmap_id r) at 2.
  apply list_fmap_ext. auto.
Qed.

Lemma at_pmap {A B} (f : A → B) (m : matrix A) i j :
  at_ (pmap f m) i j = f <$> at_ m i j.
Proof.
  unfold at_, pmap. rewrite list_lookup_fmap.
  destruct (m !! i) as [r|]; simpl; [|done]. by rewrite list_lookup_fmap.
Qed.

Lemma rect_pmap {A B} (f : A → B) h w (m : matrix A) :
  rect h w m → rect h w (pmap f m).
Proof.
  intros [Hh Hw]. split; unfold pmap.
  - by rewrite length_fmap.
  - apply Forall_fmap. eapply Forall_impl; [exact Hw|].
    intros r Hr. simpl. by rewrite length_fmap.
Qed.

Lemma shape2_pmap {A B} (f : A → B) (m : matrix A) :
  shape2 (pmap f m) = shape2 m.
Proof.
  unfold shape2, pmap. rewrite length_fmap.
  destruct m as [|r m]; simpl; [done|]. by rewrite length_fmap.
Qed.

Lemma rect_shape2 {A} h w (m : matrix A) :
  rect h w m → (0 < h)%nat → shape2 m = (h, w).
Proof.
  intros [Hh Hw] Hpos. unfold shape2. destruct m as [|r m]; simpl in *; [lia|].
  inversion Hw; subst. done.
Qed.

(** A masked assignment with the mask computed from the array itself. *)
Lemma masked_fill_pmap (t : px4 → bool) k v (m : matrix px4) :
  masked_fill (pmap t m) k v m = pmap (λ p, if t p then set_chan k v p else p) m.
Proof.
  unfold masked_fill, pmap. rewrite zip_with_fmap_l, zip_with_diag.
  apply list_fmap_ext. intros _ r _.
  by rewrite zip_with_fmap_l, zip_with_diag.
Qed.

Lemma background_mask_of_pmap (m : matrix px4) :
  background_mask_of m = pmap (λ p, alpha p <? 10) m.
Proof. unfold background_mask_of. by rewrite pmap_pmap. Qed.

(** A later masked assignment, on an array derived pixel by pixel from the
    one the mask was computed from. *)
Lemma masked_fill_mask_of k v (m : matrix px4) (t : px4 → bool) (g : px4 → px4) :
  masked_fill (pmap t m) k v (pmap g m)
  = pmap (λ p, if t p then set_chan k v (g p) else g p) m.
Proof.
  unfold masked_fill, pmap. rewrite zip_with_fmap_l, zip_with_fmap_r, zip_with_diag.
  apply list_fmap_ext. intros _ r _.
  by rewrite zip_with_fmap_l, zip_with_fmap_r, zip_with_diag.
Qed.

Lemma suppress_background_pmap (m : matrix px4) :
  suppress_background m = pmap suppress_px m.
Proof.
  unfold suppress_background. rewrite background_mask_of_pmap.
  rewrite masked_fill_pmap.
  rewrite masked_fill_mask_of.
  rewrite masked_fill_mask_of.
  apply pmap_ext. intros [[[a b] c] d]. unfold suppress_px. simpl.
  by destruct (d <? 10).
Qed.

Lemma suppress_px_idem p : suppress_px (suppress_px p) = suppress_px p.
Proof.
  destruct p as [[[a b] c] d]. unfold suppress_px. simpl.
  destruct (d <? 10) eqn:E; simpl; by rewrite E.
Qed.

Lemma alpha_suppress_px p : alpha (suppress_px p) = alpha p.
Proof.
  destruct p as [[[a b] c] d]. unfold suppress_px. simpl. by destruct (d <? 10).
Qed.

Lemma suppress_px_swap p : swap_rb4 (suppress_px (swap_rb4 p)) = suppress_px p.
Proof.
  destruct p as [[[a b] c] d]. unfold suppress_px. simpl. by destruct (d <? 10).
Qed.

Lemma rect_shape2_eq {A B} h w (a : matrix A) (b : matrix B) :
  rect h w a → rect h w b → shape2 a = shape2 b.
Proof.
  intros [Ha Hra] [Hb Hrb]. unfold shape2. rewrite Ha, Hb. f_equal.
  destruct a as [|ra a], b as [|rb b]; simpl in *; try congruence.
  inversion Hra; inversion Hrb; congruence.
Qed.

Lemma rect_tabulate {A} h w (f : nat → nat → A) : rect h w (tabulate h w f).
Proof.
  unfold tabulate. split.
  - by rewrite length_fmap, length_seq.
  - apply Forall_fmap, Forall_forall. intros i _. simpl.
    by rewrite length_fmap, length_seq.
Qed.

Lemma pmap_zip_with_l {A B C} (f : A → B → C) (g : C → A) h w
    (l : matrix A) (k : matrix B) :
  (∀ x y, g (f x y) = x) → rect h w l → rect h w k →
  pmap g (zip_with (zip_with f) l k) = l.
Proof.
  intros Hg [Hl Hrl] [Hk Hrk]. unfold pmap. subst h.
  revert k Hk Hrk. induction Hrl as [|r l Hr Hrl IH]; intros k Hk Hrk; [done|].
  destruct k as [|s k]; [done|]. inversion Hrk; subst. simpl. f_equal.
  - apply fmap_zip_with_l; [done|lia].
  - apply IH; [by simplify_eq/=|done].
Qed.

Lemma pmap_zip_with_r {A B C} (f : A → B → C) (g : C → B) h w
    (l : matrix A) (k : matrix B) :
  (∀ x y, g (f x y) = y) → rect h w l → rect h w k →
  pmap g (zip_with (zip_with f) l k) = k.
Proof.
  intros Hg [Hl Hrl] [Hk Hrk]. unfold pmap. subst h.
  revert k Hk Hrk. induction Hrl as [|r l Hr Hrl IH]; intros k Hk Hrk.
  - by destruct k.
  - destruct k as [|s k]; [done|]. inversion Hrk; subst. simpl. f_equal.
    + apply fmap_zip_with_r; [done|lia].
    + apply IH; [by simplify_eq/=|done].
Qed.

Lemma rect_zip_with {A B C} (f : A → B → C) h w (l : matrix A) (k : matrix B) :
  rect h w l → rect h w k → rect h w (zip_with (zip_with f) l k).
Proof.
  intros [Hl Hrl] [Hk Hrk]. subst h. split.
  - rewrite length_zip_with. lia.
  - revert k Hk Hrk. induction Hrl as [|r l Hr Hrl IH]; intros k Hk Hrk; [done|].
    destruct k as [|s k]; [done|]. inversion Hrk; subst. simpl. constructor.
    + rewrite length_zip_with. lia.
    + apply IH; [by simplify_eq/=|done].
Qed.

(** The zero array of the colour image's shape takes the colour samples
    whole. *)
Lemma assign_rgb_zeros h w (rgb : matrix px3) :
  rect h w rgb →
  assign_rgb (np_zeros4 (fst (shape2 rgb)) (snd (shape2 rgb))) rgb
  = pmap (λ s, (s, 0)) rgb.
Proof.
  intros [Hh Hw]. unfold assign_rgb, np_zeros4, pmap. simpl.
  rewrite zip_with_replicate_l; [|done].
  apply Forall_fmap_ext_1. destruct rgb as [|r0 rgb]; [done|].
  inversion Hw as [|?? Hr0 Hrest]; subst.
  eapply Forall_impl; [exact Hw|]. intros r Hr. simpl in Hr.
  rewrite zip_with_replicate_l; [|by apply Nat.eq_le_incl].
  apply list_fmap_ext. by intros _ [[a b] c] _.
Qed.

Lemma merge_rgba_channels h w (rgb : matrix px3) (mask : matrix Z) :
  rect h w rgb → rect h w mask →
  rect h w (merge_rgba rgb mask)
  ∧ pmap drop_alpha (merge_rgba rgb mask) = rgb
  ∧ pmap alpha (merge_rgba rgb mask) = mask.
Proof.
  intros Hrgb Hmask.
  assert (merge_rgba rgb mask
          = zip_with (zip_with (λ (s : px3) (a : Z), (s, a))) rgb mask) as ->.
  { unfold merge_rgba. destruct (shape2 rgb) as [h' w'] eqn:E.
    replace h' with (fst (shape2 rgb)) by (by rewrite E).
    replace w' with (snd (shape2 rgb)) by (by rewrite E).
    rewrite (assign_rgb_zeros h w); [|done].
    unfold assign_alpha, pmap. rewrite zip_with_fmap_l.
    apply zip_with_ext; [intros r s|reflexivity|reflexivity].
    rewrite zip_with_fmap_l.
    apply zip_with_ext; [|reflexivity|reflexivity].
    by intros [[a b] c] d. }
  split; [by apply rect_zip_with|]. split.
  - apply (pmap_zip_with_l _ _ h w); [|done|done]. by intros [[a b] c] d.
  - apply (pmap_zip_with_r _ _ h w); [|done|done]. by intros [[a b] c] d.
Qed.

End ImgFacts.

Import ImgFacts.

(** ** The file system *)

Module FsFacts.

Lemma lookup_path_app fs p q :
  lookup_path fs (p ++ q) = lookup_path fs p ≫= λ n, lookup_path n q.
Proof.
  revert fs. induction p as [|k p IH]; intros fs; simpl; [done|].
  destruct fs as [c|m]; [done|]. destruct (m !! k) as [n|]; simpl; [apply IH|done].
Qed.

Lemma lookup_path_file c p :
  lookup_path (File c) p = match p with [] => Some (File c) | _ => None end.
Proof. by destruct p. Qed.

Lemma exists_app_None fs p q :
  exists_ fs p = false → exists_ fs (p ++ q) = false.
Proof.
  unfold exists_. rewrite lookup_path_app.
  destruct (lookup_path fs p); [done|]. done.
Qed.

Lemma isdir_exists fs p : isdir fs p = true → exists_ fs p = true.
Proof. unfold isdir, exists_. by destruct (lookup_path fs p). Qed.

(** *** [write_file] *)

Lemma write_file_cons_inv k q c fs fs' :
  write_file (k :: q) c fs = Some fs' →
  ∃ m, fs = Dir m ∧
    match q with
    | [] => (∀ m', m !! k ≠ Some (Dir m')) ∧ fs' = Dir (<[k := File c]> m)
    | _ => ∃ child child', m !! k = Some child ∧
             write_file q c child = Some child' ∧ fs' = Dir (<[k := child']> m)
    end.
Proof.
  destruct fs as [c0|m]; simpl; [by destruct q|]. intros H. exists m. split; [done|].
  destruct q as [|k' q].
  - destruct (m !! k) as [[c0|m0]|] eqn:E; inversion H; subst;
      (split; [congruence|done]).
  - destruct (m !! k) as [child|] eqn:E; [|done].
    destruct (write_file (k' :: q) c child) as [child'|] eqn:E'; [|done].
    inversion H; subst. eauto.
Qed.

Lemma lookup_write_file_eq q c fs fs' :
  write_file q c fs = Some fs' → lookup_path fs' q = Some (File c).
Proof.
  revert fs fs'. induction q as [|k q IH]; intros fs fs' H.
  - by destruct fs.
  - apply write_file_cons_inv in H as (m & -> & H). destruct q as [|k' q].
    + destruct H as [_ ->]. simpl. by rewrite lookup_insert_eq.
    + destruct H as (child & child' & Hk & Hw & ->).
      change (lookup_path (Dir (<[k:=child']> m)) (k :: k' :: q))
        with (<[k:=child']> m !! k ≫= λ n, lookup_path n (k' :: q)).
      rewrite lookup_insert_eq. simpl. by eapply IH.
Qed.

Lemma lookup_write_file_other q c fs fs' p :
  write_file q c fs = Some fs' →
  ¬ q `prefix_of` p → ¬ p `prefix_of` q →
  lookup_path fs' p = lookup_path fs p.
Proof.
  revert fs fs' p. induction q as [|k q IH]; intros fs fs' p H Hqp Hpq.
  - by destruct fs.
  - destruct p as [|j p]; [destruct Hpq; apply prefix_nil|].
    apply write_file_cons_inv in H as (m & -> & H).
    destruct (decide (j = k)) as [->|Hne].
    + destruct q as [|k' q].
      * destruct Hqp. apply prefix_cons, prefix_nil.
      * destruct H as (child & child' & Hk & Hw & ->). simpl.
        rewrite lookup_insert_eq, Hk. simpl. eapply IH; [done| |].
        -- intros Hp. apply Hqp. by apply prefix_cons.
        -- intros Hp. apply Hpq. by apply prefix_cons.
    + destruct q as [|k' q].
      * destruct H as [_ ->]. simpl. by rewrite lookup_insert_ne.
      * destruct H as (child & child' & Hk & Hw & ->). simpl.
        by rewrite lookup_insert_ne.
Qed.

Lemma write_file_isdir q c fs fs' p :
  write_file q c fs = Some fs' → isdir fs' p = isdir fs p.
Proof.
  unfold isdir. revert fs fs' p. induction q as [|k q IH]; intros fs fs' p H.
  - by destruct fs.
  - apply write_file_cons_inv in H as (m & -> & H).
    destruct p as [|j p]; [by destruct q; [destruct H as [_ ->]|destruct H as (?&?&?&?&->)]|].
    destruct (decide (j = k)) as [->|Hne].
    + destruct q as [|k' q].
      * destruct H as [Hnd ->]. simpl. rewrite lookup_insert_eq. simpl.
        rewrite lookup_path_file.
        destruct (m !! k) as [[c0|m0]|] eqn:E; simpl.
        -- rewrite lookup_path_file. by destruct p.
        -- by destruct (Hnd m0).
        -- by destruct p.
      * destruct H as (child & child' & Hk & Hw & ->). simpl.
        rewrite lookup_insert_eq, Hk. simpl. by eapply IH.
    + destruct q as [|k' q].
      * destruct H as [_ ->]. simpl. by rewrite lookup_insert_ne.
      * destruct H as (child & child' & Hk & Hw & ->). simpl.
        by rewrite lookup_insert_ne.
Qed.

Lemma write_file_succeeds d k c fs :
  isdir fs d = true → isdir fs (d ++ [k]) = false →
  is_Some (write_file (d ++ [k]) c fs).
Proof.
  unfold isdir. revert fs. induction d as [|j d IH]; intros fs Hd Hk.
  - destruct fs as [c0|m]; [done|]. simpl in *.
    destruct (m !! k) as [[c0|m0]|]; simpl in *; by eauto.
  - destruct fs as [c0|m]; [done|]. simpl in Hd, Hk.
    destruct (m !! j) as [child|] eqn:E; simpl in Hd, Hk; [|done].
    destruct (IH child Hd Hk) as [child' Hc].
    change ((j :: d) ++ [k]) with (j :: (d ++ [k])).
    destruct (d ++ [k]) as [|k' q] eqn:Eq; [by destruct d|].
    simpl. rewrite E. simpl in Hc. rewrite Hc. eauto.
Qed.

(** Writing back what is already there changes nothing. *)
Lemma write_file_same q c fs :
  q ≠ [] → lookup_path fs q = Some (File c) → write_file q c fs = Some fs.
Proof.
  revert fs. induction q as [|k q IH]; intros fs Hq H; [done|].
  destruct fs as [c0|m]; [done|]. simpl in H.
  destruct (m !! k) as [child|] eqn:E; simpl in H; [|done].
  destruct q as [|k' q].
  - simpl in H. inversion H; subst. simpl. rewrite E. by rewrite insert_id.
  - change (write_file (k :: k' :: q) c (Dir m))
      with (match m !! k with
            | Some child =>
                match write_file (k' :: q) c child with
                | Some child' => Some (Dir (<[k := child']> m))
                | None => None
                end
            | None => None
            end).
    rewrite E, (IH child); [|done|done]. by rewrite insert_id.
Qed.

(** Overwriting an existing file leaves every listing as it was. *)
Lemma write_file_listdir q c fs fs' d :
  write_file q c fs = Some fs' → exists_ fs q = true →
  listdir fs' d = listdir fs d.
Proof.
  unfold listdir, exists_. revert fs fs' d.
  induction q as [|k q IH]; intros fs fs' d H Hex.
  - by destruct fs.
  - apply write_file_cons_inv in H as (m & -> & H). simpl in Hex.
    destruct (m !! k) as [child|] eqn:E; simpl in Hex; [|done].
    destruct d as [|j d].
    + simpl. assert (is_Some (m !! k)) as Hs by eauto.
      destruct q as [|k' q].
      * destruct H as [_ ->]. by rewrite dom_insert_lookup_L.
      * destruct H as (?&?&?&?&->). by rewrite dom_insert_lookup_L.
    + destruct (decide (j = k)) as [->|Hne].
      * destruct q as [|k' q].
        -- destruct H as [Hnd ->]. simpl. rewrite lookup_insert_eq. simpl.
           destruct child as [c0|m0]; [|by destruct (Hnd m0)].
           rewrite !lookup_path_file, E. simpl. rewrite lookup_path_file.
           by destruct d.
        -- destruct H as (child0 & child' & Hk & Hw & ->).
           injection Hk as <-. simpl.
           rewrite lookup_insert_eq, E. simpl. by eapply IH.
      * destruct q as [|k' q].
        -- destruct H as [_ ->]. simpl. by rewrite lookup_insert_ne.
        -- destruct H as (?&?&?&?&->). simpl. by rewrite lookup_insert_ne.
Qed.

(** *** [makedirs] *)

Lemma makedirs_isdir p fs fs' :
  makedirs p fs = Some fs' → isdir fs' p = true.
Proof.
  unfold isdir. revert fs fs'. induction p as [|k p IH]; intros fs fs' H.
  - destruct fs; simpl in H; [done|]. by inversion H.
  - destruct fs as [c|m]; [done|]. simpl in H.
    destruct (makedirs p (default (Dir ∅) (m !! k))) as [c'|] eqn:E; [|done].
    inversion H; subst. simpl. rewrite lookup_insert_eq. simpl. by eapply IH.
Qed.

Lemma lookup_path_empty p : p ≠ [] → lookup_path (Dir ∅) p = None.
Proof. destruct p; [done|]. intros _. simpl. by rewrite lookup_empty. Qed.

(** [makedirs] only adds directories: what was a file stays the same file,
    what was a directory stays a directory. *)
Lemma makedirs_lookup_file p fs fs' q c :
  makedirs p fs = Some fs' →
  lookup_path fs q = Some (File c) → lookup_path fs' q = Some (File c).
Proof.
  revert fs fs' q. induction p as [|k p IH]; intros fs fs' q H Hq.
  - destruct fs; simpl in H; [done|]. by inversion H; subst.
  - destruct fs as [c0|m]; [done|]. simpl in H.
    destruct (makedirs p (default (Dir ∅) (m !! k))) as [c'|] eqn:E; [|done].
    inversion H; subst. destruct q as [|j q]; [done|]. simpl in *.
    destruct (decide (j = k)) as [->|Hne].
    + rewrite lookup_insert_eq. simpl.
      destruct (m !! k) as [child|] eqn:Ek; simpl in *; [|done]. by eapply IH.
    + by rewrite lookup_insert_ne.
Qed.

Lemma makedirs_isdir_mono p fs fs' q :
  makedirs p fs = Some fs' → isdir fs q = true → isdir fs' q = true.
Proof.
  unfold isdir. revert fs fs' q. induction p as [|k p IH]; intros fs fs' q H Hq.
  - destruct fs; simpl in H; [done|]. by inversion H; subst.
  - destruct fs as [c0|m]; [done|]. simpl in H.
    destruct (makedirs p (default (Dir ∅) (m !! k))) as [c'|] eqn:E; [|done].
    inversion H; subst. destruct q as [|j q]; [done|]. simpl in *.
    destruct (decide (j = k)) as [->|Hne].
    + rewrite lookup_insert_eq. simpl.
      destruct (m !! k) as [child|] eqn:Ek; simpl in *; [|done]. by eapply IH.
    + by rewrite lookup_insert_ne.
Qed.

Lemma makedirs_exists_mono p fs fs' q :
  makedirs p fs = Some fs' → exists_ fs q = true → exists_ fs' q = true.
Proof.
  unfold exists_. revert fs fs' q. induction p as [|k p IH]; intros fs fs' q H Hq.
  - destruct fs; simpl in H; [done|]. by inversion H; subst.
  - destruct fs as [c0|m]; [done|]. simpl in H.
    destruct (makedirs p (default (Dir ∅) (m !! k))) as [c'|] eqn:E; [|done].
    inversion H; subst. destruct q as [|j q]; [done|]. simpl in *.
    destruct (decide (j = k)) as [->|Hne].
    + rewrite lookup_insert_eq. simpl.
      destruct (m !! k) as [child|] eqn:Ek; simpl in *; [|done]. by eapply IH.
    + by rewrite lookup_insert_ne.
Qed.

Lemma makedirs_succeeds p fs :
  (∀ q, q `prefix_of` p → exists_ fs q = true → isdir fs q = true) →
  is_Some (makedirs p fs).
Proof.
  revert fs. induction p as [|k p IH]; intros fs H.
  - specialize (H [] (prefix_nil _) eq_refl). destruct fs; [done|]. by eexists.
  - pose proof (H [] (prefix_nil _) eq_refl) as Hroot.
    destruct fs as [c|m]; [done|]. simpl.
    destruct (IH (default (Dir ∅) (m !! k))) as [c' Hc'].
    { intros q Hq. destruct (m !! k) as [child|] eqn:E; simpl.
      - intros Hex. specialize (H (k :: q) (prefix_cons _ _ _ Hq)).
        unfold exists_, isdir in *. simpl in H. rewrite E in H. simpl in H. auto.
      - unfold exists_, isdir. destruct q as [|j q]; [done|]. simpl.
        by rewrite lookup_empty. }
    rewrite Hc'. by eexists.
Qed.

Lemma makedirs_lookup_other p fs fs' q :
  makedirs p fs = Some fs' → ¬ q `prefix_of` p →
  lookup_path fs' q = lookup_path fs q.
Proof.
  revert fs fs' q. induction p as [|k p IH]; intros fs fs' q H Hq.
  - destruct fs; simpl in H; [done|]. by inversion H.
  - destruct fs as [c|m]; [done|]. simpl in H.
    destruct (makedirs p (default (Dir ∅) (m !! k))) as [c'|] eqn:E; [|done].
    inversion H; subst. destruct q as [|j q]; [by destruct Hq; apply prefix_nil|].
    simpl. destruct (decide (j = k)) as [->|Hne].
    + rewrite lookup_insert_eq. simpl.
      rewrite (IH _ _ q E); [|intros Hp; apply Hq; by apply prefix_cons].
      destruct (m !! k) as [child|]; simpl; [done|].
      apply lookup_path_empty. intros ->. apply Hq, prefix_cons, prefix_nil.
    + by rewrite lookup_insert_ne.
Qed.

Lemma makedirs_isdir_prefix p fs fs' q :
  makedirs p fs = Some fs' → q `prefix_of` p → isdir fs' q = true.
Proof.
  unfold isdir. revert fs fs' q. induction p as [|k p IH]; intros fs fs' q H Hq.
  - destruct fs; simpl in H; [done|]. inversion H; subst.
    apply prefix_nil_inv in Hq as ->. done.
  - destruct fs as [c|m]; [done|]. simpl in H.
    destruct (makedirs p (default (Dir ∅) (m !! k))) as [c'|] eqn:E; [|done].
    inversion H; subst. destruct q as [|j q]; [done|].
    pose proof (prefix_cons_inv_1 _ _ _ _ Hq) as ->.
    apply prefix_cons_inv_2 in Hq. simpl. rewrite lookup_insert_eq. simpl.
    by eapply IH.
Qed.

(** *** Tidy folders *)

Lemma files_only_spec fs d name :
  files_only fs d = true → isdir fs (d ++ [name]) = false.
Proof.
  unfold files_only, isdir. rewrite lookup_path_app.
  destruct (lookup_path fs d) as [[c|m]|]; simpl; [done| |done].
  rewrite forallb_forall. intros H.
  destruct (m !! name) as [[c|m']|] eqn:E; simpl; [done| |done].
  specialize (H (name, Dir m')). simpl in H. exfalso.
  assert (false = true) as Hf; [|done]. apply H.
  apply list_elem_of_In. by apply elem_of_map_to_list.
Qed.

Lemma creatable_spec fs d q :
  creatable fs d = true → q `prefix_of` d →
  exists_ fs q = true → isdir fs q = true.
Proof.
  unfold creatable. rewrite forallb_forall. intros H [k ->] Hex.
  specialize (H (length q)). rewrite take_app_length, Hex in H. apply H.
  apply in_seq. rewrite length_app. lia.
Qed.

Lemma creatable_intro fs d :
  (∀ q, q `prefix_of` d → exists_ fs q = true → isdir fs q = true) →
  creatable fs d = true.
Proof.
  intros H. unfold creatable. apply forallb_forall. intros n _.
  destruct (exists_ fs (take n d)) eqn:E; [|done]. simpl.
  apply H; [apply prefix_take|done].
Qed.

Lemma files_only_intro fs d :
  (∀ name, isdir fs (d ++ [name]) = false) → files_only fs d = true.
Proof.
  intros H. unfold files_only.
  destruct (lookup_path fs d) as [[c|m]|] eqn:E; [done| |done].
  apply forallb_forall. intros [name n] Hin. simpl.
  apply list_elem_of_In, elem_of_map_to_list in Hin.
  specialize (H name). unfold isdir in H. rewrite lookup_path_app, E in H.
  simpl in H. rewrite Hin in H. simpl in H. by destruct n.
Qed.

(** What a copy step into [dst] leaves of the expectations on another
    folder [d]. *)
Lemma files_only_kept fs fs' dst d :
  (∀ p, ¬ p `prefix_of` dst → isdir fs' p = isdir fs p) →
  (∀ name, ¬ d ++ [name] `prefix_of` dst) →
  files_only fs d = true → files_only fs' d = true.
Proof.
  intros Hdir Hd H. apply files_only_intro. intros name.
  rewrite Hdir; [by apply files_only_spec|apply Hd].
Qed.

Lemma creatable_kept fs fs' dst d :
  (∀ p, p `prefix_of` dst → isdir fs' p = true) →
  (∀ p, ¬ p `prefix_of` dst → ¬ dst `prefix_of` p →
        lookup_path fs' p = lookup_path fs p) →
  length dst = length d →
  creatable fs d = true → creatable fs' d = true.
Proof.
  intros Hin Hout Hlen H. apply creatable_intro. intros q Hq Hex.
  destruct (decide (q `prefix_of` dst)) as [Hp|Hp]; [by apply Hin|].
  assert (¬ dst `prefix_of` q) as Hp'.
  { intros Hdq. apply Hp.
    assert (dst = d) as ->; [|done].
    apply prefix_length_eq; [by etrans|lia]. }
  unfold exists_, isdir in *. rewrite Hout in *; [|done..].
  by apply (creatable_spec fs d q).
Qed.

(** *** Names in one folder *)

Lemma siblings_apart (d : path) (f g : string) (rest : path) :
  f ≠ g →
  ¬ os_path_join d f `prefix_of` d ++ g :: rest
  ∧ ¬ d ++ g :: rest `prefix_of` os_path_join d f.
Proof.
  intros Hne. unfold os_path_join. split; intros H; apply prefix_app_inv in H;
    apply prefix_cons_inv_1 in H; congruence.
Qed.

Lemma lookup_write_file_sibling d f g c fs fs' :
  write_file (os_path_join d f) c fs = Some fs' → f ≠ g →
  lookup_path fs' (os_path_join d g) = lookup_path fs (os_path_join d g).
Proof.
  intros Hw Hne. destruct (siblings_apart d f g [] Hne).
  by eapply lookup_write_file_other.
Qed.

End FsFacts.

Import FsFacts.

(** ** File names *)

Module NameFacts.

Lemma length_append (s t : string) :
  String.length (s +:+ t) = String.length s + String.length t.
Proof. induction s as [|a s IH]; simpl; [done|]. by rewrite IH. Qed.

Lemma append_inj_l (s s' t : string) : s +:+ t = s' +:+ t → s = s'.
Proof.
  revert s'. induction s as [|a s IH]; intros [|b s'] H; simpl in H.
  - done.
  - apply (f_equal String.length) in H. simpl in H.
    rewrite !length_append in H. simpl in H. lia.
  - apply (f_equal String.length) in H. simpl in H.
    rewrite !length_append in H. simpl in H. lia.
  - injection H as -> H. f_equal. by apply IH.
Qed.

Lemma string_of_uint_inj d d' :
  NilEmpty.string_of_uint d = NilEmpty.string_of_uint d' → d = d'.
Proof.
  intros H. apply (f_equal NilEmpty.uint_of_string) in H.
  rewrite !NilEmpty.usu in H. congruence.
Qed.

Lemma string_of_uint_no_dash d s :
  NilEmpty.string_of_uint d ≠ String "-" s.
Proof. by destruct d. Qed.

Lemma of_uint_zero_padded width n : N.of_uint (Names.zero_padded width n) = n.
Proof.
  unfold Names.zero_padded.
  induction (width - Decimal.nb_digits (N.to_uint n)) as [|k IH]; simpl.
  - apply DecimalN.Unsigned.of_to.
  - exact IH.
Qed.

Lemma zero_padded_inj width n n' :
  Names.zero_padded width n = Names.zero_padded width n' → n = n'.
Proof.
  intros H. apply (f_equal N.of_uint) in H. by rewrite !of_uint_zero_padded in H.
Qed.

(** Distinct indices get distinct names. *)
Lemma fmt_06d_inj i j : Names.fmt_06d i = Names.fmt_06d j → i = j.
Proof.
  unfold Names.fmt_06d.
  destruct (i <? 0)%Z eqn:Ei, (j <? 0)%Z eqn:Ej; intros H.
  - injection H as H. apply string_of_uint_inj, zero_padded_inj in H.
    apply Z.ltb_lt in Ei, Ej. lia.
  - symmetry in H. by apply string_of_uint_no_dash in H.
  - by apply string_of_uint_no_dash in H.
  - apply string_of_uint_inj, zero_padded_inj in H.
    apply Z.ltb_ge in Ei, Ej. lia.
Qed.

Lemma plain_name_inj i j : plain_name i = plain_name j → i = j.
Proof. intros H. by apply append_inj_l, fmt_06d_inj in H. Qed.

Lemma mask_name_inj i j : mask_name i = mask_name j → i = j.
Proof. intros H. by apply append_inj_l, fmt_06d_inj in H. Qed.

(** *** The order of names *)

Lemma ascii_compare_eq a b : Ascii.compare a b = Eq → a = b.
Proof.
  unfold Ascii.compare. rewrite N.compare_eq_iff. intros H.
  rewrite <- (ascii_N_embedding a), <- (ascii_N_embedding b). by rewrite H.
Qed.

Lemma ascii_compare_lt_trans a b c :
  Ascii.compare a b = Lt → Ascii.compare b c = Lt → Ascii.compare a c = Lt.
Proof. unfold Ascii.compare. rewrite !N.compare_lt_iff. lia. Qed.

Lemma string_compare_refl s : String.compare s s = Eq.
Proof.
  induction s as [|a s IH]; simpl; [done|].
  unfold Ascii.compare. by rewrite N.compare_refl.
Qed.

Lemma string_compare_trans s1 s2 s3 :
  String.compare s1 s2 ≠ Gt → String.compare s2 s3 ≠ Gt →
  String.compare s1 s3 ≠ Gt.
Proof.
  revert s2 s3. induction s1 as [|a s1 IH]; intros [|b s2] [|c s3]; simpl; try done.
  destruct (Ascii.compare a b) eqn:Eab; [|clear IH|done].
  - apply ascii_compare_eq in Eab as ->.
    destruct (Ascii.compare b c) eqn:Ebc; [apply IH|done|done].
  - destruct (Ascii.compare b c) eqn:Ebc; [| |done].
    + apply ascii_compare_eq in Ebc as ->. by rewrite Eab.
    + by rewrite (ascii_compare_lt_trans a b c).
Qed.

Lemma str_le_alt a b : Names.str_le a b ↔ String.compare a b ≠ Gt.
Proof.
  unfold Names.str_le, String.leb. by destruct (String.compare a b).
Qed.

Global Instance str_le_trans : Transitive Names.str_le.
Proof. intros a b c. rewrite !str_le_alt. apply string_compare_trans. Qed.

Global Instance str_le_total : Total Names.str_le.
Proof.
  intros a b. unfold Names.str_le.
  destruct (String.leb_total a b) as [H|H]; rewrite H; [by left|by right].
Qed.

Global Instance str_le_antisym : AntiSymm eq Names.str_le.
Proof.
  intros a b Hab Hba. apply String.leb_antisym; by apply Is_true_true.
Qed.

(** The order in which [os.listdir] hands out the names is immaterial:
    the sorted list of PNG names is the same for every order. *)
Lemma png_files_Permutation names names' :
  names ≡ₚ names' → png_files names = png_files names'.
Proof.
  intros H. unfold png_files, Names.sort.
  apply (StronglySorted_unique Names.str_le).
  - apply StronglySorted_merge_sort; apply _.
  - apply StronglySorted_merge_sort; apply _.
  - rewrite !merge_sort_Permutation. by rewrite H.
Qed.

Lemma png_files_sorted names : StronglySorted Names.str_le (png_files names).
Proof. apply StronglySorted_merge_sort; apply _. Qed.

Lemma elem_of_png_files f names :
  f ∈ png_files names ↔ f ∈ names ∧ Names.is_png f = true.
Proof.
  unfold png_files, Names.sort. rewrite merge_sort_Permutation, list_elem_of_filter.
  rewrite Is_true_true. tauto.
Qed.

End NameFacts.

Import NameFacts.

(** ** The compositor *)

Module Compositor.

Local Open Scope Z_scope.

Section Steps.

Local Opaque shape2.

Variable luma : Z → Z → Z → Z.
Variable interp : matrix Z → nat → nat → nat → nat → Z.

Lemma exists_lookup fs p n : lookup_path fs p = Some n → exists_ fs p = true.
Proof. unfold exists_. by intros ->. Qed.

(** One iteration of the compositor loop never raises; it either leaves
    the tree alone or writes exactly one RGBA file into the output folder. *)
Lemma combine_one_cases rgb_folder mask_folder output_folder rgb_file fs :
  combine_one luma interp rgb_folder mask_folder output_folder rgb_file fs
  = (Ok false, fs)
  ∨ ∃ rgba fs',
      combine_one luma interp rgb_folder mask_folder output_folder rgb_file fs
      = (Ok true, fs')
      ∧ write_file
          (os_path_join output_folder (fst (Names.splitext rgb_file) +:+ ".png"))
          (Png (RGBA rgba)) fs = Some fs'.
Proof.
  unfold combine_one, combine_try. py_unfold.
  destruct (exists_ fs _); simpl; [|by left].
  destruct (lookup_path fs (os_path_join rgb_folder rgb_file)) as [[c|?]|];
    [|by left..].
  destruct (decode_color c) as [bgr|]; [|by left].
  destruct (lookup_path fs (os_path_join mask_folder _)) as [[cm|?]|];
    [|by left..].
  destruct (decode_grayscale luma cm) as [mask|]; [|by left].
  destruct (decide _).
  - unfold cv2_resize. destruct (_ || _); simpl; [by left|].
    destruct (write_file _ _ fs) as [fs'|] eqn:E; [|by left].
    right. eauto.
  - simpl. destruct (write_file _ _ fs) as [fs'|] eqn:E; [|by left].
    right. eauto.
Qed.

Lemma combine_one_same_shape rgb_folder mask_folder output_folder rgb_file
    fs c cm bgr mask :
  let base_name := fst (Names.splitext rgb_file) in
  lookup_path fs (os_path_join rgb_folder rgb_file) = Some (File c) →
  decode_color c = Some bgr →
  lookup_path fs (os_path_join mask_folder (base_name +:+ "_000000.png"))
    = Some (File cm) →
  decode_grayscale luma cm = Some mask →
  shape2 (cvtColor_BGR2RGB bgr) = shape2 mask →
  combine_one luma interp rgb_folder mask_folder output_folder rgb_file fs
  = match write_file (os_path_join output_folder (base_name +:+ ".png"))
            (Png (RGBA (merge_rgba (cvtColor_BGR2RGB bgr) mask))) fs with
    | Some fs' => (Ok true, fs')
    | None => (Ok false, fs)
    end.
Proof.
  intros base_name Hc Hbgr Hcm Hmask Hshape.
  unfold combine_one, combine_try. py_unfold.
  fold base_name. rewrite (exists_lookup _ _ _ Hcm). simpl.
  rewrite Hc, Hbgr, Hcm, Hmask.
  destruct (decide _) as [Hne|_]; [done|]. simpl.
  by destruct (write_file _ _ fs).
Qed.

Lemma combine_one_other_shape rgb_folder mask_folder output_folder rgb_file
    fs c cm bgr mask h w :
  let base_name := fst (Names.splitext rgb_file) in
  lookup_path fs (os_path_join rgb_folder rgb_file) = Some (File c) →
  decode_color c = Some bgr →
  lookup_path fs (os_path_join mask_folder (base_name +:+ "_000000.png"))
    = Some (File cm) →
  decode_grayscale luma cm = Some mask →
  shape2 (cvtColor_BGR2RGB bgr) = (h, w) → (0 < h)%nat → (0 < w)%nat →
  shape2 mask ≠ (h, w) →
  combine_one luma interp rgb_folder mask_folder output_folder rgb_file fs
  = match write_file (os_path_join output_folder (base_name +:+ ".png"))
            (Png (RGBA (merge_rgba (cvtColor_BGR2RGB bgr)
                          (tabulate h w (interp mask h w))))) fs with
    | Some fs' => (Ok true, fs')
    | None => (Ok false, fs)
    end.
Proof.
  intros base_name Hc Hbgr Hcm Hmask Hshape Hh Hw Hne.
  unfold combine_one, combine_try. py_unfold.
  fold base_name. rewrite (exists_lookup _ _ _ Hcm). simpl.
  rewrite Hc, Hbgr, Hcm, Hmask. simpl. rewrite !Hshape.
  destruct (decide _) as [_|He]; [|by destruct He]. simpl.
  unfold cv2_resize, ret, raise.
  destruct (w =? 0)%nat eqn:Ew; [apply Nat.eqb_eq in Ew; lia|].
  destruct (h =? 0)%nat eqn:Eh; [apply Nat.eqb_eq in Eh; lia|]. simpl.
  by destruct (write_file _ _ fs).
Qed.

End Steps.

Local Close Scope Z_scope.

Section Run.

Variable luma : Z → Z → Z → Z.
Variable interp : matrix Z → nat → nat → nat → nat → Z.

(** Writing a composite keeps every composite already in the folder. *)
Lemma write_rgba_keeps d name rgba fs fs' g :
  write_file (os_path_join d name) (Png (RGBA rgba)) fs = Some fs' →
  is_rgba fs (os_path_join d g) = true → is_rgba fs' (os_path_join d g) = true.
Proof.
  intros Hw. unfold is_rgba. destruct (decide (name = g)) as [<-|Hne].
  - by rewrite (lookup_write_file_eq _ _ _ _ Hw).
  - by rewrite (lookup_write_file_sibling _ _ _ _ _ _ Hw Hne).
Qed.

Lemma combine_loop_spec rgb_folder mask_folder output_folder files c fs :
  ∃ n fs',
    combine_loop luma interp rgb_folder mask_folder output_folder files c fs
      = (Ok n, fs')
    ∧ (c ≤ n)%nat
    ∧ (n = c → fs' = fs)
    ∧ (c < n →
       ∃ f, f ∈ files
            ∧ is_rgba fs' (os_path_join output_folder (composite_name f)) = true)
    ∧ (∀ g, is_rgba fs (os_path_join output_folder g) = true →
            is_rgba fs' (os_path_join output_folder g) = true)
    ∧ (∀ p, isdir fs' p = isdir fs p).
Proof.
  revert c fs. induction files as [|f files IH]; intros c fs.
  - exists c, fs. simpl. split; [done|]. split; [done|]. split; [done|].
    split; [lia|]. done.
  - simpl. unfold bind at 1.
    destruct (combine_one_cases luma interp rgb_folder mask_folder output_folder f fs)
      as [->|(rgba & fs1 & -> & Hw)].
    + destruct (IH c fs) as (n & fs' & Hl & Hle & Hsame & Hsome & Hkeep & Hdir).
      exists n, fs'. split; [done|]. split; [done|]. split; [done|].
      split; [|done]. intros Hlt. destruct (Hsome Hlt) as (g & Hg & Hr).
      exists g. split; [by right|done].
    + destruct (IH (S c) fs1) as (n & fs' & Hl & Hle & Hsame & Hsome & Hkeep & Hdir).
      exists n, fs'. split; [done|]. split; [lia|]. split; [lia|]. split; [|split].
      * intros _. destruct (decide (n = S c)) as [Hn|Hn].
        -- exists f. split; [by left|]. rewrite (Hsame Hn). unfold is_rgba, composite_name.
           by rewrite (lookup_write_file_eq _ _ _ _ Hw).
        -- destruct Hsome as (g & Hg & Hr); [lia|]. exists g. split; [by right|done].
      * intros g Hg. apply Hkeep. by eapply write_rgba_keeps.
      * intros p. rewrite Hdir. by eapply write_file_isdir.
Qed.

(** The whole function, by the state of the three folders. *)
Lemma combine_rgb_mask_spec rgb_folder mask_folder output_folder fs :
  combine_rgb_mask luma interp rgb_folder mask_folder output_folder fs
  = if negb (exists_ fs rgb_folder && exists_ fs mask_folder) then (Ok false, fs)
    else match makedirs output_folder fs with
         | None => (Raised FileExistsError, fs)
         | Some fs1 =>
             match listdir fs1 rgb_folder with
             | None => (Raised NotADirectoryError, fs1)
             | Some names =>
                 match combine_loop luma interp rgb_folder mask_folder
                         output_folder (png_files names) 0 fs1 with
                 | (Ok n, fs') => (Ok (0 <? n)%nat, fs')
                 | (Raised e, fs') => (Raised e, fs')
                 end
             end
         end.
Proof.
  unfold combine_rgb_mask. py_unfold.
  destruct (exists_ fs rgb_folder); simpl; [|done].
  destruct (exists_ fs mask_folder); simpl; [|done].
  destruct (makedirs output_folder fs) as [fs1|]; simpl; [|done].
  destruct (listdir fs1 rgb_folder) as [names|]; simpl; [|done].
  by destruct (png_files names).
Qed.

Lemma isdir_listdir fs d : isdir fs d = true → is_Some (listdir fs d).
Proof. unfold isdir, listdir. destruct (lookup_path fs d) as [[?|?]|]; by eauto. Qed.

(** C7, as the code has it. Provided the colour path, if it exists, is a
    directory and the output folder can be created, combine_rgb_mask
    returns, and it reports failure exactly when the colour folder is
    missing, the mask folder is missing, or it wrote no composite (which is
    the case when no eligible colour file is found); when it reports
    success a composite is in the output folder, when it reports failure
    with both folders present the tree is as the creation of the output
    folder left it. *)
Theorem combine_rgb_mask_reports rgb_folder mask_folder output_folder fs :
  (exists_ fs rgb_folder = true → isdir fs rgb_folder = true) →
  (exists_ fs rgb_folder = true → exists_ fs mask_folder = true →
   is_Some (makedirs output_folder fs)) →
  ∃ b fs',
    combine_rgb_mask luma interp rgb_folder mask_folder output_folder fs
      = (Ok b, fs')
    ∧ (b = false ↔
         exists_ fs rgb_folder = false ∨ exists_ fs mask_folder = false
         ∨ composites_written luma interp rgb_folder mask_folder output_folder fs
           = 0%nat)
    ∧ (b = true →
       ∃ f, Names.is_png f = true
            ∧ is_rgba fs' (os_path_join output_folder (composite_name f)) = true)
    ∧ (b = false → exists_ fs rgb_folder = true → exists_ fs mask_folder = true →
       makedirs output_folder fs = Some fs')
    ∧ (∀ fs1, makedirs output_folder fs = Some fs1 →
         eligible fs1 rgb_folder = [] → b = false).
Proof.
  intros Hdir Hmk. rewrite combine_rgb_mask_spec. unfold composites_written, eligible.
  destruct (exists_ fs rgb_folder) eqn:Er; simpl.
  2:{ exists false, fs. split; [done|]. split; [by split; [left|]|].
      split; [done|]. split; [done|]. done. }
  destruct (exists_ fs mask_folder) eqn:Em; simpl.
  2:{ exists false, fs. split; [done|]. split; [by split; [right; left|]|].
      split; [done|]. split; [done|]. done. }
  destruct (Hmk eq_refl eq_refl) as [fs1 Hfs1]. rewrite Hfs1.
  destruct (isdir_listdir fs1 rgb_folder) as [names Hnames].
  { eapply makedirs_isdir_mono; [done|]. by apply Hdir. }
  rewrite Hnames.
  destruct (combine_loop_spec rgb_folder mask_folder output_folder
              (png_files names) 0 fs1)
    as (n & fs' & Hl & _ & Hsame & Hsome & _ & _).
  rewrite Hl. exists (0 <? n)%nat, fs'. split; [done|]. split; [|split; [|split]].
  - rewrite Nat.ltb_ge. split; [intros ?; right; right; lia|].
    intros [?|[?|?]]; [done|done|lia].
  - intros Hn. apply Nat.ltb_lt in Hn. destruct (Hsome Hn) as (f & Hf & Hr).
    exists f. split; [|done]. unfold png_files, Names.sort in Hf.
    rewrite merge_sort_Permutation in Hf. apply list_elem_of_filter in Hf as [Hp _].
    by apply Is_true_true.
  - intros Hn _ _. apply Nat.ltb_ge in Hn. rewrite Hsame; [done|lia].
  - intros fs1' [= <-]. rewrite Hnames. intros Hnil. rewrite Hnil in Hl.
    simpl in Hl. unfold ret in Hl. by injection Hl as <- _.
Qed.

(** C10. With both input folders present, a call of combine_rgb_mask that
    reports failure has created the output folder and done nothing else;
    in particular a colour folder without PNG files makes the call report
    failure with the output folder in place. *)
Theorem combine_rgb_mask_failure_creates_output rgb_folder mask_folder
    output_folder fs :
  exists_ fs rgb_folder = true → exists_ fs mask_folder = true →
  (∀ fs', combine_rgb_mask luma interp rgb_folder mask_folder output_folder fs
          = (Ok false, fs') →
          makedirs output_folder fs = Some fs' ∧ isdir fs' output_folder = true)
  ∧ (∀ fs1, makedirs output_folder fs = Some fs1 →
            eligible fs1 rgb_folder = [] → isdir fs1 rgb_folder = true →
            combine_rgb_mask luma interp rgb_folder mask_folder output_folder fs
            = (Ok false, fs1)
            ∧ isdir fs1 output_folder = true).
Proof.
  intros Er Em. rewrite combine_rgb_mask_spec, Er, Em. simpl. split.
  - intros fs'. destruct (makedirs output_folder fs) as [fs1|] eqn:Hmk; [|done].
    destruct (listdir fs1 rgb_folder) as [names|]; [|done].
    destruct (combine_loop_spec rgb_folder mask_folder output_folder
                (png_files names) 0 fs1)
      as (n & fs2 & Hl & _ & Hsame & _ & _ & _).
    rewrite Hl. intros [= Hn <-]. apply Nat.ltb_ge in Hn.
    rewrite Hsame; [|lia]. split; [done|]. by eapply makedirs_isdir.
  - intros fs1 Hmk Hnil Hdir. rewrite Hmk. unfold eligible in Hnil.
    destruct (isdir_listdir fs1 rgb_folder Hdir) as [names Hnames].
    rewrite Hnames in *. rewrite Hnil. simpl. split; [done|].
    by eapply makedirs_isdir.
Qed.

End Run.

Lemma combine_rgb_mask_reports_witness :
  ∃ b fs',
    combine_rgb_mask Demo.luma_bt601 Demo.interp_nearest ["rgb"] ["mask"] ["out"]
      Demo.tree_no_mask = (Ok b, fs')
    ∧ (b = false ↔
         exists_ Demo.tree_no_mask ["rgb"] = false
         ∨ exists_ Demo.tree_no_mask ["mask"] = false
         ∨ composites_written Demo.luma_bt601 Demo.interp_nearest
             ["rgb"] ["mask"] ["out"] Demo.tree_no_mask = 0%nat).
Proof.
  destruct (combine_rgb_mask_reports Demo.luma_bt601 Demo.interp_nearest
              ["rgb"] ["mask"] ["out"] Demo.tree_no_mask)
    as (b & fs' & Hr & Hb & _).
  - reflexivity.
  - intros _ _. vm_compute. eauto.
  - exists b, fs'. split; [exact Hr|exact Hb].
Defined.

(** With both folders present and a PNG file in the colour folder, the
    function still reports failure when that file has no mask. *)
Lemma combine_rgb_mask_reports_counterexample :
  ¬ (fst (combine_rgb_mask Demo.luma_bt601 Demo.interp_nearest
            ["rgb"] ["mask"] ["out"] Demo.tree_no_mask) = Ok false
     ↔ (exists_ Demo.tree_no_mask ["rgb"] = false
        ∨ exists_ Demo.tree_no_mask ["mask"] = false
        ∨ eligible Demo.tree_no_mask ["rgb"] = [])).
Proof.
  intros [H _]. destruct (H ltac:(by vm_compute)) as [E|[E|E]];
    vm_compute in E; discriminate.
Qed.

Lemma combine_rgb_mask_failure_creates_output_witness :
  exists_ Demo.tree_no_png ["out"] = false
  ∧ ∃ fs1,
      combine_rgb_mask Demo.luma_bt601 Demo.interp_nearest ["rgb"] ["mask"] ["out"]
        Demo.tree_no_png = (Ok false, fs1)
      ∧ isdir fs1 ["out"] = true.
Proof.
  split; [reflexivity|].
  destruct (combine_rgb_mask_failure_creates_output Demo.luma_bt601
              Demo.interp_nearest ["rgb"] ["mask"] ["out"] Demo.tree_no_png
              eq_refl eq_refl) as [_ H].
  eexists. apply H.
  - vm_compute. reflexivity.
  - vm_compute. reflexivity.
  - vm_compute. reflexivity.
Defined.

End Compositor.

(** ** The background suppressor *)

Module Suppressor.

Local Open Scope Z_scope.

(** One iteration of the suppressor loop, by what the file holds. *)
Lemma postprocess_one_rgba folder rgba_file fs m :
  lookup_path fs (os_path_join folder rgba_file) = Some (File (Png (RGBA m))) →
  ∃ fs',
    write_file (os_path_join folder rgba_file) (Png (RGBA (pmap suppress_px m))) fs
      = Some fs'
    ∧ postprocess_one folder rgba_file fs = (Ok true, fs').
Proof.
  intros H.
  unfold postprocess_one. py_unfold.
  rewrite H. simpl.
  rewrite suppress_background_pmap, !pmap_pmap.
  rewrite (pmap_ext (swap_rb4 ∘ suppress_px ∘ swap_rb4) suppress_px);
    [|intros p; apply suppress_px_swap].
  assert (is_Some (write_file (os_path_join folder rgba_file)
                     (Png (RGBA (pmap suppress_px m))) fs)) as [fs' Hw].
  { unfold os_path_join in *. apply write_file_succeeds.
    - unfold isdir. rewrite lookup_path_app in H.
      destruct (lookup_path fs folder) as [[?|?]|]; simpl in H; try done.
    - unfold isdir. by rewrite H. }
  rewrite Hw. eauto.
Qed.

Lemma postprocess_one_other folder rgba_file fs :
  (∀ m, lookup_path fs (os_path_join folder rgba_file)
        ≠ Some (File (Png (RGBA m)))) →
  postprocess_one folder rgba_file fs = (Ok false, fs).
Proof.
  intros H.
  unfold postprocess_one. py_unfold.
  destruct (lookup_path fs _) as [[[[m|m|m]|]|?]|]; simpl; try done.
  by destruct (H m).
Qed.

Lemma suppress_px_pmap_idem (m : matrix px4) :
  pmap suppress_px (pmap suppress_px m) = pmap suppress_px m.
Proof. rewrite pmap_pmap. apply pmap_ext. intros p. apply suppress_px_idem. Qed.

(** Everything a later iteration can observe of one iteration. *)
Lemma postprocess_one_spec folder f fs :
  ∃ fs',
    postprocess_one folder f fs = (Ok (is_rgba fs (os_path_join folder f)), fs')
    ∧ (∀ g, is_rgba fs' (os_path_join folder g) = is_rgba fs (os_path_join folder g))
    ∧ (∀ d, listdir fs' d = listdir fs d)
    ∧ (∀ g, g ≠ f →
         lookup_path fs' (os_path_join folder g) = lookup_path fs (os_path_join folder g))
    ∧ settled fs' (os_path_join folder f)
    ∧ (settled fs (os_path_join folder f) → fs' = fs).
Proof.
  unfold is_rgba at 1.
  destruct (lookup_path fs (os_path_join folder f)) as [n|] eqn:E.
  2:{ exists fs. rewrite postprocess_one_other; [|by rewrite E].
      unfold settled. rewrite E. by repeat split. }
  assert ((∃ m, n = File (Png (RGBA m))) ∨ ¬ (∃ m, n = File (Png (RGBA m))))
    as [[m ->]|Hn].
  { destruct n as [[[]|]|]; try (right; by intros [? ?]). left. eauto. }
  - destruct (postprocess_one_rgba folder f fs m E) as (fs' & Hw & ->).
    exists fs'. split; [done|].
    pose proof (lookup_write_file_eq _ _ _ _ Hw) as Hl.
    split; [|split; [|split; [|split]]].
    + intros g. unfold is_rgba. destruct (decide (f = g)) as [<-|Hne].
      * by rewrite Hl, E.
      * by rewrite (lookup_write_file_sibling _ _ _ _ _ _ Hw Hne).
    + intros d. eapply write_file_listdir; [done|]. unfold exists_. by rewrite E.
    + intros g Hne. eapply lookup_write_file_sibling; [done|]. congruence.
    + intros m'. rewrite Hl. intros [= <-]. apply suppress_px_pmap_idem.
    + intros Hs. rewrite (Hs m E) in Hw.
      rewrite write_file_same in Hw; [congruence| |done].
      unfold os_path_join. by destruct folder.
  - exists fs. rewrite postprocess_one_other.
    2:{ intros m. rewrite E. intros [= ->]. apply Hn. eauto. }
    replace (match n with File (Png (RGBA _)) => true | _ => false end)
      with false by (destruct n as [[[]|]|]; try done; destruct Hn; eauto).
    unfold settled. rewrite E. repeat split; try done.
    intros m [= ->]. destruct Hn. eauto.
Qed.

Lemma settled_preserved folder f g fs fs' b :
  postprocess_one folder g fs = (b, fs') →
  settled fs (os_path_join folder f) → settled fs' (os_path_join folder f).
Proof.
  intros H Hs. destruct (postprocess_one_spec folder g fs)
    as (fs'' & Hr & _ & _ & Hother & Hset & _).
  rewrite Hr in H. injection H as _ <-.
  destruct (decide (g = f)) as [->|Hne]; [done|].
  unfold settled. rewrite Hother; [done|congruence].
Qed.

Lemma rgba_count_ext fs fs' folder files :
  (∀ g, is_rgba fs' (os_path_join folder g) = is_rgba fs (os_path_join folder g)) →
  rgba_count fs' folder files = rgba_count fs folder files.
Proof.
  intros H. unfold rgba_count. f_equal. apply list_filter_iff. intros g.
  by rewrite H.
Qed.

Lemma rgba_count_cons fs folder f files :
  rgba_count fs folder (f :: files)
  = ((if is_rgba fs (os_path_join folder f) then 1 else 0)
     + rgba_count fs folder files)%nat.
Proof.
  unfold rgba_count. rewrite filter_cons.
  case_decide as H; destruct (is_rgba fs (os_path_join folder f)); by simpl in *.
Qed.

Lemma postprocess_loop_spec folder files c fs :
  ∃ fs',
    postprocess_loop folder files c fs = (Ok (c + rgba_count fs folder files)%nat, fs')
    ∧ (∀ g, is_rgba fs' (os_path_join folder g) = is_rgba fs (os_path_join folder g))
    ∧ (∀ d, listdir fs' d = listdir fs d)
    ∧ (∀ f, f ∈ files ∨ settled fs (os_path_join folder f) →
         settled fs' (os_path_join folder f)).
Proof.
  revert c fs. induction files as [|f files IH]; intros c fs.
  - exists fs. simpl. unfold ret, rgba_count. simpl.
    rewrite Nat.add_0_r. repeat split; try done. intros f [Hf|Hf]; [|done].
    by apply elem_of_nil in Hf.
  - destruct (postprocess_one_spec folder f fs)
      as (fs1 & Hr & Hrgba & Hls & Hother & Hset & _).
    destruct (IH (if is_rgba fs (os_path_join folder f) then S c else c) fs1)
      as (fs' & Hloop & Hrgba' & Hls' & Hset').
    exists fs'. split; [|split; [|split]].
    + simpl. unfold bind at 1. rewrite Hr, Hloop.
      rewrite (rgba_count_ext fs fs1), rgba_count_cons; [|done].
      do 2 f_equal. destruct (is_rgba fs (os_path_join folder f)); lia.
    + intros g. by rewrite Hrgba', Hrgba.
    + intros d. by rewrite Hls', Hls.
    + intros g Hg. apply Hset'.
      destruct (decide (g = f)) as [->|Hne]; [by right|].
      destruct Hg as [Hg|Hg].
      * left. apply elem_of_cons in Hg as [?|?]; [done|done].
      * right. eapply settled_preserved; [exact Hr|done].
Qed.

Lemma postprocess_loop_settled folder files c fs :
  (∀ f, f ∈ files → settled fs (os_path_join folder f)) →
  postprocess_loop folder files c fs
  = (Ok (c + rgba_count fs folder files)%nat, fs).
Proof.
  revert c. induction files as [|f files IH]; intros c Hs.
  - simpl. unfold ret, rgba_count. simpl. by rewrite Nat.add_0_r.
  - destruct (postprocess_one_spec folder f fs)
      as (fs1 & Hr & _ & _ & _ & _ & Hsame).
    rewrite (Hsame (Hs f ltac:(by left))) in Hr.
    simpl. unfold bind at 1. rewrite Hr, IH.
    + rewrite rgba_count_cons. do 2 f_equal.
      destruct (is_rgba fs (os_path_join folder f)); lia.
    + intros g Hg. apply Hs. by right.
Qed.

Lemma postprocess_one_written folder rgba_file fs m :
  lookup_path fs (os_path_join folder rgba_file) = Some (File (Png (RGBA m))) →
  ∃ fs',
    postprocess_one folder rgba_file fs = (Ok true, fs')
    ∧ lookup_path fs' (os_path_join folder rgba_file)
      = Some (File (Png (RGBA (pmap suppress_px m)))).
Proof.
  intros H. destruct (postprocess_one_rgba folder rgba_file fs m H) as (fs' & Hw & Hr).
  exists fs'. split; [done|]. by eapply lookup_write_file_eq.
Qed.

(** C5. One iteration of postprocess_segmented_images on a four-channel
    image writes an image whose alpha channel is the original one at every
    position, and whose pixels with alpha at least 10 are untouched: only
    colour channels of background pixels change. *)
Theorem postprocess_one_alpha_unchanged folder rgba_file fs m :
  lookup_path fs (os_path_join folder rgba_file) = Some (File (Png (RGBA m))) →
  ∃ fs' m',
    postprocess_one folder rgba_file fs = (Ok true, fs')
    ∧ lookup_path fs' (os_path_join folder rgba_file) = Some (File (Png (RGBA m')))
    ∧ pmap alpha m' = pmap alpha m
    ∧ ∀ i j p, at_ m i j = Some p → 10 ≤ alpha p → at_ m' i j = Some p.
Proof.
  intros H. destruct (postprocess_one_written folder rgba_file fs m H) as (fs' & Hr & Hl).
  exists fs', (pmap suppress_px m). split; [done|]. split; [done|]. split.
  - rewrite pmap_pmap. apply pmap_ext. intros p. apply alpha_suppress_px.
  - intros i j p Hp Ha. rewrite at_pmap, Hp. simpl. unfold suppress_px.
    destruct (alpha p <? 10) eqn:E; [|done]. apply Z.ltb_lt in E. lia.
Qed.

Lemma postprocess_one_alpha_unchanged_witness :
  ∃ fs' m',
    postprocess_one ["images"] "000001.png" Demo.tree_composites = (Ok true, fs')
    ∧ lookup_path fs' ["images"; "000001.png"] = Some (File (Png (RGBA m')))
    ∧ pmap alpha m' = [[0; 255]].
Proof.
  destruct (postprocess_one_alpha_unchanged ["images"] "000001.png"
              Demo.tree_composites [[(7, 8, 9, 0); (1, 1, 1, 255)]] eq_refl)
    as (fs' & m' & Hr & Hl & Ha & _).
  exists fs', m'. split; [exact Hr|]. split; [exact Hl|]. exact Ha.
Defined.

Lemma listdir_isdir fs d names : listdir fs d = Some names → exists_ fs d = true.
Proof. unfold listdir, exists_. by destruct (lookup_path fs d). Qed.

(** The whole function, by the state of the folder. *)
Lemma postprocess_segmented_images_spec folder fs :
  match listdir fs folder with
  | Some names =>
      ∃ fs',
        postprocess_segmented_images folder fs
        = (Ok (0 <? rgba_count fs folder (png_files names))%nat, fs')
        ∧ (∀ g, is_rgba fs' (os_path_join folder g) = is_rgba fs (os_path_join folder g))
        ∧ listdir fs' folder = Some names
        ∧ (∀ f, f ∈ png_files names → settled fs' (os_path_join folder f))
        ∧ ((∀ f, f ∈ png_files names → settled fs (os_path_join folder f)) → fs' = fs)
  | None =>
      postprocess_segmented_images folder fs
      = (if exists_ fs folder then Raised NotADirectoryError else Ok false, fs)
  end.
Proof.
  unfold postprocess_segmented_images. py_unfold.
  destruct (listdir fs folder) as [names|] eqn:E.
  - rewrite (listdir_isdir _ _ _ E). simpl. rewrite E.
    destruct (png_files names) as [|f files] eqn:Ef.
    + exists fs. split; [done|]. split; [done|]. split; [done|].
      split; [|done]. intros f Hf. by apply elem_of_nil in Hf.
    + rewrite <- Ef. clear Ef.
      destruct (postprocess_loop_spec folder (png_files names) 0 fs)
        as (fs' & Hloop & Hrgba & Hls & Hset).
      exists fs'. rewrite Hloop. simpl.
      split; [done|]. split; [done|]. split; [by rewrite Hls|]. split.
      * intros g Hg. apply Hset. by left.
      * intros Hs. rewrite postprocess_loop_settled in Hloop; [|done]. congruence.
  - destruct (exists_ fs folder); simpl; [by rewrite E|done].
Qed.

(** C4. Suppression is idempotent: on a pixel array the second application
    computes the same background mask and changes nothing, and a second run
    of postprocess_segmented_images on a folder returns what the first
    returned and leaves the tree as the first left it. *)
Theorem postprocess_idempotent :
  (∀ m, background_mask_of (suppress_background m) = background_mask_of m)
  ∧ (∀ m, suppress_background (suppress_background m) = suppress_background m)
  ∧ (∀ folder fs,
       postprocess_segmented_images folder
         (snd (postprocess_segmented_images folder fs))
       = postprocess_segmented_images folder fs).
Proof.
  split; [|split].
  - intros m. rewrite suppress_background_pmap, !background_mask_of_pmap, pmap_pmap.
    apply pmap_ext. intros p. simpl. by rewrite alpha_suppress_px.
  - intros m. rewrite !suppress_background_pmap. apply suppress_px_pmap_idem.
  - intros folder fs.
    pose proof (postprocess_segmented_images_spec folder fs) as H1.
    destruct (listdir fs folder) as [names|] eqn:E.
    + destruct H1 as (fs1 & Hr & Hrgba & Hls & Hset & _). rewrite Hr. simpl.
      pose proof (postprocess_segmented_images_spec folder fs1) as H2.
      rewrite Hls in H2. destruct H2 as (fs2 & Hr2 & _ & _ & _ & Hsame).
      rewrite Hr2, (Hsame Hset). by rewrite (rgba_count_ext fs fs1).
    + rewrite H1. simpl. pose proof (postprocess_segmented_images_spec folder fs) as H2.
      by rewrite E in H2.
Qed.

(** C8, as the code has it. Unless the folder path names a regular file,
    postprocess_segmented_images returns, and it reports failure exactly
    when the folder does not exist or none of its PNG-named entries is a
    four-channel image (in particular when there is no such entry). *)
Theorem postprocess_reports folder fs :
  (exists_ fs folder = true → isdir fs folder = true) →
  ∃ b fs',
    postprocess_segmented_images folder fs = (Ok b, fs')
    ∧ (b = false ↔
         exists_ fs folder = false
         ∨ Forall (λ f, is_rgba fs (os_path_join folder f) = false)
             (eligible fs folder)).
Proof.
  intros Hdir. pose proof (postprocess_segmented_images_spec folder fs) as H.
  unfold eligible. destruct (listdir fs folder) as [names|] eqn:E.
  - destruct H as (fs' & Hr & _). eexists _, fs'. split; [exact Hr|].
    rewrite (listdir_isdir _ _ _ E). unfold rgba_count.
    rewrite Nat.ltb_ge, Nat.le_0_r, length_zero_iff_nil.
    split.
    + intros Hnil. right. apply Forall_forall. intros f Hf.
      destruct (is_rgba fs (os_path_join folder f)) eqn:Ef; [|done].
      destruct (filter_nil_not_elem_of _ _ f Hnil); [by rewrite Ef|done].
    + intros [?|Hall]; [done|]. clear Hr.
      induction Hall as [|f files Hf _ IH]; [done|].
      rewrite filter_cons, Hf. exact IH.
  - destruct (exists_ fs folder) eqn:Ex.
    + specialize (Hdir eq_refl). unfold isdir, listdir in *.
      by destruct (lookup_path fs folder) as [[?|?]|].
    + exists false, fs. split; [done|]. split; [by left|done].
Qed.

Lemma postprocess_reports_witness :
  ∃ b fs',
    postprocess_segmented_images ["images"] Demo.tree_rgb_only = (Ok b, fs')
    ∧ (b = false ↔
         exists_ Demo.tree_rgb_only ["images"] = false
         ∨ Forall (λ f, is_rgba Demo.tree_rgb_only (os_path_join ["images"] f) = false)
             (eligible Demo.tree_rgb_only ["images"])).
Proof.
  apply (postprocess_reports ["images"] Demo.tree_rgb_only). reflexivity.
Defined.

(** A folder that exists and holds a PNG-named file still makes the
    function report failure when that file has three channels. *)
Lemma postprocess_reports_counterexample :
  ¬ (fst (postprocess_segmented_images ["images"] Demo.tree_rgb_only) = Ok false
     ↔ (exists_ Demo.tree_rgb_only ["images"] = false
        ∨ eligible Demo.tree_rgb_only ["images"] = [])).
Proof.
  intros [H _]. destruct (H ltac:(by vm_compute)) as [E|E]; vm_compute in E; discriminate.
Qed.

End Suppressor.

(** ** The copy functions *)

Module Distributor.

Lemma prefix_snoc_inv {A} (l1 l2 : list A) x :
  l1 `prefix_of` l2 ++ [x] → l1 `prefix_of` l2 ∨ l1 = l2 ++ [x].
Proof.
  intros [k Hk]. destruct k as [|y k _] using rev_ind.
  - right. by rewrite app_nil_r in Hk.
  - left. rewrite app_assoc in Hk. apply app_inj_tail in Hk as [-> _].
    by exists k.
Qed.

(** A file written directly into [dst] is out of the way of every path
    outside [dst] that is not one of its ancestors. *)
Lemma outside_apart (dst p : path) name :
  ¬ dst `prefix_of` p → ¬ p `prefix_of` dst →
  ¬ os_path_join dst name `prefix_of` p ∧ ¬ p `prefix_of` os_path_join dst name.
Proof.
  intros H1 H2. unfold os_path_join. split; intros H.
  - apply H1. by eapply prefix_app_l.
  - apply prefix_snoc_inv in H as [H| ->]; [done|]. apply H1. by apply prefix_app_r.
Qed.

Lemma apart_join (src dst : path) name :
  apart src dst →
  ¬ dst `prefix_of` os_path_join src name ∧ ¬ os_path_join src name `prefix_of` dst.
Proof.
  intros [H1 H2]. unfold os_path_join. split; intros H.
  - apply prefix_snoc_inv in H as [H| ->]; [done|]. apply H1. by apply prefix_app_r.
  - apply H1. by eapply prefix_app_l.
Qed.

Lemma shutil_copy2_file src dst c fs :
  lookup_path fs src = Some (File c) → isdir fs dst = false → src ≠ dst →
  shutil_copy2 src dst fs
  = match write_file dst c fs with
    | Some fs' => (Ok tt, fs')
    | None => (Raised IsADirectoryError, fs)
    end.
Proof.
  intros Hs Hd Hne. unfold shutil_copy2, update. rewrite Hd, Hs.
  by rewrite decide_False.
Qed.

Section CopyLoop.

Variables sname dname : Z → string.
Hypothesis dname_inj : ∀ i j, dname i = dname j → i = j.

Lemma present_ext fs fs' src indices :
  (∀ i, exists_ fs' (os_path_join src (sname i)) = exists_ fs (os_path_join src (sname i))) →
  present sname fs' src indices = present sname fs src indices.
Proof. intros H. apply list_filter_iff. intros i. by rewrite H. Qed.

Lemma copy_loop_with_spec src dst indices c fs :
  apart src dst →
  isdir fs dst = true →
  (∀ i, i ∈ indices → isdir fs (os_path_join src (sname i)) = false) →
  (∀ i, i ∈ indices → isdir fs (os_path_join dst (dname i)) = false) →
  ∃ fs',
    copy_loop_with sname dname src dst indices c fs
      = (Ok (c + length (present sname fs src indices)), fs')
    ∧ (∀ i cc, i ∈ indices →
         lookup_path fs (os_path_join src (sname i)) = Some (File cc) →
         lookup_path fs' (os_path_join dst (dname i)) = Some (File cc))
    ∧ (∀ name,
         (∀ i, i ∈ indices → exists_ fs (os_path_join src (sname i)) = true →
               name ≠ dname i) →
         lookup_path fs' (os_path_join dst name) = lookup_path fs (os_path_join dst name))
    ∧ (∀ p, ¬ dst `prefix_of` p → ¬ p `prefix_of` dst →
            lookup_path fs' p = lookup_path fs p).
Proof.
  intros Hap. revert c fs.
  induction indices as [|i rest IH]; intros c fs Hdst Hsrc Hdn.
  - exists fs. simpl. unfold ret. rewrite Nat.add_0_r.
    split; [done|]. split; [|done]. intros i cc Hi. by apply elem_of_nil in Hi.
  - simpl. unfold bind at 1, os_path_exists, gets.
    destruct (exists_ fs (os_path_join src (sname i))) eqn:Ex.
    + (* the source exists: it is a file, and it is copied *)
      assert (∃ cc, lookup_path fs (os_path_join src (sname i)) = Some (File cc))
        as [cc Hcc].
      { specialize (Hsrc i ltac:(by left)). unfold exists_, isdir in *.
        destruct (lookup_path fs (os_path_join src (sname i))) as [[cc|?]|]; by eauto. }
      assert (os_path_join src (sname i) ≠ os_path_join dst (dname i)) as Hne.
      { intros Heq. apply app_inj_tail in Heq as [-> _]. by destruct Hap. }
      unfold bind at 1.
      rewrite (shutil_copy2_file _ _ cc); [|done|apply Hdn; by left|done].
      destruct (write_file_succeeds dst (dname i) cc fs Hdst (Hdn i ltac:(by left)))
        as [fs1 Hw].
      change (dst ++ [dname i]) with (os_path_join dst (dname i)) in Hw.
      rewrite Hw.
      assert (∀ p, ¬ dst `prefix_of` p → ¬ p `prefix_of` dst →
                   lookup_path fs1 p = lookup_path fs p) as Hframe.
      { intros p H1 H2. destruct (outside_apart dst p (dname i) H1 H2).
        by eapply lookup_write_file_other. }
      assert (∀ j, lookup_path fs1 (os_path_join src (sname j))
                   = lookup_path fs (os_path_join src (sname j))) as Hstable.
      { intros j. destruct (apart_join src dst (sname j) Hap). by apply Hframe. }
      destruct (IH (S c) fs1) as (fs' & Hrun & Hcopied & Hkept & Hout).
      { by rewrite (write_file_isdir _ _ _ _ _ Hw). }
      { intros j Hj. rewrite (write_file_isdir _ _ _ _ _ Hw). apply Hsrc. by right. }
      { intros j Hj. rewrite (write_file_isdir _ _ _ _ _ Hw). apply Hdn. by right. }
      exists fs'. split; [|split; [|split]].
      * rewrite Hrun. unfold present at 2. rewrite filter_cons, Ex. simpl.
        rewrite (present_ext fs fs1);
          [unfold present; by rewrite Nat.add_succ_r|].
        intros j. unfold exists_. by rewrite Hstable.
      * intros j cj Hj Hcj. destruct (decide (j ∈ rest)) as [Hin|Hnin].
        -- apply Hcopied; [done|]. by rewrite Hstable.
        -- apply elem_of_cons in Hj as [->|?]; [|done].
           rewrite Hkept.
           ++ rewrite (lookup_write_file_eq _ _ _ _ Hw). congruence.
           ++ intros k Hk _ Heq. apply dname_inj in Heq. by subst.
      * intros name Hname. rewrite Hkept.
        -- eapply lookup_write_file_sibling; [exact Hw|].
           intros Heq. by apply (Hname i); [left| |].
        -- intros k Hk Hex. apply Hname; [by right|].
           unfold exists_ in *. by rewrite <- Hstable.
      * intros p H1 H2. rewrite Hout; [|done|done]. by apply Hframe.
    + (* the source is missing: nothing is copied, the loop goes on *)
      destruct (IH c fs) as (fs' & Hrun & Hcopied & Hkept & Hout); [done|..].
      { intros j Hj. apply Hsrc. by right. }
      { intros j Hj. apply Hdn. by right. }
      exists fs'. split; [|split; [|split]].
      * rewrite Hrun. unfold present at 2. by rewrite filter_cons, Ex.
      * intros j cj Hj Hcj. apply elem_of_cons in Hj as [->|?]; [|by apply Hcopied].
        unfold exists_ in Ex. by rewrite Hcj in Ex.
      * intros name Hname. apply Hkept. intros k Hk. apply Hname. by right.
      * done.
Qed.

(** A run over [range start end) from the tree in which [dst] has just
    been created. *)
Lemma copy_loop_with_range src dst start_idx end_idx fs1 :
  apart src dst →
  isdir fs1 dst = true →
  (∀ i, (start_idx ≤ i < end_idx)%Z → isdir fs1 (os_path_join src (sname i)) = false) →
  (∀ i, (start_idx ≤ i < end_idx)%Z → isdir fs1 (os_path_join dst (dname i)) = false) →
  copies_range sname dname src dst start_idx end_idx fs1
    (copy_loop_with sname dname src dst (range start_idx end_idx) 0 fs1).
Proof.
  intros Hap Hdst Hsrc Hdn.
  assert (∀ i, i ∈ range start_idx end_idx ↔ (start_idx ≤ i < end_idx)%Z) as Hin.
  { intros i. unfold range. rewrite elem_of_seqZ. lia. }
  destruct (copy_loop_with_spec src dst (range start_idx end_idx) 0 fs1)
    as (fs' & Hrun & Hcopied & Hkept & Hout); [done|done|..].
  { intros i Hi. apply Hsrc. by apply Hin. }
  { intros i Hi. apply Hdn. by apply Hin. }
  exists fs'. split; [exact Hrun|]. split; [|split; [|split]].
  - intros i cc Hi. apply Hcopied. by apply Hin.
  - intros i Hi. apply Hkept. intros j Hj Hex Heq. apply dname_inj in Heq.
    subst j. apply Hi. split; [by apply Hin|done].
  - intros name Hname. apply Hkept. intros j Hj. apply Hname. by apply Hin.
  - exact Hout.
Qed.

End CopyLoop.

(** Copying never turns a file into a directory or back. *)
Lemma shutil_copy2_isdir src dst fs r fs' p :
  shutil_copy2 src dst fs = (r, fs') → isdir fs' p = isdir fs p.
Proof.
  unfold shutil_copy2, update. case_decide; [by intros [= _ <-]|].
  destruct (lookup_path fs src) as [[c|?]|]; [|by intros [= _ <-]..].
  destruct (write_file _ c fs) as [fs1|] eqn:Hw; intros [= _ <-]; [|done].
  by eapply write_file_isdir.
Qed.

Lemma copy_loop_with_isdir sname dname src dst indices c fs r fs' p :
  copy_loop_with sname dname src dst indices c fs = (r, fs') →
  isdir fs' p = isdir fs p.
Proof.
  revert c fs. induction indices as [|i rest IH]; intros c fs; simpl.
  - by intros [= _ <-].
  - unfold bind at 1, os_path_exists, gets. destruct (exists_ fs _); [|apply IH].
    unfold bind at 1.
    destruct (shutil_copy2 _ _ fs) as [[[]|e] fs1] eqn:Hc.
    + intros H. rewrite (IH _ _ H). by eapply shutil_copy2_isdir.
    + intros [= _ <-]. by eapply shutil_copy2_isdir.
Qed.

Section CopyStep.

Variables sname dname : Z → string.
Hypothesis dname_inj : ∀ i j, dname i = dname j → i = j.

(** A copy step in a tree where the source holds files only and the
    destination can be created and holds no sub-directories: it returns,
    whatever source files are missing. *)
Lemma copy_step_returns src dst s e fs :
  apart src dst →
  files_only fs src = true → files_only fs dst = true → creatable fs dst = true →
  ∃ n fs',
    bind (os_makedirs dst)
      (λ _, copy_loop_with sname dname src dst (range s e) 0) fs = (Ok n, fs')
    ∧ (∀ p, p `prefix_of` dst → isdir fs' p = true)
    ∧ (∀ p, ¬ p `prefix_of` dst → isdir fs' p = isdir fs p)
    ∧ (∀ p, ¬ p `prefix_of` dst → ¬ dst `prefix_of` p →
            lookup_path fs' p = lookup_path fs p).
Proof.
  intros Hap Hsrc Hdst Hcr.
  destruct (makedirs_succeeds dst fs) as [fs1 Hmk].
  { intros q. by apply creatable_spec. }
  assert (∀ p, ¬ p `prefix_of` dst → isdir fs1 p = isdir fs p) as Hdir1.
  { intros p Hp. unfold isdir. by rewrite (makedirs_lookup_other _ _ _ _ Hmk Hp). }
  destruct (copy_loop_with_spec sname dname dname_inj src dst (range s e) 0 fs1)
    as (fs' & Hrun & _ & _ & Hout); [done|by eapply makedirs_isdir|..].
  { intros i _. rewrite Hdir1; [by apply files_only_spec|].
    by destruct (apart_join src dst (sname i) Hap). }
  { intros i _. rewrite Hdir1; [by apply files_only_spec|]. apply prefix_snoc_not. }
  unfold bind, os_makedirs, update. rewrite Hmk, Hrun.
  eexists _, fs'. split; [done|]. split; [|split].
  - intros p Hp. rewrite (copy_loop_with_isdir _ _ _ _ _ _ _ _ _ p Hrun).
    by eapply makedirs_isdir_prefix.
  - intros p Hp. rewrite (copy_loop_with_isdir _ _ _ _ _ _ _ _ _ p Hrun).
    by apply Hdir1.
  - intros p Hp1 Hp2. rewrite Hout; [|done|done].
    by eapply makedirs_lookup_other.
Qed.

End CopyStep.

(** The three loops are the common loop at their name patterns. *)
Lemma copy_images_loop_eq src dst indices c fs :
  copy_images_loop src dst indices c fs
  = copy_loop_with plain_name plain_name src dst indices c fs.
Proof.
  revert c fs. induction indices as [|i rest IH]; intros c fs; [done|].
  simpl. unfold bind, os_path_exists, gets. fold (plain_name i).
  destruct (exists_ fs _); [|apply IH].
  destruct (shutil_copy2 _ _ fs) as [[[]|e] fs1]; [apply IH|done].
Qed.

Lemma copy_and_rename_loop_eq src dst indices c fs :
  copy_and_rename_loop src dst indices c fs
  = copy_loop_with mask_name plain_name src dst indices c fs.
Proof.
  revert c fs. induction indices as [|i rest IH]; intros c fs; [done|].
  simpl. unfold bind, os_path_exists, gets. fold (plain_name i) (mask_name i).
  destruct (exists_ fs _); [|apply IH].
  destruct (shutil_copy2 _ _ fs) as [[[]|e] fs1]; [apply IH|done].
Qed.

Lemma copy_mask_loop_eq src dst indices c fs :
  copy_mask_loop src dst indices c fs
  = copy_loop_with mask_name mask_name src dst indices c fs.
Proof.
  revert c fs. induction indices as [|i rest IH]; intros c fs; [done|].
  simpl. unfold bind, os_path_exists, gets. fold (mask_name i).
  destruct (exists_ fs _); [|apply IH].
  destruct (shutil_copy2 _ _ fs) as [[[]|e] fs1]; [apply IH|done].
Qed.

Lemma copy_and_rename_returns src dst s e fs :
  apart src dst →
  files_only fs src = true → files_only fs dst = true → creatable fs dst = true →
  ∃ n fs',
    copy_and_rename_mask_images src dst (s, e) fs = (Ok n, fs')
    ∧ (∀ p, p `prefix_of` dst → isdir fs' p = true)
    ∧ (∀ p, ¬ p `prefix_of` dst → isdir fs' p = isdir fs p)
    ∧ (∀ p, ¬ p `prefix_of` dst → ¬ dst `prefix_of` p →
            lookup_path fs' p = lookup_path fs p).
Proof.
  intros Hap Hsrc Hdst Hcr.
  destruct (copy_step_returns mask_name plain_name plain_name_inj src dst s e fs)
    as (n & fs' & Hrun & Hprops); [done..|].
  exists n, fs'. split; [|done]. unfold copy_and_rename_mask_images, bind in *.
  destruct (os_makedirs dst fs) as [[[]|e'] fs1]; [|done].
  by rewrite copy_and_rename_loop_eq.
Qed.

Lemma copy_images_returns src dst s e fs :
  apart src dst →
  files_only fs src = true → files_only fs dst = true → creatable fs dst = true →
  ∃ n fs',
    copy_images_to_directory src dst (s, e) fs = (Ok n, fs')
    ∧ (∀ p, p `prefix_of` dst → isdir fs' p = true)
    ∧ (∀ p, ¬ p `prefix_of` dst → isdir fs' p = isdir fs p)
    ∧ (∀ p, ¬ p `prefix_of` dst → ¬ dst `prefix_of` p →
            lookup_path fs' p = lookup_path fs p).
Proof.
  intros Hap Hsrc Hdst Hcr.
  destruct (copy_step_returns plain_name plain_name plain_name_inj src dst s e fs)
    as (n & fs' & Hrun & Hprops); [done..|].
  exists n, fs'. split; [|done]. unfold copy_images_to_directory, bind in *.
  destruct (os_makedirs dst fs) as [[[]|e'] fs1]; [|done].
  by rewrite copy_images_loop_eq.
Qed.

End Distributor.

(** ** The orchestration *)

Module Orchestrator.

(** Two paths below the same directory that part ways at a named
    component: neither is a prefix of the other. *)
Ltac paths_part H :=
  rewrite <- ?app_assoc in H; apply prefix_app_inv in H; simpl in H;
  repeat first
    [ by apply prefix_nil_not in H
    | let E := fresh in
      pose proof (prefix_cons_inv_1 _ _ _ _ H) as E;
      first [ discriminate E | clear E; apply prefix_cons_inv_2 in H ] ].

Lemma tidy_spec obj_path fs :
  tidy obj_path fs = true ↔
  (∀ d, d ∈ inputs ++ outputs → files_only fs (obj_path ++ d) = true)
  ∧ (∀ d, d ∈ outputs → creatable fs (obj_path ++ d) = true).
Proof.
  unfold tidy. rewrite andb_true_iff, !forallb_forall.
  by setoid_rewrite list_elem_of_In.
Qed.

(** A copy step into one of the four destinations keeps the tree tidy. *)
Lemma tidy_kept obj_path dst fs fs' :
  dst ∈ outputs →
  (∀ p, p `prefix_of` obj_path ++ dst → isdir fs' p = true) →
  (∀ p, ¬ p `prefix_of` obj_path ++ dst → isdir fs' p = isdir fs p) →
  (∀ p, ¬ p `prefix_of` obj_path ++ dst → ¬ obj_path ++ dst `prefix_of` p →
        lookup_path fs' p = lookup_path fs p) →
  tidy obj_path fs = true → tidy obj_path fs' = true.
Proof.
  intros Hdst Hin Hdir Hout. rewrite !tidy_spec. intros [Hfiles Hcr]. split.
  - intros d Hd. apply (files_only_kept fs fs' (obj_path ++ dst)); [done| |by apply Hfiles].
    intros name H. unfold inputs, outputs in Hd, Hdst. simpl in Hd.
    repeat (apply elem_of_cons in Hdst as [->|Hdst]);
      [..|by apply elem_of_nil in Hdst];
      repeat (apply elem_of_cons in Hd as [->|Hd]);
      try (by apply elem_of_nil in Hd); paths_part H.
  - intros d Hd. apply (creatable_kept fs fs' (obj_path ++ dst)); [done|done| |by apply Hcr].
    rewrite !length_app. unfold outputs in Hd, Hdst.
    repeat (apply elem_of_cons in Hdst as [->|Hdst]);
      [..|by apply elem_of_nil in Hdst];
      repeat (apply elem_of_cons in Hd as [->|Hd]);
      try (by apply elem_of_nil in Hd); done.
Qed.

Lemma inputs_outputs_apart obj_path src dst :
  src ∈ inputs → dst ∈ outputs → apart (obj_path ++ src) (obj_path ++ dst).
Proof.
  intros Hs Hd. unfold inputs, outputs in *.
  repeat (apply elem_of_cons in Hs as [->|Hs]); [..|by apply elem_of_nil in Hs];
    repeat (apply elem_of_cons in Hd as [->|Hd]);
    try (by apply elem_of_nil in Hd); split; intros H; paths_part H.
Qed.

(** In a tidy tree steps 2 to 6 all run and the result is success,
    whatever files are missing. *)
Lemma distribute_and_suppress_completes obj_path fs :
  tidy obj_path fs = true →
  ∃ fs', distribute_and_suppress obj_path fs = (Ok true, fs').
Proof.
  intros Ht. unfold distribute_and_suppress. rewrite <- !app_assoc. simpl.
  pose proof Ht as [Hf Hc]%tidy_spec.
  destruct (Distributor.copy_and_rename_returns
              (obj_path ++ ["train_pbr"; "000000"; "mask"])
              (obj_path ++ ["train_pbr"; "vggt"; "segmented"; "masks"]) 0 30 fs)
    as (n2 & fs2 & Hr2 & Hi2 & Hd2 & Ho2).
  { apply inputs_outputs_apart; unfold inputs, outputs; set_solver. }
  { apply Hf. unfold inputs, outputs. set_solver. }
  { apply Hf. unfold inputs, outputs. set_solver. }
  { apply Hc. unfold outputs. set_solver. }
  pose proof (tidy_kept obj_path ["train_pbr"; "vggt"; "segmented"; "masks"] fs fs2
                ltac:(unfold outputs; set_solver) Hi2 Hd2 Ho2 Ht)
    as Ht2. clear Hf Hc Hi2 Hd2 Ho2.
  pose proof Ht2 as [Hf Hc]%tidy_spec.
  destruct (Distributor.copy_and_rename_returns
              (obj_path ++ ["train_pbr"; "000000"; "mask"])
              (obj_path ++ ["train_pbr"; "vggt"; "surface"; "masks"]) 0 20 fs2)
    as (n3 & fs3 & Hr3 & Hi3 & Hd3 & Ho3).
  { apply inputs_outputs_apart; unfold inputs, outputs; set_solver. }
  { apply Hf. unfold inputs, outputs. set_solver. }
  { apply Hf. unfold inputs, outputs. set_solver. }
  { apply Hc. unfold outputs. set_solver. }
  pose proof (tidy_kept obj_path ["train_pbr"; "vggt"; "surface"; "masks"] fs2 fs3
                ltac:(unfold outputs; set_solver) Hi3 Hd3 Ho3 Ht2)
    as Ht3. clear Hf Hc Hi3 Hd3 Ho3.
  pose proof Ht3 as [Hf Hc]%tidy_spec.
  destruct (Distributor.copy_images_returns
              (obj_path ++ ["train_pbr"; "000000"; "rgb_mask"])
              (obj_path ++ ["train_pbr"; "vggt"; "surface"; "images"]) 0 20 fs3)
    as (n4 & fs4 & Hr4 & Hi4 & Hd4 & Ho4).
  { apply inputs_outputs_apart; unfold inputs, outputs; set_solver. }
  { apply Hf. unfold inputs, outputs. set_solver. }
  { apply Hf. unfold inputs, outputs. set_solver. }
  { apply Hc. unfold outputs. set_solver. }
  pose proof (tidy_kept obj_path ["train_pbr"; "vggt"; "surface"; "images"] fs3 fs4
                ltac:(unfold outputs; set_solver) Hi4 Hd4 Ho4 Ht3)
    as Ht4. clear Hf Hc Hi4 Hd4 Ho4.
  pose proof Ht4 as [Hf Hc]%tidy_spec.
  destruct (Distributor.copy_images_returns
              (obj_path ++ ["train_pbr"; "000000"; "rgb_mask"])
              (obj_path ++ ["train_pbr"; "vggt"; "segmented"; "images"]) 0 30 fs4)
    as (n5 & fs5 & Hr5 & Hi5 & _ & _).
  { apply inputs_outputs_apart; unfold inputs, outputs; set_solver. }
  { apply Hf. unfold inputs, outputs. set_solver. }
  { apply Hf. unfold inputs, outputs. set_solver. }
  { apply Hc. unfold outputs. set_solver. }
  pose proof (Suppressor.postprocess_segmented_images_spec
                (obj_path ++ ["train_pbr"; "vggt"; "segmented"; "images"]) fs5) as H6.
  destruct (Compositor.isdir_listdir fs5
              (obj_path ++ ["train_pbr"; "vggt"; "segmented"; "images"]))
    as [names Hnames]; [by apply Hi5|].
  rewrite Hnames in H6. destruct H6 as (fs6 & Hr6 & _).
  exists fs6. unfold bind. by rewrite Hr2, Hr3, Hr4, Hr5, Hr6.
Qed.

(** A run on two frames: every index from 2 on is missing in each copy
    step, and the run still goes through all steps. *)
Example process_two_frames :
  let r := process_object_directory Demo.luma_bt601 Demo.interp_nearest ["obj"]
             Demo.tree_two_frames in
  fst r = Ok true
  ∧ eligible (snd r) ["obj"; "train_pbr"; "vggt"; "segmented"; "images"]
    = ["000000.png"; "000001.png"]
  ∧ eligible (snd r) ["obj"; "train_pbr"; "vggt"; "surface"; "masks"]
    = ["000000.png"; "000001.png"]
  ∧ lookup_path (snd r)
      ["obj"; "train_pbr"; "vggt"; "segmented"; "images"; "000000.png"]
    = Some (File (Png (RGBA [[(0, 0, 0, 0); (0, 0, 0, 9)];
                             [(7, 8, 9, 10); (10, 11, 12, 255)]])))%Z
  ∧ lookup_path (snd r)
      ["obj"; "train_pbr"; "vggt"; "surface"; "images"; "000000.png"]
    = Some (File (Png (RGBA [[(1, 2, 3, 0); (4, 5, 6, 9)];
                             [(7, 8, 9, 10); (10, 11, 12, 255)]])))%Z.
Proof. vm_compute. repeat split. Qed.

End Orchestrator.

(** ** File names of the indices *)

Module NamesMore.

Lemma string_of_uint_length d :
  String.length (NilEmpty.string_of_uint d) = Decimal.nb_digits d.
Proof. induction d; simpl; by f_equal. Qed.

Lemma zero_padded_nb_digits width n :
  Decimal.nb_digits (Names.zero_padded width n)
  = (width `max` Decimal.nb_digits (N.to_uint n))%nat.
Proof. unfold Names.zero_padded. rewrite nb_digits_iter_D0. lia. Qed.

Lemma int_of_string_of_uint d :
  d ≠ Decimal.Nil →
  NilEmpty.int_of_string (NilEmpty.string_of_uint d) = Some (Decimal.Pos d).
Proof.
  intros Hd. pose proof (NilEmpty.usu d) as H.
  destruct d; try done; simpl in *; by rewrite H.
Qed.

Lemma zero_padded_nonnil width n : Names.zero_padded width n ≠ Decimal.Nil.
Proof.
  intros H. apply (f_equal Decimal.nb_digits) in H.
  rewrite zero_padded_nb_digits in H. simpl in H.
  assert (Decimal.nb_digits (N.to_uint n) ≠ 0)%nat; [|lia].
  destruct n as [|p]; [done|]. intros H0. apply nb_digits_0 in H0.
  by apply (DecimalPos.Unsigned.to_uint_nonnil p).
Qed.

Lemma fmt_06d_min_length i : (6 ≤ String.length (Names.fmt_06d i))%nat.
Proof.
  unfold Names.fmt_06d. destruct (i <? 0)%Z; simpl;
    rewrite string_of_uint_length, zero_padded_nb_digits; lia.
Qed.

(** X1. The index can be read back from the name the format gives it, for
    every integer, negative ones included; so distinct indices never share
    a file name, and no name is shorter than six characters. *)
Theorem fmt_06d_round_trip (i : Z) :
  parse_index (Names.fmt_06d i) = Some i
  ∧ (6 ≤ String.length (Names.fmt_06d i))%nat
  ∧ (∀ j, Names.fmt_06d j = Names.fmt_06d i → j = i).
Proof.
  split; [|split].
  - unfold parse_index, Names.fmt_06d. destruct (i <? 0)%Z eqn:E.
    + simpl. rewrite NilEmpty.usu. simpl. unfold Z.of_uint.
      fold (N.of_uint (Names.zero_padded 5 (Z.abs_N i))).
      rewrite of_uint_zero_padded. apply Z.ltb_lt in E. f_equal. lia.
    + rewrite int_of_string_of_uint by apply zero_padded_nonnil. simpl.
      unfold Z.of_uint. fold (N.of_uint (Names.zero_padded 6 (Z.to_N i))).
      rewrite of_uint_zero_padded. apply Z.ltb_ge in E. f_equal. lia.
  - apply fmt_06d_min_length.
  - intros j. apply fmt_06d_inj.
Qed.

End NamesMore.

Import NamesMore.

Module NamesWidth.

Lemma usize_nb_digits d : Unsigned.usize d = N.of_nat (Decimal.nb_digits d).
Proof. induction d; simpl; rewrite ?IHd; lia. Qed.

(** A numeral that starts with a non-zero digit is at least the power of
    ten of its other digits. *)
Lemma of_uint_acc_lower l acc :
  (10 ^ N.of_nat (Decimal.nb_digits l) ≤ N.pos (Pos.of_uint_acc l acc))%N.
Proof.
  rewrite Unsigned.of_uint_acc_rev, usize_nb_digits.
  assert (1 ≤ N.pos acc)%N by lia.
  assert (0 < 10 ^ N.of_nat (Decimal.nb_digits l))%N
    by (apply N.neq_0_lt_0, N.pow_nonzero; lia).
  nia.
Qed.

Lemma to_uint_head_nonzero p l : Pos.to_uint p ≠ Decimal.D0 l.
Proof.
  intros H. pose proof (Unsigned.to_of (Pos.to_uint p)) as Hn.
  rewrite Unsigned.of_to in Hn. simpl in Hn. rewrite H in Hn.
  unfold Decimal.unorm in Hn. simpl in Hn.
  pose proof (nb_digits_nzhead l) as Hl.
  destruct (Decimal.nzhead l) eqn:E; simpl in *;
    try (injection Hn as Hn; subst; by apply (Unsigned.to_uint_nonzero p));
    try done; injection Hn as Hn; rewrite <- Hn in Hl; simpl in Hl; lia.
Qed.

Lemma to_uint_digits_bound (n : N) (k : nat) :
  (n < 10 ^ N.of_nat k)%N → (0 < k)%nat →
  (Decimal.nb_digits (N.to_uint n) ≤ k)%nat.
Proof.
  intros Hn Hk. destruct n as [|p]; simpl; [lia|].
  pose proof (Unsigned.of_to p) as Hof.
  pose proof (to_uint_head_nonzero p) as Hnz.
  pose proof (Unsigned.to_uint_nonnil p) as Hnil.
  destruct (Pos.to_uint p) as [|l|l|l|l|l|l|l|l|l|l]; try done;
    try (by destruct (Hnz l)); simpl in *;
    (destruct (decide (Decimal.nb_digits l < k)%nat) as [|Hge]; [lia|];
     exfalso;
     pose proof (of_uint_acc_lower l) as Hlow;
     assert (10 ^ N.of_nat k ≤ 10 ^ N.of_nat (Decimal.nb_digits l))%N
       by (apply N.pow_le_mono_r; lia);
     match type of Hof with N.pos (Pos.of_uint_acc l ?a) = _ =>
       specialize (Hlow a) end; lia).
Qed.

(** X2. An index from 0 up to 999999 gets a name of exactly six
    characters, and so does a negative index down to -99999 (a minus sign
    and five digits). *)
Theorem fmt_06d_width (i : Z) :
  (-100000 < i < 1000000)%Z → String.length (Names.fmt_06d i) = 6%nat.
Proof.
  intros Hi. unfold Names.fmt_06d. destruct (i <? 0)%Z eqn:E; simpl;
    rewrite string_of_uint_length, zero_padded_nb_digits.
  - apply Z.ltb_lt in E.
    pose proof (to_uint_digits_bound (Z.abs_N i) 5) as H.
    assert ((10 ^ N.of_nat 5 = 100000)%N) as Hp by reflexivity.
    rewrite Hp in H. lia.
  - apply Z.ltb_ge in E.
    pose proof (to_uint_digits_bound (Z.to_N i) 6) as H.
    assert ((10 ^ N.of_nat 6 = 1000000)%N) as Hp by reflexivity.
    rewrite Hp in H. lia.
Qed.

Lemma fmt_06d_width_witness : String.length (Names.fmt_06d 29) = 6%nat.
Proof. apply fmt_06d_width. lia. Defined.

End NamesWidth.

Import NamesWidth.

(** ** Stems of the PNG names *)

Module StemFacts.

Lemma lower_app s t : Names.lower (s +:+ t) = Names.lower s +:+ Names.lower t.
Proof. induction s as [|a s IH]; simpl; [done|]. by rewrite IH. Qed.

Lemma lower_length s : String.length (Names.lower s) = String.length s.
Proof. induction s as [|a s IH]; simpl; [done|]. by rewrite IH. Qed.

Lemma substring_0_app s t : substring 0 (String.length s) (s +:+ t) = s.
Proof. induction s as [|a s IH]; simpl; [by destruct t|]. by rewrite IH. Qed.

Lemma substring_skip_app s t n :
  substring (String.length s) n (s +:+ t) = substring 0 n t.
Proof. induction s as [|a s IH]; simpl; [done|]. exact IH. Qed.

Lemma substring_0_all t : substring 0 (String.length t) t = t.
Proof. induction t as [|a t IH]; simpl; [done|]. by rewrite IH. Qed.

(** Cutting a string [k] characters before its end. *)
Lemma split_suffix s k :
  (k ≤ String.length s)%nat →
  ∃ stem ext, s = stem +:+ ext ∧ String.length ext = k
              ∧ substring (String.length s - k) k s = ext.
Proof.
  revert k. induction s as [|a s IH]; intros k Hk; simpl in Hk.
  - exists EmptyString, EmptyString. assert (k = 0)%nat as -> by lia. done.
  - destruct (decide (k = S (String.length s))) as [->|Hne].
    + exists EmptyString, (String a s). split; [done|]. split; [done|].
      simpl. rewrite Nat.sub_diag. by rewrite substring_0_all.
    + destruct (IH k) as (stem & ext & Hs & Hl & Hsub); [lia|].
      exists (String a stem), ext. split; [by rewrite Hs at 1|].
      split; [done|]. simpl.
      replace (S (String.length s) - k)%nat with (S (String.length s - k)) by lia.
      done.
Qed.

Lemma lower_ascii_dot c : Names.lower_ascii c = "."%char → c = "."%char.
Proof.
  destruct c as [[] [] [] [] [] [] [] []]; vm_compute; congruence.
Qed.

Lemma lower_ascii_not_dot c x :
  Names.lower_ascii c = x → x ≠ "."%char → Ascii.eqb c "." = false.
Proof.
  intros H Hx. apply Ascii.eqb_neq. intros ->. apply Hx. rewrite <- H. done.
Qed.

Lemma rfind_app c s t :
  Names.rfind c (s +:+ t)
  = match Names.rfind c t with
    | Some i => Some (String.length s + i)%nat
    | None => Names.rfind c s
    end.
Proof.
  induction s as [|a s IH]; simpl.
  - change (EmptyString +:+ t) with t. by destruct (Names.rfind c t).
  - rewrite IH. destruct (Names.rfind c t); [done|].
    by destruct (Names.rfind c s).
Qed.

(** X3. A name the filter accepts ends in a dot and the three letters p, n,
    g in either case. Its stem is the name without these four characters,
    unless nothing but dots comes before them (a name such as [.png]): then
    the stem is the whole name, so the mask is looked up as
    [.png_000000.png] and the composite is called [.png.png]. *)
Theorem splitext_of_png (f : string) :
  Names.is_png f = true →
  ∃ stem ext,
    f = stem +:+ ext
    ∧ String.length ext = 4%nat
    ∧ Names.lower ext = ".png"%string
    ∧ Names.splitext f
      = if Names.all_dots stem then (f, EmptyString) else (stem, ext).
Proof.
  unfold Names.is_png, Names.endswith. rewrite lower_length.
  change (String.length ".png") with 4%nat.
  intros [Hlen Hsuf]%andb_true_iff.
  apply Nat.leb_le in Hlen. apply String.eqb_eq in Hsuf.
  destruct (split_suffix f 4 Hlen) as (stem & ext & -> & Hl & _).
  rewrite lower_app, length_append, Hl in Hsuf.
  replace (String.length stem + 4 - 4)%nat with (String.length (Names.lower stem))
    in Hsuf by (rewrite lower_length; lia).
  rewrite substring_skip_app in Hsuf.
  assert (String.length (Names.lower ext) = 4%nat) as Hl' by by rewrite lower_length.
  rewrite <- Hl' in Hsuf at 1. rewrite substring_0_all in Hsuf.
  exists stem, ext. split; [done|]. split; [done|]. split; [done|].
  destruct ext as [|a [|b [|c [|d [|]]]]]; try done. simpl in Hsuf.
  injection Hsuf as Ha Hb Hc Hd. apply lower_ascii_dot in Ha as ->.
  unfold Names.splitext. rewrite rfind_app. simpl.
  rewrite (lower_ascii_not_dot b _ Hb), (lower_ascii_not_dot c _ Hc),
    (lower_ascii_not_dot d _ Hd) by done.
  simpl. rewrite Nat.add_0_r, substring_0_app.
  destruct (Names.all_dots stem); [done|]. f_equal.
  rewrite length_append. simpl.
  replace (String.length stem + 4 - String.length stem)%nat with 4%nat by lia.
  rewrite substring_skip_app. done.
Qed.

Lemma splitext_of_png_witness :
  ∃ stem ext,
    "000007.PNG"%string = stem +:+ ext
    ∧ String.length ext = 4%nat
    ∧ Names.lower ext = ".png"%string
    ∧ Names.splitext "000007.PNG"
      = if Names.all_dots stem then ("000007.PNG"%string, EmptyString)
        else (stem, ext).
Proof. apply splitext_of_png. reflexivity. Defined.

End StemFacts.

Import StemFacts.

(** ** What a run leaves alone *)

Module Frames.

Lemma same_outside_refl d fs : same_outside d fs fs.
Proof. by intros p _ _. Qed.

Lemma same_outside_trans d fs1 fs2 fs3 :
  same_outside d fs1 fs2 → same_outside d fs2 fs3 → same_outside d fs1 fs3.
Proof. intros H1 H2 p Hp Hp'. rewrite H2, H1; done. Qed.

(** What is outside a folder is outside everything below it. *)
Lemma outside_below (a d p : path) :
  a `prefix_of` d → ¬ a `prefix_of` p → ¬ p `prefix_of` a →
  ¬ d `prefix_of` p ∧ ¬ p `prefix_of` d.
Proof.
  intros Had H1 H2. split; intros H.
  - apply H1. by etrans.
  - destruct (prefix_weak_total _ _ _ H Had); done.
Qed.

Lemma same_outside_below a d fs fs' :
  a `prefix_of` d → same_outside d fs fs' → same_outside a fs fs'.
Proof.
  intros Had H p H1 H2. destruct (outside_below a d p Had H1 H2). by apply H.
Qed.

Lemma write_file_same_outside q c fs fs' :
  write_file q c fs = Some fs' → same_outside q fs fs'.
Proof. intros Hw p H1 H2. by eapply lookup_write_file_other. Qed.

Lemma makedirs_same_outside d fs fs' :
  makedirs d fs = Some fs' → same_outside d fs fs'.
Proof. intros Hm p _ H2. by eapply makedirs_lookup_other. Qed.

Lemma shutil_copy2_same_outside src dst fs r fs' :
  shutil_copy2 src dst fs = (r, fs') → same_outside dst fs fs'.
Proof.
  unfold shutil_copy2, update. case_decide; [intros [= _ <-]; apply same_outside_refl|].
  destruct (lookup_path fs src) as [[c|?]|];
    [|intros [= _ <-]; apply same_outside_refl..].
  destruct (write_file _ c fs) as [fs1|] eqn:Hw; intros [= _ <-];
    [|apply same_outside_refl].
  apply write_file_same_outside in Hw.
  destruct (isdir fs dst); [|done].
  eapply same_outside_below; [|exact Hw]. by apply prefix_app_r.
Qed.

Lemma copy_loop_with_same_outside sname dname src dst indices c fs r fs' :
  copy_loop_with sname dname src dst indices c fs = (r, fs') →
  same_outside dst fs fs'.
Proof.
  revert c fs. induction indices as [|i rest IH]; intros c fs; simpl.
  - intros [= _ <-]. apply same_outside_refl.
  - unfold bind at 1, os_path_exists, gets. destruct (exists_ fs _); [|apply IH].
    unfold bind at 1.
    destruct (shutil_copy2 _ _ fs) as [[[]|e] fs1] eqn:Hc;
      apply shutil_copy2_same_outside in Hc;
      apply (same_outside_below dst) in Hc; try by apply prefix_app_r.
    + intros H. eapply same_outside_trans; [exact Hc|]. by eapply IH.
    + by intros [= _ <-].
Qed.

Lemma copy_step_same_outside sname dname src dst s e fs :
  same_outside dst fs
    (snd (bind (os_makedirs dst)
            (λ _, copy_loop_with sname dname src dst (range s e) 0) fs)).
Proof.
  py_unfold.
  destruct (makedirs dst fs) as [fs1|] eqn:Hmk; [|apply same_outside_refl].
  apply makedirs_same_outside in Hmk.
  eapply same_outside_trans; [exact Hmk|].
  eapply copy_loop_with_same_outside. apply surjective_pairing.
Qed.

Lemma copy_images_same_outside src dst image_range fs :
  same_outside dst fs (snd (copy_images_to_directory src dst image_range fs)).
Proof.
  destruct image_range as [s e].
  pose proof (copy_step_same_outside plain_name plain_name src dst s e fs) as H.
  unfold copy_images_to_directory, bind in *.
  destruct (os_makedirs dst fs) as [[[]|?] fs1]; [|done].
  by rewrite Distributor.copy_images_loop_eq.
Qed.

Lemma copy_and_rename_same_outside src dst image_range fs :
  same_outside dst fs (snd (copy_and_rename_mask_images src dst image_range fs)).
Proof.
  destruct image_range as [s e].
  pose proof (copy_step_same_outside mask_name plain_name src dst s e fs) as H.
  unfold copy_and_rename_mask_images, bind in *.
  destruct (os_makedirs dst fs) as [[[]|?] fs1]; [|done].
  by rewrite Distributor.copy_and_rename_loop_eq.
Qed.

Lemma copy_mask_same_outside src dst image_range fs :
  same_outside dst fs (snd (copy_mask_images_to_directory src dst image_range fs)).
Proof.
  destruct image_range as [s e].
  pose proof (copy_step_same_outside mask_name mask_name src dst s e fs) as H.
  unfold copy_mask_images_to_directory, bind in *.
  destruct (os_makedirs dst fs) as [[[]|?] fs1]; [|done].
  by rewrite Distributor.copy_mask_loop_eq.
Qed.

(** X4. None of the three copy functions ever changes anything outside the
    destination folder, whether it returns or raises: a source folder that
    lies outside the destination is left as it was. *)
Theorem copy_functions_confined src dst image_range fs :
  same_outside dst fs (snd (copy_images_to_directory src dst image_range fs))
  ∧ same_outside dst fs (snd (copy_and_rename_mask_images src dst image_range fs))
  ∧ same_outside dst fs (snd (copy_mask_images_to_directory src dst image_range fs)).
Proof.
  split; [apply copy_images_same_outside|].
  split; [apply copy_and_rename_same_outside|apply copy_mask_same_outside].
Qed.

Section Compositor.

Variable luma : Z → Z → Z → Z.
Variable interp : matrix Z → nat → nat → nat → nat → Z.

Lemma combine_one_same_outside rgb_folder mask_folder output_folder f fs :
  same_outside output_folder fs
    (snd (combine_one luma interp rgb_folder mask_folder output_folder f fs)).
Proof.
  destruct (Compositor.combine_one_cases luma interp rgb_folder mask_folder
              output_folder f fs) as [->|(rgba & fs' & -> & Hw)];
    [apply same_outside_refl|].
  apply write_file_same_outside in Hw.
  eapply same_outside_below; [|exact Hw]. by apply prefix_app_r.
Qed.

Lemma combine_loop_same_outside rgb_folder mask_folder output_folder files c fs :
  same_outside output_folder fs
    (snd (combine_loop luma interp rgb_folder mask_folder output_folder files c fs)).
Proof.
  revert c fs. induction files as [|f files IH]; intros c fs; simpl.
  - apply same_outside_refl.
  - unfold bind at 1.
    pose proof (combine_one_same_outside rgb_folder mask_folder output_folder f fs) as H1.
    destruct (combine_one _ _ _ _ _ f fs) as [[b|e] fs1]; simpl in H1; [|done].
    eapply same_outside_trans; [exact H1|apply IH].
Qed.

Lemma combine_rgb_mask_same_outside rgb_folder mask_folder output_folder fs :
  same_outside output_folder fs
    (snd (combine_rgb_mask luma interp rgb_folder mask_folder output_folder fs)).
Proof.
  rewrite Compositor.combine_rgb_mask_spec.
  destruct (negb _); [apply same_outside_refl|].
  destruct (makedirs output_folder fs) as [fs1|] eqn:Hmk; [|apply same_outside_refl].
  apply makedirs_same_outside in Hmk.
  destruct (listdir fs1 rgb_folder) as [names|]; [|done].
  pose proof (combine_loop_same_outside rgb_folder mask_folder output_folder
                (png_files names) 0 fs1) as Hl.
  destruct (combine_loop _ _ _ _ _ _ _ fs1) as [[n|e] fs2]; simpl in *;
    by eapply same_outside_trans.
Qed.

(** X5. combine_rgb_mask never changes anything outside the output folder,
    whether it reports success, reports failure or raises: colour and mask
    folders that lie outside the output folder are left as they were. *)
Theorem combine_rgb_mask_confined rgb_folder mask_folder output_folder fs :
  same_outside output_folder fs
    (snd (combine_rgb_mask luma interp rgb_folder mask_folder output_folder fs)).
Proof. apply combine_rgb_mask_same_outside. Qed.

End Compositor.

End Frames.

Import Frames.

(** ** The suppressor, run as a whole *)

Module SuppressorRun.

(** Replacing a regular file changes the file and the directories above
    it, nothing else. *)
Lemma write_file_over_file q c c0 fs fs' p :
  lookup_path fs q = Some (File c0) → write_file q c fs = Some fs' →
  ¬ p `prefix_of` q → lookup_path fs' p = lookup_path fs p.
Proof.
  intros Hq Hw Hp. destruct (decide (q `prefix_of` p)) as [[k ->]|Hqp].
  - rewrite !lookup_path_app, Hq, (lookup_write_file_eq _ _ _ _ Hw). simpl.
    rewrite !lookup_path_file. destruct k; [|done].
    destruct Hp. by rewrite app_nil_r.
  - by eapply lookup_write_file_other.
Qed.

Lemma join_inj (d : path) f g : os_path_join d f = os_path_join d g → f = g.
Proof. unfold os_path_join. intros H. by apply app_inj_tail in H as [_ ?]. Qed.

Lemma join_not_prefix (d : path) f : ¬ os_path_join d f `prefix_of` d.
Proof. apply prefix_snoc_not. Qed.

Lemma prefix_join_inv (p d : path) f :
  p `prefix_of` os_path_join d f → p `prefix_of` d ∨ p = os_path_join d f.
Proof. apply Distributor.prefix_snoc_inv. Qed.

(** One iteration, by what it does to the tree. *)
Lemma postprocess_one_effect folder f fs :
  ∃ fs',
    postprocess_one folder f fs = (Ok (is_rgba fs (os_path_join folder f)), fs')
    ∧ (∀ m, lookup_path fs (os_path_join folder f) = Some (File (Png (RGBA m))) →
            lookup_path fs' (os_path_join folder f)
            = Some (File (Png (RGBA (pmap suppress_px m)))))
    ∧ (∀ p, ¬ p `prefix_of` folder →
            (is_rgba fs (os_path_join folder f) = true → p ≠ os_path_join folder f) →
            lookup_path fs' p = lookup_path fs p)
    ∧ (∀ g, is_rgba fs' (os_path_join folder g) = is_rgba fs (os_path_join folder g))
    ∧ (∀ d, listdir fs' d = listdir fs d).
Proof.
  destruct (Suppressor.postprocess_one_spec folder f fs)
    as (fs' & Hr & Hrgba & Hls & _ & _ & _).
  exists fs'. split; [done|]. split; [|split; [|done]].
  - intros m Hm.
    destruct (Suppressor.postprocess_one_rgba folder f fs m Hm) as (fs1 & Hw & Hr1).
    rewrite Hr1 in Hr. injection Hr as _ <-. by eapply lookup_write_file_eq.
  - intros p Hp Hne. unfold is_rgba in Hr, Hne.
    destruct (lookup_path fs (os_path_join folder f)) as [[[[m|m|m]|]|?]|] eqn:E;
      try (rewrite Suppressor.postprocess_one_other in Hr by (by rewrite E);
           by injection Hr as <-).
    destruct (Suppressor.postprocess_one_rgba folder f fs m E) as (fs1 & Hw & Hr1).
    rewrite Hr1 in Hr. injection Hr as <-.
    eapply write_file_over_file; [exact E|exact Hw|].
    intros H. apply prefix_join_inv in H as [H|H]; [done|]. by apply Hne.
Qed.

Lemma postprocess_loop_effect folder files c fs :
  ∃ n fs',
    postprocess_loop folder files c fs = (Ok n, fs')
    ∧ (∀ f m, f ∈ files →
         lookup_path fs (os_path_join folder f) = Some (File (Png (RGBA m))) →
         lookup_path fs' (os_path_join folder f)
         = Some (File (Png (RGBA (pmap suppress_px m)))))
    ∧ (∀ p, ¬ p `prefix_of` folder →
         (∀ f, f ∈ files → is_rgba fs (os_path_join folder f) = true →
               p ≠ os_path_join folder f) →
         lookup_path fs' p = lookup_path fs p)
    ∧ (∀ d, listdir fs' d = listdir fs d).
Proof.
  revert c fs. induction files as [|f0 rest IH]; intros c fs.
  - exists c, fs. simpl. split; [done|]. split; [|done].
    intros f m Hf. by apply elem_of_nil in Hf.
  - destruct (postprocess_one_effect folder f0 fs)
      as (fs1 & Hr & Hdone & Hout & Hrgba & Hls).
    destruct (IH (if is_rgba fs (os_path_join folder f0) then S c else c) fs1)
      as (n & fs' & Hloop & Hall & Hframe & Hls').
    exists n, fs'. split; [simpl; unfold bind at 1; by rewrite Hr|].
    split; [|split].
    + intros f m Hf Hm. destruct (decide (f ∈ rest)) as [Hin|Hnin].
      * destruct (decide (f = f0)) as [->|Hne].
        -- rewrite (Hall f0 (pmap suppress_px m) Hin (Hdone m Hm)).
           by rewrite Suppressor.suppress_px_pmap_idem.
        -- apply Hall; [done|]. rewrite Hout; [done|apply join_not_prefix|].
           intros _ Heq. by apply join_inj in Heq.
      * apply elem_of_cons in Hf as [->|?]; [|done].
        rewrite Hframe; [by apply Hdone|apply join_not_prefix|].
        intros g Hg _ Heq. apply join_inj in Heq. by subst.
    + intros p Hp Hne. rewrite Hframe; [apply Hout; [done|]|done|].
      * intros Hf0. apply Hne; [by left|done].
      * intros g Hg Hgr. apply Hne; [by right|]. by rewrite <- Hrgba.
    + intros d. by rewrite Hls', Hls.
Qed.

Lemma postprocess_effect folder fs :
  (∀ f m, f ∈ eligible fs folder →
     lookup_path fs (os_path_join folder f) = Some (File (Png (RGBA m))) →
     lookup_path (snd (postprocess_segmented_images folder fs))
       (os_path_join folder f)
     = Some (File (Png (RGBA (pmap suppress_px m)))))
  ∧ (∀ p, ¬ p `prefix_of` folder →
       (∀ f, f ∈ eligible fs folder → is_rgba fs (os_path_join folder f) = true →
             p ≠ os_path_join folder f) →
       lookup_path (snd (postprocess_segmented_images folder fs)) p
       = lookup_path fs p)
  ∧ (∀ d, listdir (snd (postprocess_segmented_images folder fs)) d = listdir fs d).
Proof.
  unfold eligible, postprocess_segmented_images. py_unfold.
  destruct (exists_ fs folder) eqn:Ex; simpl;
    [|split; [|done]; intros f m Hf; destruct (listdir fs folder) eqn:E;
      [by rewrite (Suppressor.listdir_isdir _ _ _ E) in Ex|by apply elem_of_nil in Hf]].
  destruct (listdir fs folder) as [names|] eqn:E; simpl;
    [|split; [|done]; intros f m Hf; by apply elem_of_nil in Hf].
  destruct (postprocess_loop_effect folder (png_files names) 0 fs)
    as (n & fs' & Hloop & Hall & Hframe & Hls).
  destruct (png_files names) as [|f0 files] eqn:Ef.
  - simpl. split; [|done]. intros f m Hf. by apply elem_of_nil in Hf.
  - rewrite Hloop. simpl. done.
Qed.

Lemma postprocess_same_outside folder fs :
  same_outside folder fs (snd (postprocess_segmented_images folder fs)).
Proof.
  intros p H1 H2. apply postprocess_effect; [done|].
  intros f _ _ ->. apply H1. by apply prefix_app_r.
Qed.

(** X6. postprocess_segmented_images replaces every PNG-named four-channel
    file of the folder by its suppressed image, and changes nothing else:
    every other file of the folder, every path outside it and every
    directory listing is as before. This holds whatever the function
    returns. *)
Theorem postprocess_rewrites_rgba_only folder fs :
  (∀ f m, f ∈ eligible fs folder →
     lookup_path fs (os_path_join folder f) = Some (File (Png (RGBA m))) →
     lookup_path (snd (postprocess_segmented_images folder fs))
       (os_path_join folder f)
     = Some (File (Png (RGBA (pmap suppress_px m)))))
  ∧ (∀ p, ¬ p `prefix_of` folder →
       (∀ f, f ∈ eligible fs folder → is_rgba fs (os_path_join folder f) = true →
             p ≠ os_path_join folder f) →
       lookup_path (snd (postprocess_segmented_images folder fs)) p
       = lookup_path fs p)
  ∧ (∀ d, listdir (snd (postprocess_segmented_images folder fs)) d = listdir fs d).
Proof. apply postprocess_effect. Qed.

(** X7. postprocess_segmented_images raises exactly when its argument names
    a regular file (the listing fails); the tree is then untouched. On a
    missing path or a directory it returns. *)
Theorem postprocess_raises_iff folder fs :
  ((∃ e, fst (postprocess_segmented_images folder fs) = Raised e)
   ↔ exists_ fs folder = true ∧ isdir fs folder = false)
  ∧ (∀ e, fst (postprocess_segmented_images folder fs) = Raised e →
          e = NotADirectoryError
          ∧ snd (postprocess_segmented_images folder fs) = fs).
Proof.
  pose proof (Suppressor.postprocess_segmented_images_spec folder fs) as H.
  assert (isdir fs folder = true ↔ is_Some (listdir fs folder)) as Hd.
  { unfold isdir, listdir. destruct (lookup_path fs folder) as [[?|?]|];
      split; try done; by intros [? ?]. }
  destruct (listdir fs folder) as [names|] eqn:E.
  - destruct H as (fs' & -> & _). simpl. split.
    + split; [by intros [e ?]|]. intros [_ Hf].
      rewrite (proj2 Hd) in Hf; [done|by eexists].
    + by intros e.
  - rewrite H. destruct (exists_ fs folder) eqn:Ex; simpl.
    + split; [|by intros e [= <-]]. split; [|by eexists].
      intros _. split; [done|]. destruct (isdir fs folder); [|done].
      by destruct (proj1 Hd eq_refl).
    + split; [|by intros e]. split; [by intros [e ?]|by intros [? _]].
Qed.

End SuppressorRun.

Import SuppressorRun.

(** ** The compositor, run as a whole *)

Module CompositorRun.

Lemma read_file_lookup fs p c :
  lookup_path fs p = Some (File c) → read_file fs p = Some c.
Proof. unfold read_file. by intros ->. Qed.

Lemma read_file_isdir fs p : isdir fs p = true → read_file fs p = None.
Proof. unfold isdir, read_file. by destruct (lookup_path fs p) as [[?|?]|]. Qed.

Lemma write_file_not_isdir q c fs fs' :
  write_file q c fs = Some fs' → isdir fs q = false.
Proof.
  intros Hw. rewrite <- (write_file_isdir _ _ _ _ q Hw).
  unfold isdir. by rewrite (lookup_write_file_eq _ _ _ _ Hw).
Qed.

(** Writing a file changes the content of no other regular file. *)
Lemma write_file_read_file q c fs fs' p :
  write_file q c fs = Some fs' → p ≠ q → read_file fs' p = read_file fs p.
Proof.
  intros Hw Hne.
  destruct (decide (q `prefix_of` p)) as [[k ->]|Hqp].
  - pose proof (write_file_not_isdir _ _ _ _ Hw) as Hd.
    unfold read_file, isdir in *. rewrite !lookup_path_app.
    rewrite (lookup_write_file_eq _ _ _ _ Hw). simpl.
    destruct k as [|k0 k]; [by rewrite app_nil_r in Hne|].
    destruct (lookup_path fs q) as [[?|?]|]; simpl; done.
  - destruct (decide (p `prefix_of` q)) as [[k ->]|Hpq].
    + pose proof (lookup_write_file_eq _ _ _ _ Hw) as He.
      rewrite lookup_path_app in He.
      assert (isdir fs' p = true) as Hd.
      { unfold isdir. destruct (lookup_path fs' p) as [[?|?]|]; simpl in He; try done.
        rewrite lookup_path_file in He. destruct k; [|done].
        by rewrite app_nil_r in Hne. }
      rewrite (read_file_isdir _ _ Hd).
      rewrite (write_file_isdir _ _ _ _ p Hw) in Hd.
      by rewrite (read_file_isdir _ _ Hd).
    + unfold read_file. by rewrite (lookup_write_file_other _ _ _ _ _ Hw).
Qed.

(** Creating directories changes the content of no regular file. *)
Lemma makedirs_read_file d fs fs' p :
  makedirs d fs = Some fs' → read_file fs' p = read_file fs p.
Proof.
  intros Hm. destruct (decide (p `prefix_of` d)) as [Hp|Hp].
  - pose proof (makedirs_isdir_prefix _ _ _ _ Hm Hp) as Hd.
    rewrite (read_file_isdir _ _ Hd).
    unfold read_file. destruct (lookup_path fs p) as [[c|?]|] eqn:E; try done.
    apply (makedirs_lookup_file _ _ _ _ _ Hm) in E.
    unfold isdir in Hd. by rewrite E in Hd.
  - unfold read_file. by rewrite (makedirs_lookup_other _ _ _ _ Hm).
Qed.

Lemma write_file_isdir_None q c fs :
  isdir fs q = true → write_file q c fs = None.
Proof.
  intros Hd. destruct (write_file q c fs) as [fs'|] eqn:Hw; [|done].
  apply write_file_not_isdir in Hw. congruence.
Qed.

Section Loop.

Variable luma : Z → Z → Z → Z.
Variable interp : matrix Z → nat → nat → nat → nat → Z.

Local Opaque shape2.

(** One iteration of the loop, through [composite_of]. *)
Lemma combine_one_by_composite rgb_folder mask_folder output_folder rgb_file fs :
  combine_one luma interp rgb_folder mask_folder output_folder rgb_file fs
  = match composite_of luma interp fs rgb_folder mask_folder rgb_file with
    | Some rgba =>
        match write_file (os_path_join output_folder (composite_name rgb_file))
                (Png (RGBA rgba)) fs with
        | Some fs' => (Ok true, fs')
        | None => (Ok false, fs)
        end
    | None => (Ok false, fs)
    end.
Proof.
  unfold combine_one, combine_try, composite_of, composite_name.
  py_unfold. unfold read_file, exists_.
  destruct (lookup_path fs (os_path_join mask_folder _)) as [mask_node|] eqn:Em;
    simpl;
    [|by destruct (lookup_path fs (os_path_join rgb_folder rgb_file)) as [[?|?]|]].
  destruct (lookup_path fs (os_path_join rgb_folder rgb_file)) as [[c|?]|]; simpl;
    [|by destruct mask_node..].
  destruct (decode_color c) as [bgr|]; simpl; [|by destruct mask_node].
  rewrite Em. destruct mask_node as [cm|?]; [|done].
  destruct (decode_grayscale luma cm) as [mask|]; simpl; [|done].
  destruct (decide _); [|simpl; by destruct (write_file _ _ fs)].
  unfold cv2_resize. destruct (shape2 (cvtColor_BGR2RGB bgr)) as [h w]. simpl.
  destruct (_ || _); simpl; [done|]. by destruct (write_file _ _ fs).
Qed.

Context (rgb_folder mask_folder output_folder : path).
Hypothesis Hrgb : rgb_folder ≠ output_folder.
Hypothesis Hmask : mask_folder ≠ output_folder.

Lemma join_ne (d d' : path) (f g : string) :
  d ≠ d' → os_path_join d f ≠ os_path_join d' g.
Proof. unfold os_path_join. intros Hd H. by apply app_inj_tail in H as [? _]. Qed.

Lemma composite_of_kept fs fs' :
  (∀ p, (∀ name, p ≠ os_path_join output_folder name) →
        read_file fs' p = read_file fs p) →
  ∀ f, composite_of luma interp fs' rgb_folder mask_folder f
       = composite_of luma interp fs rgb_folder mask_folder f.
Proof.
  intros H f. unfold composite_of.
  rewrite !H; [done|intros name; by apply join_ne..].
Qed.

Lemma composable_kept fs fs' :
  (∀ p, (∀ name, p ≠ os_path_join output_folder name) →
        read_file fs' p = read_file fs p) →
  (∀ name, isdir fs' (os_path_join output_folder name)
           = isdir fs (os_path_join output_folder name)) →
  ∀ f, composable luma interp fs' rgb_folder mask_folder output_folder f
       = composable luma interp fs rgb_folder mask_folder output_folder f.
Proof.
  intros H Hd f. unfold composable. by rewrite (composite_of_kept _ _ H), Hd.
Qed.

Lemma combine_loop_output files c fs :
  isdir fs output_folder = true →
  ∃ fs',
    combine_loop luma interp rgb_folder mask_folder output_folder files c fs
    = (Ok (c + length (filter (λ f, Is_true (composable luma interp fs rgb_folder
                                               mask_folder output_folder f)) files)),
       fs')
    ∧ ∀ name,
        lookup_path fs' (os_path_join output_folder name)
        = match last (filter (λ f, composite_name f = name)
                        (filter (λ f, Is_true (composable luma interp fs rgb_folder
                                                 mask_folder output_folder f)) files)) with
          | Some f => composite_file luma interp fs rgb_folder mask_folder f
          | None => lookup_path fs (os_path_join output_folder name)
          end.
Proof.
  revert c fs. induction files as [|f0 rest IH]; intros c fs Hout.
  - exists fs. simpl. by rewrite Nat.add_0_r.
  - simpl. unfold bind at 1. rewrite combine_one_by_composite.
    destruct (composable luma interp fs rgb_folder mask_folder output_folder f0)
      eqn:Hc.
    + rewrite filter_cons_True by by rewrite Hc.
      unfold composable in Hc.
      destruct (composite_of _ _ fs _ _ f0) as [rgba|] eqn:Hco; [|done].
      apply negb_true_iff in Hc.
      destruct (write_file_succeeds output_folder (composite_name f0)
                  (Png (RGBA rgba)) fs Hout Hc) as [fs1 Hw].
      unfold os_path_join at 1. rewrite Hw.
      assert (∀ p, (∀ name, p ≠ os_path_join output_folder name) →
                   read_file fs1 p = read_file fs p) as Hkeep.
      { intros p Hp. eapply write_file_read_file; [exact Hw|apply Hp]. }
      pose proof (λ p, write_file_isdir _ _ _ _ p Hw) as Hdir.
      destruct (IH (S c) fs1) as (fs' & Hloop & Hlook); [by rewrite Hdir|].
      exists fs'. split.
      * rewrite Hloop. f_equal. f_equal. simpl.
        rewrite (list_filter_iff _
                   (λ f, Is_true (composable luma interp fs rgb_folder mask_folder
                                    output_folder f))); [lia|].
        intros f. by rewrite (composable_kept _ _ Hkeep (λ n, Hdir _)).
      * intros name. rewrite Hlook.
        rewrite (list_filter_iff
                   (λ f, Is_true (composable luma interp fs1 rgb_folder mask_folder
                                    output_folder f))
                   (λ f, Is_true (composable luma interp fs rgb_folder mask_folder
                                    output_folder f)))
          by (intros f; by rewrite (composable_kept _ _ Hkeep (λ n, Hdir _))).
        destruct (decide (composite_name f0 = name)) as [<-|Hne].
        -- rewrite filter_cons_True by done. rewrite last_cons.
           destruct (last _) as [f|].
           ++ unfold composite_file. by rewrite (composite_of_kept _ _ Hkeep).
           ++ unfold composite_file. rewrite Hco. simpl.
              by eapply lookup_write_file_eq.
        -- rewrite filter_cons_False by done.
           destruct (last _) as [f|].
           ++ unfold composite_file. by rewrite (composite_of_kept _ _ Hkeep).
           ++ by eapply lookup_write_file_sibling.
    + rewrite filter_cons_False by (rewrite Hc; by intros []).
      assert (match composite_of luma interp fs rgb_folder mask_folder f0 with
              | Some rgba =>
                  match write_file (os_path_join output_folder (composite_name f0))
                          (Png (RGBA rgba)) fs with
                  | Some fs' => (Ok true, fs')
                  | None => (Ok false, fs)
                  end
              | None => (Ok false, fs)
              end = (Ok false, fs)) as ->.
      { unfold composable in Hc.
        destruct (composite_of _ _ fs _ _ f0) as [rgba|]; [|done].
        apply negb_false_iff in Hc. by rewrite write_file_isdir_None. }
      destruct (IH c fs Hout) as (fs' & Hloop & Hlook). by exists fs'.
Qed.

End Loop.

Section Run.

Variable luma : Z → Z → Z → Z.
Variable interp : matrix Z → nat → nat → nat → nat → Z.

Lemma combine_rgb_mask_closed_form rgb_folder mask_folder output_folder fs :
  ¬ rgb_folder `prefix_of` output_folder → mask_folder ≠ output_folder →
  isdir fs rgb_folder = true → exists_ fs mask_folder = true →
  is_Some (makedirs output_folder fs) →
  ∃ fs',
    combine_rgb_mask luma interp rgb_folder mask_folder output_folder fs
    = (Ok (0 <? length (processed luma interp fs rgb_folder mask_folder
                          output_folder))%nat, fs')
    ∧ ∀ name,
        lookup_path fs' (os_path_join output_folder name)
        = match last_saved_as luma interp fs rgb_folder mask_folder
                  output_folder name with
          | Some f => composite_file luma interp fs rgb_folder mask_folder f
          | None => lookup_path fs (os_path_join output_folder name)
          end.
Proof.
  intros Hrgb Hmask Hdir Hex [fs1 Hmk].
  assert (rgb_folder ≠ output_folder) as Hne by (by intros ->).
  rewrite Compositor.combine_rgb_mask_spec, (isdir_exists _ _ Hdir), Hex, Hmk. simpl.
  unfold processed, last_saved_as, processed, eligible, listdir.
  rewrite (makedirs_lookup_other _ _ _ _ Hmk Hrgb).
  unfold isdir in Hdir.
  destruct (lookup_path fs rgb_folder) as [[?|m]|]; try done.
  assert (∀ p, (∀ name, p ≠ os_path_join output_folder name) →
               read_file fs1 p = read_file fs p) as Hkeep.
  { intros p _. by eapply makedirs_read_file. }
  assert (∀ name, lookup_path fs1 (os_path_join output_folder name)
                  = lookup_path fs (os_path_join output_folder name)) as Hsame.
  { intros name. eapply makedirs_lookup_other; [done|]. apply prefix_snoc_not. }
  assert (∀ name, isdir fs1 (os_path_join output_folder name)
                  = isdir fs (os_path_join output_folder name)) as Hd.
  { intros name. unfold isdir. by rewrite Hsame. }
  destruct (combine_loop_output luma interp rgb_folder mask_folder output_folder
              Hne Hmask (png_files (elements (dom m))) 0 fs1)
    as (fs' & -> & Hlook); [by eapply makedirs_isdir|].
  exists fs'. simpl.
  rewrite (list_filter_iff
             (λ f, Is_true (composable luma interp fs1 rgb_folder mask_folder
                              output_folder f))
             (λ f, Is_true (composable luma interp fs rgb_folder mask_folder
                              output_folder f))) in *
    by (intros f; by rewrite (composable_kept luma interp _ _ _ Hne Hmask _ _ Hkeep Hd)).
  split; [done|]. intros name. rewrite Hlook.
  destruct (last _) as [f|]; [|apply Hsame]. unfold composite_file.
  by rewrite (composite_of_kept luma interp _ _ _ Hne Hmask _ _ Hkeep).
Qed.

(** X8. With the colour folder a directory that does not contain the
    output folder, and the mask folder not the output folder, once the
    output folder can be created combine_rgb_mask returns; it reports
    success exactly when it counted a colour file, and each name of the
    output folder then holds the composite of the last counted colour
    file saved under that name, or what it held before when there is
    none. The counted files are the PNG names of the colour folder whose
    colour file and mask decode and whose output name is no directory. *)
Theorem combine_rgb_mask_output rgb_folder mask_folder output_folder fs :
  ¬ rgb_folder `prefix_of` output_folder → mask_folder ≠ output_folder →
  isdir fs rgb_folder = true → exists_ fs mask_folder = true →
  is_Some (makedirs output_folder fs) →
  ∃ fs',
    combine_rgb_mask luma interp rgb_folder mask_folder output_folder fs
    = (Ok (0 <? length (processed luma interp fs rgb_folder mask_folder
                          output_folder))%nat, fs')
    ∧ ∀ name,
        lookup_path fs' (os_path_join output_folder name)
        = match last_saved_as luma interp fs rgb_folder mask_folder
                  output_folder name with
          | Some f => composite_file luma interp fs rgb_folder mask_folder f
          | None => lookup_path fs (os_path_join output_folder name)
          end.
Proof. apply combine_rgb_mask_closed_form. Qed.


Lemma combine_rgb_mask_frame rgb_folder mask_folder output_folder fs f :
  ¬ rgb_folder `prefix_of` output_folder → mask_folder ≠ output_folder →
  isdir fs rgb_folder = true → exists_ fs mask_folder = true →
  is_Some (makedirs output_folder fs) →
  f ∈ eligible fs rgb_folder →
  (∀ g, g ∈ eligible fs rgb_folder → composite_name g = composite_name f → g = f) →
  lookup_path
    (snd (combine_rgb_mask luma interp rgb_folder mask_folder output_folder fs))
    (os_path_join output_folder (composite_name f))
  = if composable luma interp fs rgb_folder mask_folder output_folder f
    then composite_file luma interp fs rgb_folder mask_folder f
    else lookup_path fs (os_path_join output_folder (composite_name f)).
Proof.
  intros Hrgb Hmask Hdir Hex Hmk Hf Huniq.
  destruct (combine_rgb_mask_closed_form rgb_folder mask_folder output_folder fs
              Hrgb Hmask Hdir Hex Hmk) as (fs' & -> & Hlook).
  simpl. rewrite Hlook. unfold last_saved_as, processed.
  rewrite list_filter_filter.
  destruct (last _) as [g|] eqn:El.
  - apply last_Some_elem_of, list_elem_of_filter in El as [[Hn Hc] Hg].
    apply Huniq in Hn as ->; [|done]. by destruct (composable _ _ _ _ _ _ f).
  - apply last_None in El.
    destruct (composable _ _ _ _ _ _ f) eqn:Hc; [|done].
    assert (f ∈ filter (λ x, composite_name x = composite_name f
                             ∧ Is_true (composable luma interp fs rgb_folder
                                          mask_folder output_folder x))
                  (eligible fs rgb_folder)) as Hin.
    { apply list_elem_of_filter. by rewrite Hc. }
    rewrite El in Hin. by apply elem_of_nil in Hin.
Qed.

(** X9. Under the same conditions, for a PNG name of the colour folder
    that shares its output name with no other: when its colour file and
    mask decode and the output name is no directory, the output holds its
    composite; otherwise (mask missing, undecodable input) the output name
    is left as it was, so a skipped frame never appears in the output. *)
Theorem combine_rgb_mask_per_frame rgb_folder mask_folder output_folder fs f :
  ¬ rgb_folder `prefix_of` output_folder → mask_folder ≠ output_folder →
  isdir fs rgb_folder = true → exists_ fs mask_folder = true →
  is_Some (makedirs output_folder fs) →
  f ∈ eligible fs rgb_folder →
  (∀ g, g ∈ eligible fs rgb_folder → composite_name g = composite_name f → g = f) →
  lookup_path
    (snd (combine_rgb_mask luma interp rgb_folder mask_folder output_folder fs))
    (os_path_join output_folder (composite_name f))
  = if composable luma interp fs rgb_folder mask_folder output_folder f
    then composite_file luma interp fs rgb_folder mask_folder f
    else lookup_path fs (os_path_join output_folder (composite_name f)).
Proof. apply combine_rgb_mask_frame. Qed.


(** X10. combine_rgb_mask raises exactly when both input paths exist and
    either the output folder cannot be created or the colour path is a
    regular file; in the first case the tree is untouched, in the second
    the output folder has been created and nothing else changed. *)
Theorem combine_rgb_mask_raises_iff rgb_folder mask_folder output_folder fs :
  ((∃ e, fst (combine_rgb_mask luma interp rgb_folder mask_folder output_folder fs)
         = Raised e)
   ↔ exists_ fs rgb_folder = true ∧ exists_ fs mask_folder = true
     ∧ (makedirs output_folder fs = None ∨ isdir fs rgb_folder = false))
  ∧ (∀ e, fst (combine_rgb_mask luma interp rgb_folder mask_folder output_folder fs)
          = Raised e →
          snd (combine_rgb_mask luma interp rgb_folder mask_folder output_folder fs)
          = default fs (makedirs output_folder fs)).
Proof.
  rewrite Compositor.combine_rgb_mask_spec.
  destruct (exists_ fs rgb_folder) eqn:Er; simpl;
    [|split; [split; [by intros [e ?]|by intros [? _]]|by intros e]].
  destruct (exists_ fs mask_folder) eqn:Em; simpl;
    [|split; [split; [by intros [e ?]|by intros (_ & ? & _)]|by intros e]].
  destruct (makedirs output_folder fs) as [fs1|] eqn:Hmk; simpl;
    [|split; [split; [by eauto|by eexists]|by intros e]].
  assert (isdir fs1 rgb_folder = isdir fs rgb_folder) as Hd.
  { unfold exists_ in Er. unfold isdir at 2.
    destruct (lookup_path fs rgb_folder) as [[c|m]|] eqn:E; [| |done].
    - unfold isdir. by rewrite (makedirs_lookup_file _ _ _ _ _ Hmk E).
    - eapply makedirs_isdir_mono; [done|]. unfold isdir. by rewrite E. }
  destruct (listdir fs1 rgb_folder) as [names|] eqn:El.
  - assert (isdir fs rgb_folder = true) as Hdir.
    { rewrite <- Hd. unfold isdir, listdir in *.
      by destruct (lookup_path fs1 rgb_folder) as [[?|?]|]. }
    destruct (Compositor.combine_loop_spec luma interp rgb_folder mask_folder
                output_folder (png_files names) 0 fs1) as (n & fs' & -> & _).
    simpl. split; [|by intros e].
    split; [by intros [e ?]|]. intros (_ & _ & [?|?]); congruence.
  - simpl. split; [|by intros e].
    split; [|by eexists]. intros _. do 2 (split; [done|]). right.
    rewrite <- Hd. destruct (isdir fs1 rgb_folder) eqn:E; [|done].
    destruct (Compositor.isdir_listdir _ _ E) as [? ?]. congruence.
Qed.

End Run.


Lemma combine_rgb_mask_output_witness :
  ∃ fs',
    combine_rgb_mask Demo.luma_bt601 Demo.interp_nearest
      ["obj"; "train_pbr"; "000000"; "rgb"] ["obj"; "train_pbr"; "000000"; "mask"]
      ["obj"; "train_pbr"; "000000"; "rgb_mask"] Demo.tree_two_frames
    = (Ok true, fs')
    ∧ lookup_path fs' ["obj"; "train_pbr"; "000000"; "rgb_mask"; "000001.png"]
      = Some (File (Png (RGBA [[(1, 2, 3, 77); (4, 5, 6, 77)];
                               [(7, 8, 9, 77); (10, 11, 12, 77)]])))%Z.
Proof.
  destruct (combine_rgb_mask_output Demo.luma_bt601 Demo.interp_nearest
              ["obj"; "train_pbr"; "000000"; "rgb"]
              ["obj"; "train_pbr"; "000000"; "mask"]
              ["obj"; "train_pbr"; "000000"; "rgb_mask"] Demo.tree_two_frames)
    as (fs' & Hrun & Hlook).
  - intros [k Hk]. discriminate.
  - discriminate.
  - reflexivity.
  - reflexivity.
  - vm_compute. eexists. reflexivity.
  - exists fs'. split.
    + rewrite Hrun. vm_compute. reflexivity.
    + change (lookup_path fs'
                (os_path_join ["obj"; "train_pbr"; "000000"; "rgb_mask"] "000001.png")
              = Some (File (Png (RGBA [[(1, 2, 3, 77); (4, 5, 6, 77)];
                                       [(7, 8, 9, 77); (10, 11, 12, 77)]])))%Z).
      rewrite Hlook. vm_compute. reflexivity.
Defined.

Lemma combine_rgb_mask_per_frame_witness :
  lookup_path
    (snd (combine_rgb_mask Demo.luma_bt601 Demo.interp_nearest ["rgb"] ["mask"]
            ["out"] Demo.tree_no_mask))
    ["out"; "000000.png"]
  = None.
Proof.
  change ["out"; "000000.png"]
    with (os_path_join ["out"] (composite_name "000000.png")).
  rewrite (combine_rgb_mask_per_frame Demo.luma_bt601 Demo.interp_nearest
             ["rgb"] ["mask"] ["out"] Demo.tree_no_mask "000000.png").
  - vm_compute. reflexivity.
  - intros [k Hk]. discriminate.
  - discriminate.
  - reflexivity.
  - reflexivity.
  - vm_compute. eexists. reflexivity.
  - vm_compute. apply list_elem_of_In. left. reflexivity.
  - intros g Hg _. vm_compute in Hg. apply list_elem_of_In in Hg.
    destruct Hg as [<-|[]]. reflexivity.
Defined.

End CompositorRun.

Import CompositorRun.

(** ** The orchestration and the entry point *)

Module OrchestratorRun.

Lemma bind_same_outside {A B} d (m : Py A) (k : A → Py B) fs :
  same_outside d fs (snd (m fs)) →
  (∀ a fs1, same_outside d fs1 (snd (k a fs1))) →
  same_outside d fs (snd (bind m k fs)).
Proof.
  intros Hm Hk. unfold bind. destruct (m fs) as [[a|e] fs1]; simpl in *; [|done].
  eapply same_outside_trans; [exact Hm|apply Hk].
Qed.

(** Steps 2 to 6 write below [train_pbr/vggt] only. *)
Lemma distribute_and_suppress_same_outside obj_path fs :
  same_outside (obj_path ++ ["train_pbr"; "vggt"]) fs
    (snd (distribute_and_suppress obj_path fs)).
Proof.
  unfold distribute_and_suppress.
  do 5 (apply bind_same_outside;
        [eapply same_outside_below;
         [|first [apply copy_and_rename_same_outside
                 |apply copy_images_same_outside
                 |apply postprocess_same_outside]];
         by apply prefix_app_r
        |clear fs; intros _ fs]).
  apply same_outside_refl.
Qed.

Section Runs.

Variable luma : Z → Z → Z → Z.
Variable interp : matrix Z → nat → nat → nat → nat → Z.

(** The orchestration is the compositor followed, on a reported success,
    by steps 2 to 6. *)
Lemma process_object_directory_steps obj_path fs :
  process_object_directory luma interp obj_path fs
  = match combine_rgb_mask luma interp
            (obj_path ++ ["train_pbr"; "000000"; "rgb"])
            (obj_path ++ ["train_pbr"; "000000"; "mask"])
            (obj_path ++ ["train_pbr"; "000000"; "rgb_mask"]) fs with
    | (Ok true, fs1) => distribute_and_suppress obj_path fs1
    | (Ok false, fs1) => (Ok false, fs1)
    | (Raised e, fs1) => (Raised e, fs1)
    end.
Proof.
  unfold process_object_directory, distribute_and_suppress, os_path_join.
  rewrite <- !app_assoc. simpl.
  unfold bind at 1, os_path_exists, gets.
  destruct (exists_ fs (obj_path ++ ["train_pbr"; "000000"])) eqn:Ex; simpl.
  - unfold bind at 1.
    by destruct (combine_rgb_mask _ _ _ _ _ fs) as [[[|]|e] fs1].
  - rewrite Compositor.combine_rgb_mask_spec.
    change (obj_path ++ ["train_pbr"; "000000"; "rgb"])
      with (obj_path ++ ["train_pbr"; "000000"] ++ ["rgb"]).
    by rewrite app_assoc, (exists_app_None _ _ ["rgb"] Ex).
Qed.

Lemma process_object_directory_outside obj_path fs p :
  apart (obj_path ++ ["train_pbr"; "000000"; "rgb_mask"]) p →
  apart (obj_path ++ ["train_pbr"; "vggt"]) p →
  lookup_path (snd (process_object_directory luma interp obj_path fs)) p
  = lookup_path fs p.
Proof.
  intros [H1 H1'] [H2 H2']. rewrite process_object_directory_steps.
  pose proof (combine_rgb_mask_same_outside luma interp
                (obj_path ++ ["train_pbr"; "000000"; "rgb"])
                (obj_path ++ ["train_pbr"; "000000"; "mask"])
                (obj_path ++ ["train_pbr"; "000000"; "rgb_mask"]) fs) as Hc.
  destruct (combine_rgb_mask _ _ _ _ _ fs) as [[[|]|e] fs1]; simpl in Hc;
    try by apply Hc.
  rewrite (distribute_and_suppress_same_outside obj_path fs1 p H2 H2').
  by apply Hc.
Qed.

(** X11. process_object_directory never modifies its inputs: whatever it
    returns or raises, everything at and below the colour folder and the
    mask folder is as before, and so is every path that is neither inside
    nor on the way to [train_pbr/000000/rgb_mask] and [train_pbr/vggt]. *)
Theorem process_object_directory_keeps_inputs obj_path fs :
  let fs' := snd (process_object_directory luma interp obj_path fs) in
  (∀ q, lookup_path fs' (obj_path ++ ["train_pbr"; "000000"; "rgb"] ++ q)
        = lookup_path fs (obj_path ++ ["train_pbr"; "000000"; "rgb"] ++ q))
  ∧ (∀ q, lookup_path fs' (obj_path ++ ["train_pbr"; "000000"; "mask"] ++ q)
          = lookup_path fs (obj_path ++ ["train_pbr"; "000000"; "mask"] ++ q))
  ∧ (∀ p, apart (obj_path ++ ["train_pbr"; "000000"; "rgb_mask"]) p →
          apart (obj_path ++ ["train_pbr"; "vggt"]) p →
          lookup_path fs' p = lookup_path fs p).
Proof.
  intros fs'. split; [|split].
  - intros q. apply process_object_directory_outside;
      split; intros H; Orchestrator.paths_part H.
  - intros q. apply process_object_directory_outside;
      split; intros H; Orchestrator.paths_part H.
  - apply process_object_directory_outside.
Qed.

(** X12. The two checks of main never change the outcome for the tree: the
    run leaves exactly the tree process_object_directory leaves, because a
    missing object path or a regular file in its place already makes
    process_object_directory return failure without touching anything.
    main raises only what process_object_directory raises. *)
Theorem main_runs_process_object_directory obj_path fs :
  snd (main luma interp obj_path fs)
  = snd (process_object_directory luma interp obj_path fs)
  ∧ fst (main luma interp obj_path fs)
    = match fst (process_object_directory luma interp obj_path fs) with
      | Ok _ => Ok tt
      | Raised e => Raised e
      end
  ∧ (isdir fs obj_path = false →
     process_object_directory luma interp obj_path fs = (Ok false, fs)).
Proof.
  assert (isdir fs obj_path = false →
          process_object_directory luma interp obj_path fs = (Ok false, fs)) as Hno.
  { intros Hd. unfold process_object_directory, os_path_join.
    unfold bind at 1, os_path_exists, gets.
    assert (exists_ fs ((obj_path ++ ["train_pbr"]) ++ ["000000"]) = false) as ->;
      [|done].
    rewrite <- app_assoc. unfold exists_, isdir in *. rewrite lookup_path_app.
    destruct (lookup_path fs obj_path) as [[c|m]|]; try done. }
  split; [|split; [|done]].
  - unfold main. py_unfold.
    destruct (exists_ fs obj_path) eqn:Ex; simpl.
    + destruct (isdir fs obj_path) eqn:Ed; simpl; [|by rewrite Hno].
      by destruct (process_object_directory _ _ _ fs) as [[[|]|e] fs1].
    + rewrite Hno; [done|]. unfold exists_, isdir in *.
      by destruct (lookup_path fs obj_path).
  - unfold main. py_unfold.
    destruct (exists_ fs obj_path) eqn:Ex; simpl.
    + destruct (isdir fs obj_path) eqn:Ed; simpl; [|by rewrite Hno].
      by destruct (process_object_directory _ _ _ fs) as [[[|]|e] fs1].
    + rewrite Hno; [done|]. unfold exists_, isdir in *.
      by destruct (lookup_path fs obj_path).
Qed.

End Runs.

(** X13. The files a folder is processed in do not depend on the order in
    which os.listdir returns the names: the list is the PNG names of the
    listing (extension compared without case), each as often as listed, in
    ascending order. *)
Theorem png_files_canonical :
  (∀ names names', names ≡ₚ names' → png_files names = png_files names')
  ∧ (∀ names, StronglySorted (λ a b, String.compare a b ≠ Gt) (png_files names))
  ∧ (∀ names,
       png_files names ≡ₚ filter (λ f, Is_true (Names.is_png f)) names)
  ∧ (∀ names f, f ∈ png_files names ↔ f ∈ names ∧ Names.is_png f = true).
Proof.
  split; [apply png_files_Permutation|].
  split; [|split; [|intros names f; apply elem_of_png_files]].
  - intros names.
    induction (png_files_sorted names) as [|x l _ IH Hall]; constructor; [done|].
    eapply Forall_impl; [exact Hall|]. intros b Hb. by apply str_le_alt.
  - intros names. unfold png_files, Names.sort. apply merge_sort_Permutation.
Qed.

End OrchestratorRun.

Import OrchestratorRun.

(** ** Names and ranges of the copy functions *)

Module FrameNames.

Lemma rfind_dot_uint d : Names.rfind "." (NilEmpty.string_of_uint d) = None.
Proof. induction d; simpl; by rewrite ?IHd. Qed.

Lemma lower_uint d :
  Names.lower (NilEmpty.string_of_uint d) = NilEmpty.string_of_uint d.
Proof. induction d; simpl; by rewrite ?IHd. Qed.

Lemma rfind_dot_fmt_06d i : Names.rfind "." (Names.fmt_06d i) = None.
Proof.
  unfold Names.fmt_06d. destruct (i <? 0)%Z; simpl; by rewrite rfind_dot_uint.
Qed.

Lemma lower_fmt_06d i : Names.lower (Names.fmt_06d i) = Names.fmt_06d i.
Proof.
  unfold Names.fmt_06d. destruct (i <? 0)%Z; simpl; by rewrite lower_uint.
Qed.

Lemma all_dots_rfind s :
  s ≠ EmptyString → Names.rfind "." s = None → Names.all_dots s = false.
Proof.
  destruct s as [|a s]; [done|]. intros _. simpl.
  destruct (Names.rfind "." s); [done|].
  by destruct (Ascii.eqb a ".").
Qed.

Lemma endswith_app s t : Names.endswith (s +:+ t) t = true.
Proof.
  unfold Names.endswith. rewrite length_append.
  apply andb_true_iff. split; [apply Nat.leb_le; lia|].
  replace (String.length s + String.length t - String.length t)%nat
    with (String.length s) by lia.
  rewrite substring_skip_app, substring_0_all. apply String.eqb_refl.
Qed.

(** A stem without a dot: the extension is split off where it was added. *)
Lemma splitext_stem_png s :
  s ≠ EmptyString → Names.rfind "." s = None →
  Names.splitext (s +:+ ".png") = (s, ".png"%string).
Proof.
  intros Hs Hr. unfold Names.splitext. rewrite rfind_app. simpl.
  rewrite Nat.add_0_r, substring_0_app, (all_dots_rfind s Hs Hr).
  f_equal. rewrite length_append. simpl.
  replace (String.length s + 4 - String.length s)%nat with 4%nat by lia.
  by rewrite substring_skip_app.
Qed.

Lemma fmt_06d_nonempty i : Names.fmt_06d i ≠ EmptyString.
Proof.
  intros H. apply (f_equal String.length) in H.
  pose proof (fmt_06d_min_length i). simpl in H. lia.
Qed.

Lemma frame_names (i : Z) :
  Names.is_png (plain_name i) = true
  ∧ Names.splitext (plain_name i) = (Names.fmt_06d i, ".png"%string)
  ∧ fst (Names.splitext (plain_name i)) +:+ "_000000.png" = mask_name i
  ∧ composite_name (plain_name i) = plain_name i.
Proof.
  assert (Names.splitext (plain_name i) = (Names.fmt_06d i, ".png"%string)) as Hs.
  { apply splitext_stem_png; [apply fmt_06d_nonempty|apply rfind_dot_fmt_06d]. }
  split; [|split; [done|split]].
  - unfold Names.is_png, plain_name. rewrite lower_app, lower_fmt_06d.
    apply endswith_app.
  - by rewrite Hs.
  - unfold composite_name. by rewrite Hs.
Qed.

(** X14. The compositor and the copy functions agree on names: for every
    index, the colour file the copy pattern names is one the compositor
    picks up, its stem is the six-digit index, its mask is looked up under
    the mask pattern, and its composite is saved under the very name the
    copy functions read. *)
Theorem frame_names_agree (i : Z) :
  Names.is_png (plain_name i) = true
  ∧ Names.splitext (plain_name i) = (Names.fmt_06d i, ".png"%string)
  ∧ fst (Names.splitext (plain_name i)) +:+ "_000000.png" = mask_name i
  ∧ composite_name (plain_name i) = plain_name i.
Proof. apply frame_names. Qed.


End FrameNames.

Import FrameNames.

Module DistributorRun.

Local Open Scope py_scope.

(** Creating a directory that is there changes nothing. *)
Lemma makedirs_id d fs : isdir fs d = true → makedirs d fs = Some fs.
Proof.
  revert fs. induction d as [|k d IH]; intros fs; unfold isdir; simpl.
  - by destruct fs.
  - destruct fs as [c|m]; [done|]. destruct (m !! k) as [child|] eqn:E; [|done].
    simpl. intros Hd. rewrite (IH child Hd). by rewrite insert_id.
Qed.

Section Loops.

Variables sname dname : Z → string.

Lemma copy_loop_with_app src dst l1 l2 c fs :
  copy_loop_with sname dname src dst (l1 ++ l2) c fs
  = match copy_loop_with sname dname src dst l1 c fs with
    | (Ok n, fs') => copy_loop_with sname dname src dst l2 n fs'
    | (Raised e, fs') => (Raised e, fs')
    end.
Proof.
  revert c fs. induction l1 as [|i l1 IH]; intros c fs; [done|].
  simpl. unfold bind, os_path_exists, gets.
  destruct (exists_ fs _); [|apply IH].
  destruct (shutil_copy2 _ _ fs) as [[[]|e] fs1]; [apply IH|done].
Qed.

Lemma copy_loop_with_acc src dst l c fs :
  copy_loop_with sname dname src dst l c fs
  = match copy_loop_with sname dname src dst l 0 fs with
    | (Ok n, fs') => (Ok (c + n)%nat, fs')
    | (Raised e, fs') => (Raised e, fs')
    end.
Proof.
  revert c fs. induction l as [|i l IH]; intros c fs; simpl.
  - unfold ret. by rewrite Nat.add_0_r.
  - unfold bind, os_path_exists, gets.
    destruct (exists_ fs _); [|apply IH].
    destruct (shutil_copy2 _ _ fs) as [[[]|e] fs1]; [|done].
    rewrite (IH (S c)), (IH 1%nat).
    destruct (copy_loop_with _ _ _ _ l 0 fs1) as [[n|e] fs2]; [|done].
    f_equal. f_equal. lia.
Qed.

Lemma copy_step_splits src dst s m e fs :
  (s ≤ m ≤ e)%Z →
  (n1 <- copy_step sname dname src dst s m ;;
   n2 <- copy_step sname dname src dst m e ;; ret (n1 + n2)%nat) fs
  = copy_step sname dname src dst s e fs.
Proof.
  intros Hm. unfold copy_step, range.
  replace (e - s)%Z with ((m - s) + (e - m))%Z by lia.
  rewrite seqZ_app by lia.
  replace (s + (m - s))%Z with m by lia.
  replace (m - s + (e - m) - (e - m))%Z with (m - s)%Z by lia.
  unfold bind, os_makedirs, update, ret.
  destruct (makedirs dst fs) as [fs1|] eqn:Hmk; [|done].
  rewrite copy_loop_with_app.
  destruct (copy_loop_with _ _ _ _ (seqZ s (m - s)) 0 fs1) as [[n1|e1] fs2] eqn:H1;
    [|done].
  assert (isdir fs2 dst = true) as Hd.
  { rewrite (Distributor.copy_loop_with_isdir _ _ _ _ _ _ _ _ _ dst H1).
    by eapply makedirs_isdir. }
  rewrite (makedirs_id _ _ Hd), (copy_loop_with_acc _ _ _ n1).
  by destruct (copy_loop_with _ _ _ _ (seqZ m (e - m)) 0 fs2) as [[n2|e2] fs3].
Qed.


Hypothesis dname_inj : ∀ i j, dname i = dname j → i = j.


End Loops.

Lemma copy_images_step src dst s e fs :
  copy_images_to_directory src dst (s, e) fs
  = copy_step plain_name plain_name src dst s e fs.
Proof.
  unfold copy_images_to_directory, copy_step, bind.
  destruct (os_makedirs dst fs) as [[[]|?] fs1]; [|done].
  apply Distributor.copy_images_loop_eq.
Qed.

Lemma copy_and_rename_step src dst s e fs :
  copy_and_rename_mask_images src dst (s, e) fs
  = copy_step mask_name plain_name src dst s e fs.
Proof.
  unfold copy_and_rename_mask_images, copy_step, bind.
  destruct (os_makedirs dst fs) as [[[]|?] fs1]; [|done].
  apply Distributor.copy_and_rename_loop_eq.
Qed.

Lemma copy_mask_step src dst s e fs :
  copy_mask_images_to_directory src dst (s, e) fs
  = copy_step mask_name mask_name src dst s e fs.
Proof.
  unfold copy_mask_images_to_directory, copy_step, bind.
  destruct (os_makedirs dst fs) as [[[]|?] fs1]; [|done].
  apply Distributor.copy_mask_loop_eq.
Qed.

(** X15. A range can be copied in two parts: copying [s, m) and then
    [m, e) gives the tree, the total count and, if a copy fails, the error
    of copying [s, e) in one call. This holds for each of the three copy
    functions. *)
Theorem copy_range_splits src dst s m e fs :
  (s ≤ m ≤ e)%Z →
  (n1 <- copy_images_to_directory src dst (s, m) ;;
   n2 <- copy_images_to_directory src dst (m, e) ;; ret (n1 + n2)%nat) fs
  = copy_images_to_directory src dst (s, e) fs
  ∧ (n1 <- copy_and_rename_mask_images src dst (s, m) ;;
     n2 <- copy_and_rename_mask_images src dst (m, e) ;; ret (n1 + n2)%nat) fs
    = copy_and_rename_mask_images src dst (s, e) fs
  ∧ (n1 <- copy_mask_images_to_directory src dst (s, m) ;;
     n2 <- copy_mask_images_to_directory src dst (m, e) ;; ret (n1 + n2)%nat) fs
    = copy_mask_images_to_directory src dst (s, e) fs.
Proof.
  intros Hm. split; [|split].
  - pose proof (copy_step_splits plain_name plain_name src dst s m e fs Hm) as H.
    unfold bind in *. rewrite !copy_images_step.
    destruct (copy_step _ _ _ _ s m fs) as [[n1|e1] fs1]; [|done].
    by rewrite copy_images_step.
  - pose proof (copy_step_splits mask_name plain_name src dst s m e fs Hm) as H.
    unfold bind in *. rewrite !copy_and_rename_step.
    destruct (copy_step _ _ _ _ s m fs) as [[n1|e1] fs1]; [|done].
    by rewrite copy_and_rename_step.
  - pose proof (copy_step_splits mask_name mask_name src dst s m e fs Hm) as H.
    unfold bind in *. rewrite !copy_mask_step.
    destruct (copy_step _ _ _ _ s m fs) as [[n1|e1] fs1]; [|done].
    by rewrite copy_mask_step.
Qed.


(** Copying a path onto itself fails and changes nothing. *)
Lemma shutil_copy2_same_path p fs :
  exists_ fs p = true → ∃ err, shutil_copy2 p p fs = (Raised err, fs).
Proof.
  unfold shutil_copy2, exists_, isdir, update, os_path_join.
  destruct (lookup_path fs p) as [[c|m]|] eqn:E; [| |done]; intros _.
  - rewrite decide_True by done. by eexists.
  - rewrite decide_False; [by eexists|].
    intros H. apply (f_equal length) in H. rewrite length_app in H. simpl in H. lia.
Qed.

Lemma copy_loop_with_same_folder sname folder indices c fs i :
  i ∈ indices → exists_ fs (os_path_join folder (sname i)) = true →
  ∃ err, copy_loop_with sname sname folder folder indices c fs = (Raised err, fs).
Proof.
  intros Hi Hex. revert c. induction indices as [|j rest IH]; intros c.
  - by apply elem_of_nil in Hi.
  - simpl. unfold bind, os_path_exists, gets.
    destruct (exists_ fs (os_path_join folder (sname j))) eqn:Ej.
    + destruct (shutil_copy2_same_path _ _ Ej) as [err ->]. by eexists.
    + apply IH. apply elem_of_cons in Hi as [->|Hi]; [congruence|done].
Qed.

Lemma exists_isdir_parent fs d name :
  exists_ fs (os_path_join d name) = true → isdir fs d = true.
Proof.
  unfold exists_, isdir, os_path_join. rewrite lookup_path_app.
  by destruct (lookup_path fs d) as [[?|?]|].
Qed.

Lemma copy_step_same_folder sname folder s e i fs :
  (s ≤ i < e)%Z → exists_ fs (os_path_join folder (sname i)) = true →
  ∃ err, copy_step sname sname folder folder s e fs = (Raised err, fs).
Proof.
  intros Hi Hex. unfold copy_step, bind, os_makedirs, update.
  rewrite (makedirs_id _ _ (exists_isdir_parent _ _ _ Hex)).
  apply (copy_loop_with_same_folder sname folder _ 0%nat fs i); [|done].
  unfold range. apply elem_of_seqZ. lia.
Qed.

(** X17. A folder cannot be copied onto itself: when source and
    destination are the same folder and a source file of the range is
    there, copy_images_to_directory and copy_mask_images_to_directory
    raise (shutil.copy2 refuses the same file), and the tree is left as it
    was. *)
Theorem copy_onto_itself_raises folder s e i fs :
  (s ≤ i < e)%Z →
  (exists_ fs (os_path_join folder (plain_name i)) = true →
   ∃ err, copy_images_to_directory folder folder (s, e) fs = (Raised err, fs))
  ∧ (exists_ fs (os_path_join folder (mask_name i)) = true →
     ∃ err, copy_mask_images_to_directory folder folder (s, e) fs = (Raised err, fs)).
Proof.
  intros Hi. split; intros Hex.
  - rewrite copy_images_step. by apply (copy_step_same_folder _ _ _ _ i).
  - rewrite copy_mask_step. by apply (copy_step_same_folder _ _ _ _ i).
Qed.

Lemma copy_range_splits_witness :
  (n1 <- copy_images_to_directory ["src"] ["dst"] (0, 1)%Z ;;
   n2 <- copy_images_to_directory ["src"] ["dst"] (1, 3)%Z ;; ret (n1 + n2)%nat)
    Demo.tree_gap
  = copy_images_to_directory ["src"] ["dst"] (0, 3)%Z Demo.tree_gap.
Proof.
  apply (copy_range_splits ["src"] ["dst"] 0 1 3 Demo.tree_gap). lia.
Defined.


Lemma copy_onto_itself_raises_witness :
  ∃ err,
    copy_images_to_directory ["src"] ["src"] (0, 3)%Z Demo.tree_gap
    = (Raised err, Demo.tree_gap).
Proof.
  apply (copy_onto_itself_raises ["src"] 0 3 2 Demo.tree_gap); [lia|reflexivity].
Defined.

End DistributorRun.

Import DistributorRun.

(** ** Steps 2 to 6, by what they leave *)

Module Pipeline.

Local Open Scope Z_scope.

Section CopyContents.

Variables sname dname : Z → string.
Hypothesis dname_inj : ∀ i j, dname i = dname j → i = j.

(** A copy step in a tree where the source holds files only and the
    destination can be created and holds no sub-directories, by what it
    leaves in the destination. *)
Lemma copy_step_contents src dst s e fs :
  apart src dst →
  files_only fs src = true → files_only fs dst = true → creatable fs dst = true →
  ∃ fs',
    copy_step sname dname src dst s e fs
    = (Ok (length (present sname fs src (range s e))), fs')
    ∧ (∀ i c, s ≤ i < e →
         lookup_path fs (os_path_join src (sname i)) = Some (File c) →
         lookup_path fs' (os_path_join dst (dname i)) = Some (File c))
    ∧ (∀ name,
         (∀ i, s ≤ i < e → exists_ fs (os_path_join src (sname i)) = true →
               name ≠ dname i) →
         lookup_path fs' (os_path_join dst name) = lookup_path fs (os_path_join dst name))
    ∧ (∀ p, p `prefix_of` dst → isdir fs' p = true)
    ∧ (∀ p, ¬ p `prefix_of` dst → isdir fs' p = isdir fs p)
    ∧ (∀ p, ¬ p `prefix_of` dst → ¬ dst `prefix_of` p →
            lookup_path fs' p = lookup_path fs p).
Proof.
  intros Hap Hsrc Hdst Hcr.
  destruct (makedirs_succeeds dst fs) as [fs1 Hmk].
  { intros q. by apply creatable_spec. }
  pose proof (λ p, makedirs_lookup_other _ _ _ p Hmk) as Hlk1.
  assert (∀ p, ¬ p `prefix_of` dst → isdir fs1 p = isdir fs p) as Hdir1.
  { intros p Hp. unfold isdir. by rewrite Hlk1. }
  assert (∀ i, lookup_path fs1 (os_path_join src (sname i))
               = lookup_path fs (os_path_join src (sname i))) as Hs1.
  { intros i. apply Hlk1. by destruct (Distributor.apart_join src dst (sname i) Hap). }
  assert (∀ name, lookup_path fs1 (os_path_join dst name)
                  = lookup_path fs (os_path_join dst name)) as Hd1.
  { intros name. apply Hlk1. apply prefix_snoc_not. }
  destruct (Distributor.copy_loop_with_range sname dname dname_inj src dst s e fs1 Hap)
    as (fs' & Hrun & Hcopied & _ & Hkept & Hout); [by eapply makedirs_isdir|..].
  { intros i _. unfold isdir. rewrite Hs1. by apply files_only_spec. }
  { intros i _. unfold isdir. rewrite Hd1. by apply files_only_spec. }
  exists fs'. split; [|split; [|split; [|split; [|split]]]].
  - unfold copy_step, bind, os_makedirs, update. rewrite Hmk, Hrun.
    f_equal. f_equal. f_equal. apply Distributor.present_ext.
    intros i. unfold exists_. by rewrite Hs1.
  - intros i c Hi Hc. apply Hcopied; [done|]. by rewrite Hs1.
  - intros name Hname. rewrite Hkept, Hd1; [done|].
    intros i Hi Hex. apply Hname; [done|]. unfold exists_ in *. by rewrite <- Hs1.
  - intros p Hp. rewrite (Distributor.copy_loop_with_isdir _ _ _ _ _ _ _ _ _ p Hrun).
    by eapply makedirs_isdir_prefix.
  - intros p Hp. rewrite (Distributor.copy_loop_with_isdir _ _ _ _ _ _ _ _ _ p Hrun).
    by apply Hdir1.
  - intros p Hp1 Hp2. rewrite Hout; [|done|done]. by apply Hlk1.
Qed.

(** The same step between an input and an output folder of a tidy tree. *)
Lemma tidy_copy_step obj_path src dst s e fs :
  src ∈ inputs → dst ∈ outputs → tidy obj_path fs = true →
  ∃ n fs',
    copy_step sname dname (obj_path ++ src) (obj_path ++ dst) s e fs = (Ok n, fs')
    ∧ tidy obj_path fs' = true
    ∧ (∀ i c, s ≤ i < e →
         lookup_path fs (os_path_join (obj_path ++ src) (sname i)) = Some (File c) →
         lookup_path fs' (os_path_join (obj_path ++ dst) (dname i)) = Some (File c))
    ∧ (∀ name,
         (∀ i, s ≤ i < e →
               exists_ fs (os_path_join (obj_path ++ src) (sname i)) = true →
               name ≠ dname i) →
         lookup_path fs' (os_path_join (obj_path ++ dst) name)
         = lookup_path fs (os_path_join (obj_path ++ dst) name))
    ∧ same_outside (obj_path ++ dst) fs fs'
    ∧ isdir fs' (obj_path ++ dst) = true.
Proof.
  intros Hs Hd Ht. pose proof Ht as [Hf Hc]%Orchestrator.tidy_spec.
  destruct (copy_step_contents (obj_path ++ src) (obj_path ++ dst) s e fs)
    as (fs' & Hrun & Hcopied & Hkept & Hin & Hdir & Hout).
  { by apply Orchestrator.inputs_outputs_apart. }
  { apply Hf, elem_of_app. by left. }
  { apply Hf, elem_of_app. by right. }
  { by apply Hc. }
  eexists _, fs'. split; [exact Hrun|].
  split; [by apply (Orchestrator.tidy_kept obj_path dst fs fs')|].
  split; [done|]. split; [done|]. split; [|by apply Hin].
  intros p H1 H2. by apply Hout.
Qed.

End CopyContents.

(** A name found in a folder is in its listing. *)
Lemma lookup_listdir fs d name n :
  lookup_path fs (os_path_join d name) = Some n →
  ∃ names, listdir fs d = Some names ∧ name ∈ names.
Proof.
  unfold os_path_join, listdir. rewrite lookup_path_app.
  destruct (lookup_path fs d) as [[c|m]|]; simpl; [done| |done].
  destruct (m !! name) as [child|] eqn:E; [|done]. intros _.
  eexists. split; [done|]. apply elem_of_elements, elem_of_dom. by eexists.
Qed.

(** What the suppressor leaves of a file with a PNG name. *)
Lemma postprocess_file folder fs name c :
  Names.is_png name = true →
  lookup_path fs (os_path_join folder name) = Some (File c) →
  lookup_path (snd (postprocess_segmented_images folder fs)) (os_path_join folder name)
  = Some (File (suppress_content c)).
Proof.
  intros Hpng Hc. destruct (postprocess_effect folder fs) as (Hrw & Hkeep & _).
  assert (name ∈ eligible fs folder) as Hel.
  { destruct (lookup_listdir _ _ _ _ Hc) as (names & Hn & Hin).
    unfold eligible. rewrite Hn. by apply elem_of_png_files. }
  destruct c as [[m|m|m]|]; simpl; try by apply Hrw.
  all: rewrite Hkeep; [done|apply join_not_prefix|];
    intros f _ Hf Heq; apply join_inj in Heq as <-;
    unfold is_rgba in Hf; by rewrite Hc in Hf.
Qed.

(** Suppression neither adds nor removes a name. *)
Lemma postprocess_exists folder fs name :
  exists_ (snd (postprocess_segmented_images folder fs)) (os_path_join folder name)
  = exists_ fs (os_path_join folder name).
Proof.
  destruct (postprocess_effect folder fs) as (Hrw & Hkeep & _). unfold exists_.
  destruct (decide (name ∈ eligible fs folder
                    ∧ is_rgba fs (os_path_join folder name) = true)) as [[Hf Hr]|Hno].
  - unfold is_rgba in Hr.
    destruct (lookup_path fs (os_path_join folder name)) as [[[[m|m|m]|]|?]|] eqn:E;
      try done.
    by rewrite (Hrw name m Hf E).
  - rewrite Hkeep; [done|apply join_not_prefix|].
    intros f Hf Hr Heq. apply join_inj in Heq as <-. by apply Hno.
Qed.

(** A step confined to one output folder leaves the inputs and the other
    output folders alone. *)
Lemma frame_output obj_path d1 d2 q fs fs' :
  same_outside (obj_path ++ d1) fs fs' →
  d1 ∈ outputs → d2 ∈ inputs ++ outputs → d1 ≠ d2 →
  lookup_path fs' ((obj_path ++ d2) ++ q) = lookup_path fs ((obj_path ++ d2) ++ q).
Proof.
  intros Hso H1 H2 Hne. unfold inputs, outputs in *. simpl in H2.
  apply Hso; intros H;
    repeat (apply elem_of_cons in H1 as [->|H1]); try (by apply elem_of_nil in H1);
    repeat (apply elem_of_cons in H2 as [->|H2]); try (by apply elem_of_nil in H2);
    try done; Orchestrator.paths_part H.
Qed.

Lemma distribute_and_suppress_spec obj_path fs :
  let mask_folder := obj_path ++ ["train_pbr"; "000000"; "mask"] in
  let rgb_mask := obj_path ++ ["train_pbr"; "000000"; "rgb_mask"] in
  let segmented_masks := obj_path ++ ["train_pbr"; "vggt"; "segmented"; "masks"] in
  let surface_masks := obj_path ++ ["train_pbr"; "vggt"; "surface"; "masks"] in
  let surface_images := obj_path ++ ["train_pbr"; "vggt"; "surface"; "images"] in
  let segmented_images :=
    obj_path ++ ["train_pbr"; "vggt"; "segmented"; "images"] in
  tidy obj_path fs = true →
  ∃ fs',
    distribute_and_suppress obj_path fs = (Ok true, fs')
    ∧ (∀ i c,
         lookup_path fs (os_path_join mask_folder (mask_name i)) = Some (File c) →
         (0 ≤ i < 30 →
          lookup_path fs' (os_path_join segmented_masks (plain_name i))
          = Some (File c))
         ∧ (0 ≤ i < 20 →
            lookup_path fs' (os_path_join surface_masks (plain_name i))
            = Some (File c)))
    ∧ (∀ i c,
         lookup_path fs (os_path_join rgb_mask (plain_name i)) = Some (File c) →
         (0 ≤ i < 20 →
          lookup_path fs' (os_path_join surface_images (plain_name i))
          = Some (File c))
         ∧ (0 ≤ i < 30 →
            lookup_path fs' (os_path_join segmented_images (plain_name i))
            = Some (File (suppress_content c))))
    ∧ (∀ name,
         ((∀ i, 0 ≤ i < 30 →
                exists_ fs (os_path_join mask_folder (mask_name i)) = true →
                name ≠ plain_name i) →
          lookup_path fs' (os_path_join segmented_masks name)
          = lookup_path fs (os_path_join segmented_masks name))
         ∧ ((∀ i, 0 ≤ i < 20 →
                  exists_ fs (os_path_join mask_folder (mask_name i)) = true →
                  name ≠ plain_name i) →
            lookup_path fs' (os_path_join surface_masks name)
            = lookup_path fs (os_path_join surface_masks name))
         ∧ ((∀ i, 0 ≤ i < 20 →
                  exists_ fs (os_path_join rgb_mask (plain_name i)) = true →
                  name ≠ plain_name i) →
            lookup_path fs' (os_path_join surface_images name)
            = lookup_path fs (os_path_join surface_images name))
         ∧ ((∀ i, 0 ≤ i < 30 →
                  exists_ fs (os_path_join rgb_mask (plain_name i)) = true →
                  name ≠ plain_name i) →
            exists_ fs' (os_path_join segmented_images name)
            = exists_ fs (os_path_join segmented_images name))).
Proof.
  cbv zeta. intros Ht. unfold distribute_and_suppress. rewrite <- !app_assoc. simpl.
  set (M := ["train_pbr"; "000000"; "mask"]).
  set (R := ["train_pbr"; "000000"; "rgb_mask"]).
  set (SM := ["train_pbr"; "vggt"; "segmented"; "masks"]).
  set (FM := ["train_pbr"; "vggt"; "surface"; "masks"]).
  set (FI := ["train_pbr"; "vggt"; "surface"; "images"]).
  set (SI := ["train_pbr"; "vggt"; "segmented"; "images"]).
  assert (M ∈ inputs ∧ R ∈ inputs) as [HM HR]
    by (rewrite !list_elem_of_In; simpl; tauto).
  assert (SM ∈ outputs ∧ FM ∈ outputs ∧ FI ∈ outputs ∧ SI ∈ outputs)
    as (HSM & HFM & HFI & HSI) by (rewrite !list_elem_of_In; simpl; tauto).
  assert (M ∈ inputs ++ outputs ∧ R ∈ inputs ++ outputs ∧ SM ∈ inputs ++ outputs
          ∧ FM ∈ inputs ++ outputs ∧ FI ∈ inputs ++ outputs
          ∧ SI ∈ inputs ++ outputs) as (HM' & HR' & HSM' & HFM' & HFI' & HSI')
    by (rewrite !list_elem_of_In; simpl; tauto).
  unfold bind at 1. rewrite copy_and_rename_step.
  destruct (tidy_copy_step mask_name plain_name plain_name_inj obj_path M SM 0 30 fs
              HM HSM Ht) as (n2 & fs2 & -> & Ht2 & Hc2 & Hk2 & Ho2 & _).
  unfold bind at 1. rewrite copy_and_rename_step.
  destruct (tidy_copy_step mask_name plain_name plain_name_inj obj_path M FM 0 20 fs2
              HM HFM Ht2) as (n3 & fs3 & -> & Ht3 & Hc3 & Hk3 & Ho3 & _).
  unfold bind at 1. rewrite copy_images_step.
  destruct (tidy_copy_step plain_name plain_name plain_name_inj obj_path R FI 0 20 fs3
              HR HFI Ht3) as (n4 & fs4 & -> & Ht4 & Hc4 & Hk4 & Ho4 & _).
  unfold bind at 1. rewrite copy_images_step.
  destruct (tidy_copy_step plain_name plain_name plain_name_inj obj_path R SI 0 30 fs4
              HR HSI Ht4) as (n5 & fs5 & -> & Ht5 & Hc5 & Hk5 & Ho5 & Hd5).
  pose proof (postprocess_same_outside (obj_path ++ SI) fs5) as Ho6.
  pose proof (postprocess_file (obj_path ++ SI) fs5) as Hc6.
  pose proof (postprocess_exists (obj_path ++ SI) fs5) as Hk6.
  pose proof (Suppressor.postprocess_segmented_images_spec (obj_path ++ SI) fs5) as H6.
  destruct (Compositor.isdir_listdir fs5 (obj_path ++ SI) Hd5) as [names Hnames].
  rewrite Hnames in H6. destruct H6 as (fs6 & Hr6 & _).
  unfold bind, ret. rewrite Hr6 in *. simpl in *.
  assert (∀ d q, d ∈ inputs ++ outputs → d ≠ SM →
            lookup_path fs2 ((obj_path ++ d) ++ q)
            = lookup_path fs ((obj_path ++ d) ++ q)) as F2.
  { intros d q Hd Hne. by apply (frame_output obj_path SM d q). }
  assert (∀ d q, d ∈ inputs ++ outputs → d ≠ FM →
            lookup_path fs3 ((obj_path ++ d) ++ q)
            = lookup_path fs2 ((obj_path ++ d) ++ q)) as F3.
  { intros d q Hd Hne. by apply (frame_output obj_path FM d q). }
  assert (∀ d q, d ∈ inputs ++ outputs → d ≠ FI →
            lookup_path fs4 ((obj_path ++ d) ++ q)
            = lookup_path fs3 ((obj_path ++ d) ++ q)) as F4.
  { intros d q Hd Hne. by apply (frame_output obj_path FI d q). }
  assert (∀ d q, d ∈ inputs ++ outputs → d ≠ SI →
            lookup_path fs5 ((obj_path ++ d) ++ q)
            = lookup_path fs4 ((obj_path ++ d) ++ q)) as F5.
  { intros d q Hd Hne. by apply (frame_output obj_path SI d q). }
  assert (∀ d q, d ∈ inputs ++ outputs → d ≠ SI →
            lookup_path fs6 ((obj_path ++ d) ++ q)
            = lookup_path fs5 ((obj_path ++ d) ++ q)) as F6.
  { intros d q Hd Hne. by apply (frame_output obj_path SI d q). }
  unfold os_path_join in *.
  exists fs6. split; [done|]. split; [|split].
  - intros i c Hc. split; intros Hi.
    + rewrite F6, F5, F4, F3 by done. by apply Hc2.
    + rewrite F6, F5, F4 by done. apply Hc3; [done|]. by rewrite F2.
  - intros i c Hc. split; intros Hi.
    + rewrite F6, F5 by done. apply Hc4; [done|]. by rewrite F3, F2.
    + apply Hc6; [apply frame_names|].
      apply Hc5; [done|]. by rewrite F4, F3, F2.
  - intros name. split; [|split; [|split]]; intros Hname.
    + rewrite F6, F5, F4, F3 by done. by apply Hk2.
    + rewrite F6, F5, F4 by done. rewrite Hk3, F2; [done..|].
      intros i Hi Hex. apply Hname; [done|]. unfold exists_ in *. by rewrite <- F2.
    + rewrite F6, F5 by done. rewrite Hk4, F3, F2; [done..|].
      intros i Hi Hex. apply Hname; [done|].
      unfold exists_ in *. by rewrite <- F2, <- F3.
    + rewrite Hk6. unfold exists_. rewrite Hk5, F4, F3, F2; [done..|].
      intros i Hi Hex. apply Hname; [done|].
      unfold exists_ in *. by rewrite <- F2, <- F3, <- F4.
Qed.


(** X18. In a tidy tree steps 2 to 6 run to the end, and afterwards: each
    mask file of an index below 30 (below 20) is in segmented/masks
    (surface/masks) under the plain name; each file of rgb_mask with an
    index below 20 is in surface/images unchanged, and each with an index
    below 30 is in segmented/images, suppressed when it is a four-channel
    PNG and unchanged otherwise; and no other name appears in or leaves
    the four folders. *)
Theorem distribute_and_suppress_contents obj_path fs :
  let mask_folder := obj_path ++ ["train_pbr"; "000000"; "mask"] in
  let rgb_mask := obj_path ++ ["train_pbr"; "000000"; "rgb_mask"] in
  let segmented_masks := obj_path ++ ["train_pbr"; "vggt"; "segmented"; "masks"] in
  let surface_masks := obj_path ++ ["train_pbr"; "vggt"; "surface"; "masks"] in
  let surface_images := obj_path ++ ["train_pbr"; "vggt"; "surface"; "images"] in
  let segmented_images :=
    obj_path ++ ["train_pbr"; "vggt"; "segmented"; "images"] in
  tidy obj_path fs = true →
  ∃ fs',
    distribute_and_suppress obj_path fs = (Ok true, fs')
    ∧ (∀ i c,
         lookup_path fs (os_path_join mask_folder (mask_name i)) = Some (File c) →
         (0 ≤ i < 30 →
          lookup_path fs' (os_path_join segmented_masks (plain_name i))
          = Some (File c))
         ∧ (0 ≤ i < 20 →
            lookup_path fs' (os_path_join surface_masks (plain_name i))
            = Some (File c)))
    ∧ (∀ i c,
         lookup_path fs (os_path_join rgb_mask (plain_name i)) = Some (File c) →
         (0 ≤ i < 20 →
          lookup_path fs' (os_path_join surface_images (plain_name i))
          = Some (File c))
         ∧ (0 ≤ i < 30 →
            lookup_path fs' (os_path_join segmented_images (plain_name i))
            = Some (File (suppress_content c))))
    ∧ (∀ name,
         ((∀ i, 0 ≤ i < 30 →
                exists_ fs (os_path_join mask_folder (mask_name i)) = true →
                name ≠ plain_name i) →
          lookup_path fs' (os_path_join segmented_masks name)
          = lookup_path fs (os_path_join segmented_masks name))
         ∧ ((∀ i, 0 ≤ i < 20 →
                  exists_ fs (os_path_join mask_folder (mask_name i)) = true →
                  name ≠ plain_name i) →
            lookup_path fs' (os_path_join surface_masks name)
            = lookup_path fs (os_path_join surface_masks name))
         ∧ ((∀ i, 0 ≤ i < 20 →
                  exists_ fs (os_path_join rgb_mask (plain_name i)) = true →
                  name ≠ plain_name i) →
            lookup_path fs' (os_path_join surface_images name)
            = lookup_path fs (os_path_join surface_images name))
         ∧ ((∀ i, 0 ≤ i < 30 →
                  exists_ fs (os_path_join rgb_mask (plain_name i)) = true →
                  name ≠ plain_name i) →
            exists_ fs' (os_path_join segmented_images name)
            = exists_ fs (os_path_join segmented_images name))).
Proof. apply distribute_and_suppress_spec. Qed.

Lemma distribute_and_suppress_contents_witness :
  ∃ fs',
    distribute_and_suppress ["obj"] Demo.tree_two_frames = (Ok true, fs')
    ∧ lookup_path fs' ["obj"; "train_pbr"; "vggt"; "segmented"; "masks"; "000001.png"]
      = Some (File (Png (Gray Demo.mask_1x1))).
Proof.
  destruct (distribute_and_suppress_contents ["obj"] Demo.tree_two_frames)
    as (fs' & Hrun & Hmasks & _).
  - vm_compute. reflexivity.
  - exists fs'. split; [exact Hrun|].
    apply (Hmasks 1 (Png (Gray Demo.mask_1x1))); [reflexivity|lia].
Defined.

End Pipeline.

Import Pipeline.

(** ** One frame through the whole run *)

Module WholeRun.

Local Open Scope Z_scope.

Lemma creatable_kept_outside fs fs' dst d :
  (∀ p, p `prefix_of` dst → isdir fs' p = true) →
  same_outside dst fs fs' →
  ¬ dst `prefix_of` d →
  creatable fs d = true → creatable fs' d = true.
Proof.
  intros Hin Hout Hnp H. apply creatable_intro. intros q Hq Hex.
  destruct (decide (q `prefix_of` dst)) as [Hp|Hp]; [by apply Hin|].
  assert (¬ dst `prefix_of` q) as Hp' by (intros Hdq; apply Hnp; by etrans).
  unfold exists_, isdir in *. rewrite Hout in *; [|done..].
  by apply (creatable_spec fs d q).
Qed.

Section Runs.

Variable luma : Z → Z → Z → Z.
Variable interp : matrix Z → nat → nat → nat → nat → Z.

(** What the compositor does to directories: the output folder and the
    folders on the way to it are there afterwards, no other path becomes
    or stops being a directory. *)
Lemma combine_rgb_mask_isdir rgb_folder mask_folder output_folder fs fs' :
  combine_rgb_mask luma interp rgb_folder mask_folder output_folder fs
  = (Ok true, fs') →
  (∀ p, p `prefix_of` output_folder → isdir fs' p = true)
  ∧ (∀ p, ¬ p `prefix_of` output_folder → isdir fs' p = isdir fs p).
Proof.
  rewrite Compositor.combine_rgb_mask_spec. destruct (negb _); [done|].
  destruct (makedirs output_folder fs) as [fs1|] eqn:Hmk; [|done].
  destruct (listdir fs1 rgb_folder) as [names|]; [|done].
  destruct (Compositor.combine_loop_spec luma interp rgb_folder mask_folder
              output_folder (png_files names) 0 fs1)
    as (n & fs2 & -> & _ & _ & _ & _ & Hd).
  intros [= _ <-]. split; intros p Hp; rewrite Hd.
  - by eapply makedirs_isdir_prefix.
  - unfold isdir. by rewrite (makedirs_lookup_other _ _ _ _ Hmk Hp).
Qed.

(** The compositor keeps the tree tidy. *)
Lemma tidy_after_compositor obj_path fs fs' :
  combine_rgb_mask luma interp
    (obj_path ++ ["train_pbr"; "000000"; "rgb"])
    (obj_path ++ ["train_pbr"; "000000"; "mask"])
    (obj_path ++ ["train_pbr"; "000000"; "rgb_mask"]) fs = (Ok true, fs') →
  tidy obj_path fs = true → tidy obj_path fs' = true.
Proof.
  intros Hrun. destruct (combine_rgb_mask_isdir _ _ _ _ _ Hrun) as [Hin Hdir].
  pose proof (combine_rgb_mask_same_outside luma interp
                (obj_path ++ ["train_pbr"; "000000"; "rgb"])
                (obj_path ++ ["train_pbr"; "000000"; "mask"])
                (obj_path ++ ["train_pbr"; "000000"; "rgb_mask"]) fs) as Hout.
  rewrite Hrun in Hout. simpl in Hout.
  rewrite !Orchestrator.tidy_spec. intros [Hf Hc]. split.
  - intros d Hd.
    apply (files_only_kept fs fs' (obj_path ++ ["train_pbr"; "000000"; "rgb_mask"]));
      [done| |by apply Hf].
    intros name H. unfold inputs, outputs in Hd. simpl in Hd.
    repeat (apply elem_of_cons in Hd as [->|Hd]); try (by apply elem_of_nil in Hd);
      Orchestrator.paths_part H.
  - intros d Hd.
    apply (creatable_kept_outside fs fs'
             (obj_path ++ ["train_pbr"; "000000"; "rgb_mask"]));
      [done|done| |by apply Hc].
    intros H. unfold outputs in Hd.
    repeat (apply elem_of_cons in Hd as [->|Hd]); try (by apply elem_of_nil in Hd);
      Orchestrator.paths_part H.
Qed.

Lemma read_file_isdir_parent fs d name c :
  read_file fs (os_path_join d name) = Some c → isdir fs d = true.
Proof.
  unfold read_file, os_path_join, isdir. rewrite lookup_path_app.
  by destruct (lookup_path fs d) as [[?|?]|].
Qed.

Lemma read_file_exists fs p c : read_file fs p = Some c → exists_ fs p = true.
Proof. unfold read_file, exists_. by destruct (lookup_path fs p). Qed.

Lemma composite_of_inputs fs rgb_folder mask_folder f rgba :
  composite_of luma interp fs rgb_folder mask_folder f = Some rgba →
  isdir fs rgb_folder = true ∧ isdir fs mask_folder = true
  ∧ exists_ fs (os_path_join rgb_folder f) = true.
Proof.
  unfold composite_of.
  destruct (read_file fs (os_path_join rgb_folder f)) as [c|] eqn:Er; [|done].
  destruct (read_file fs (os_path_join mask_folder _)) as [cm|] eqn:Em; [|done].
  intros _. split; [by eapply read_file_isdir_parent|].
  split; [by eapply read_file_isdir_parent|by eapply read_file_exists].
Qed.

Lemma whole_run_frame obj_path fs i rgba :
  let rgb_folder := obj_path ++ ["train_pbr"; "000000"; "rgb"] in
  let mask_folder := obj_path ++ ["train_pbr"; "000000"; "mask"] in
  let rgb_mask := obj_path ++ ["train_pbr"; "000000"; "rgb_mask"] in
  let segmented := obj_path ++ ["train_pbr"; "vggt"; "segmented"] in
  let surface := obj_path ++ ["train_pbr"; "vggt"; "surface"] in
  tidy obj_path fs = true →
  is_Some (makedirs rgb_mask fs) →
  composite_of luma interp fs rgb_folder mask_folder (plain_name i) = Some rgba →
  (∀ g, g ∈ eligible fs rgb_folder → composite_name g = plain_name i →
        g = plain_name i) →
  ∃ fs',
    process_object_directory luma interp obj_path fs = (Ok true, fs')
    ∧ lookup_path fs' (rgb_mask ++ [plain_name i]) = Some (File (Png (RGBA rgba)))
    ∧ (0 ≤ i < 20 →
       lookup_path fs' (surface ++ ["images"; plain_name i])
       = Some (File (Png (RGBA rgba))))
    ∧ (0 ≤ i < 30 →
       lookup_path fs' (segmented ++ ["images"; plain_name i])
       = Some (File (Png (RGBA (pmap suppress_px rgba)))))
    ∧ (∀ c, lookup_path fs (mask_folder ++ [mask_name i]) = Some (File c) →
         (0 ≤ i < 30 →
          lookup_path fs' (segmented ++ ["masks"; plain_name i]) = Some (File c))
         ∧ (0 ≤ i < 20 →
            lookup_path fs' (surface ++ ["masks"; plain_name i]) = Some (File c))).
Proof.
  intros RGB M R segmented surface Ht Hmk Hco Huniq.
  destruct (composite_of_inputs _ _ _ _ _ Hco) as (Hrgb & Hmask & Hex).
  pose proof Ht as [Hf _]%Orchestrator.tidy_spec.
  assert (¬ RGB `prefix_of` R) as Hnp by (intros H; Orchestrator.paths_part H).
  assert (M ≠ R) as Hne.
  { intros H. apply app_inv_head in H. discriminate H. }
  assert (composable luma interp fs RGB M R (plain_name i) = true) as Hcb.
  { unfold composable. rewrite Hco. apply negb_true_iff.
    apply files_only_spec, Hf. unfold R.
    rewrite list_elem_of_In. simpl. tauto. }
  assert (plain_name i ∈ eligible fs RGB) as Hel.
  { unfold exists_ in Hex.
    destruct (lookup_path fs (os_path_join RGB (plain_name i))) as [n|] eqn:E;
      [|done].
    destruct (lookup_listdir _ _ _ _ E) as (names & Hn & Hin).
    unfold eligible. rewrite Hn. apply elem_of_png_files.
    split; [done|apply frame_names]. }
  destruct (combine_rgb_mask_closed_form luma interp RGB M R fs Hnp Hne Hrgb
              (isdir_exists _ _ Hmask) Hmk) as (fs1 & Hrun & _).
  pose proof (combine_rgb_mask_frame luma interp RGB M R fs (plain_name i)
                Hnp Hne Hrgb (isdir_exists _ _ Hmask) Hmk Hel) as Hframe.
  destruct (frame_names i) as (_ & _ & _ & Hcn).
  rewrite Hcn, Hcb, Hrun in Hframe. simpl in Hframe.
  unfold composite_file in Hframe. rewrite Hco in Hframe. simpl in Hframe.
  specialize (Hframe Huniq).
  assert ((0 <? length (processed luma interp fs RGB M R))%nat = true) as Hpos.
  { apply Nat.ltb_lt. unfold processed.
    assert (plain_name i ∈ filter (λ f, Is_true (composable luma interp fs RGB M R f))
                             (eligible fs RGB)) as Hin.
    { apply list_elem_of_filter. by rewrite Hcb. }
    destruct (filter _ _); [by apply elem_of_nil in Hin|simpl; lia]. }
  rewrite Hpos in Hrun.
  pose proof (tidy_after_compositor obj_path fs fs1 Hrun Ht) as Ht1.
  pose proof (combine_rgb_mask_same_outside luma interp RGB M R fs) as Hout.
  rewrite Hrun in Hout. simpl in Hout.
  destruct (distribute_and_suppress_spec obj_path fs1 Ht1)
    as (fs' & Hds & Hmasks & Himgs & _).
  pose proof (distribute_and_suppress_same_outside obj_path fs1) as Hv.
  rewrite Hds in Hv. simpl in Hv.
  destruct (Himgs i _ Hframe) as [Hfi Hsi].
  unfold os_path_join, segmented, surface in *.
  exists fs'. split.
  { rewrite process_object_directory_steps. fold RGB M R. by rewrite Hrun. }
  split; [|split; [|split]].
  - rewrite <- Hframe. apply Hv; intros H; unfold R in H; Orchestrator.paths_part H.
  - intros Hi. rewrite <- (Hfi Hi). f_equal. by rewrite <- !app_assoc.
  - intros Hi. specialize (Hsi Hi). simpl in Hsi. rewrite <- Hsi.
    f_equal. by rewrite <- !app_assoc.
  - intros c Hc.
    assert (lookup_path fs1 (M ++ [mask_name i]) = Some (File c)) as Hc1.
    { rewrite <- Hc. apply Hout; intros H; unfold M, R in H;
        Orchestrator.paths_part H. }
    destruct (Hmasks i c Hc1) as [Hsm Hfm].
    split; intros Hi; [rewrite <- (Hsm Hi)|rewrite <- (Hfm Hi)];
      f_equal; by rewrite <- !app_assoc.
Qed.

(** What the two image folders hold at one pixel of a composite. *)
Lemma merge_rgba_pixel h w (rgb : matrix px3) (mask : matrix Z) y x r g b a :
  rect h w rgb → rect h w mask →
  at_ rgb y x = Some (r, g, b) → at_ mask y x = Some a →
  at_ (merge_rgba rgb mask) y x = Some (r, g, b, a)
  ∧ at_ (pmap suppress_px (merge_rgba rgb mask)) y x
    = Some (if a <? 10 then (0, 0, 0, a) else (r, g, b, a)).
Proof.
  intros Hr Hm Hrgb Hmask.
  destruct (merge_rgba_channels h w rgb mask Hr Hm) as (_ & Hc & Ha).
  rewrite <- Hc, at_pmap in Hrgb. rewrite <- Ha, at_pmap in Hmask.
  rewrite at_pmap.
  destruct (at_ (merge_rgba rgb mask) y x) as [[[[r' g'] b'] a']|]; [|done].
  simpl in *. injection Hrgb as -> -> ->. injection Hmask as ->.
  split; [done|]. unfold suppress_px. simpl. by destruct (a <? 10).
Qed.

Lemma swap_rb3_twice (m : matrix px3) : pmap swap_rb3 (pmap swap_rb3 m) = m.
Proof. rewrite pmap_pmap. apply pmap_id. by intros [[r g] b]. Qed.

(** X19. One frame through the whole run. In a tidy tree whose rgb_mask
    folder can be created, let colour file and mask of index i yield the
    composite [rgba], no other PNG name of the colour folder sharing its
    stem. Then process_object_directory returns success; rgb_mask holds
    the composite under [<i>.png]; for i below 20 surface/images holds it
    unchanged; for i below 30 segmented/images holds it with the
    background suppressed; and the mask file is in segmented/masks (i below
    30) and surface/masks (i below 20) under the plain name. *)
Theorem process_object_directory_frame obj_path fs i rgba :
  let rgb_folder := obj_path ++ ["train_pbr"; "000000"; "rgb"] in
  let mask_folder := obj_path ++ ["train_pbr"; "000000"; "mask"] in
  let rgb_mask := obj_path ++ ["train_pbr"; "000000"; "rgb_mask"] in
  let segmented := obj_path ++ ["train_pbr"; "vggt"; "segmented"] in
  let surface := obj_path ++ ["train_pbr"; "vggt"; "surface"] in
  tidy obj_path fs = true →
  is_Some (makedirs rgb_mask fs) →
  composite_of luma interp fs rgb_folder mask_folder (plain_name i) = Some rgba →
  (∀ g, g ∈ eligible fs rgb_folder → composite_name g = plain_name i →
        g = plain_name i) →
  ∃ fs',
    process_object_directory luma interp obj_path fs = (Ok true, fs')
    ∧ lookup_path fs' (rgb_mask ++ [plain_name i]) = Some (File (Png (RGBA rgba)))
    ∧ (0 ≤ i < 20 →
       lookup_path fs' (surface ++ ["images"; plain_name i])
       = Some (File (Png (RGBA rgba))))
    ∧ (0 ≤ i < 30 →
       lookup_path fs' (segmented ++ ["images"; plain_name i])
       = Some (File (Png (RGBA (pmap suppress_px rgba)))))
    ∧ (∀ c, lookup_path fs (mask_folder ++ [mask_name i]) = Some (File c) →
         (0 ≤ i < 30 →
          lookup_path fs' (segmented ++ ["masks"; plain_name i]) = Some (File c))
         ∧ (0 ≤ i < 20 →
            lookup_path fs' (surface ++ ["masks"; plain_name i]) = Some (File c))).
Proof. apply whole_run_frame. Qed.

(** X20. The same at the level of pixels, for a three-channel colour file
    and a grey mask file of the same height and width, index below 20:
    surface/images holds at every position the colour of the colour file
    with the mask value as alpha; segmented/images holds the same, except
    that the colour is zero wherever the mask value is below 10; both
    masks folders hold the grey mask unchanged. *)
Theorem process_object_directory_pixels obj_path fs i h w color mask :
  let rgb_folder := obj_path ++ ["train_pbr"; "000000"; "rgb"] in
  let mask_folder := obj_path ++ ["train_pbr"; "000000"; "mask"] in
  let rgb_mask := obj_path ++ ["train_pbr"; "000000"; "rgb_mask"] in
  let segmented := obj_path ++ ["train_pbr"; "vggt"; "segmented"] in
  let surface := obj_path ++ ["train_pbr"; "vggt"; "surface"] in
  tidy obj_path fs = true →
  is_Some (makedirs rgb_mask fs) →
  lookup_path fs (rgb_folder ++ [plain_name i]) = Some (File (Png (RGB color))) →
  lookup_path fs (mask_folder ++ [mask_name i]) = Some (File (Png (Gray mask))) →
  rect h w color → rect h w mask →
  (∀ g, g ∈ eligible fs rgb_folder → composite_name g = plain_name i →
        g = plain_name i) →
  0 ≤ i < 20 →
  ∃ fs' surface_image segmented_image,
    process_object_directory luma interp obj_path fs = (Ok true, fs')
    ∧ lookup_path fs' (surface ++ ["images"; plain_name i])
      = Some (File (Png (RGBA surface_image)))
    ∧ lookup_path fs' (segmented ++ ["images"; plain_name i])
      = Some (File (Png (RGBA segmented_image)))
    ∧ lookup_path fs' (segmented ++ ["masks"; plain_name i])
      = Some (File (Png (Gray mask)))
    ∧ lookup_path fs' (surface ++ ["masks"; plain_name i])
      = Some (File (Png (Gray mask)))
    ∧ rect h w surface_image ∧ rect h w segmented_image
    ∧ ∀ y x r g b a,
        at_ color y x = Some (r, g, b) → at_ mask y x = Some a →
        at_ surface_image y x = Some (r, g, b, a)
        ∧ at_ segmented_image y x
          = Some (if a <? 10 then (0, 0, 0, a) else (r, g, b, a)).
Proof.
  intros RGB M R segmented surface Ht Hmk Hcol Hmask Hrc Hrm Huniq Hi.
  assert (composite_of luma interp fs RGB M (plain_name i)
          = Some (merge_rgba color mask)) as Hco.
  { unfold composite_of.
    destruct (frame_names i) as (_ & _ & -> & _).
    unfold os_path_join.
    rewrite (read_file_lookup _ _ _ Hcol), (read_file_lookup _ _ _ Hmask). simpl.
    unfold cvtColor_BGR2RGB. rewrite swap_rb3_twice.
    rewrite decide_False; [done|]. intros Hs. apply Hs.
    by eapply rect_shape2_eq. }
  destruct (whole_run_frame obj_path fs i _ Ht Hmk Hco Huniq)
    as (fs' & Hrun & _ & Hfi & Hsi & Hmasks).
  destruct (Hmasks _ Hmask) as [Hsm Hfm].
  destruct (merge_rgba_channels h w color mask Hrc Hrm) as (Hrect & _ & _).
  exists fs', (merge_rgba color mask), (pmap suppress_px (merge_rgba color mask)).
  split; [done|]. split; [apply Hfi; lia|]. split; [apply Hsi; lia|].
  split; [apply Hsm; lia|]. split; [apply Hfm; lia|].
  split; [done|]. split; [by apply rect_pmap|].
  intros y x r g b a. by apply (merge_rgba_pixel h w).
Qed.

End Runs.

Lemma process_object_directory_frame_witness :
  ∃ fs',
    process_object_directory Demo.luma_bt601 Demo.interp_nearest ["obj"]
      Demo.tree_two_frames = (Ok true, fs')
    ∧ lookup_path fs'
        ["obj"; "train_pbr"; "vggt"; "segmented"; "images"; "000001.png"]
      = Some (File (Png (RGBA [[(1, 2, 3, 77); (4, 5, 6, 77)];
                               [(7, 8, 9, 77); (10, 11, 12, 77)]]))).
Proof.
  destruct (process_object_directory_frame Demo.luma_bt601 Demo.interp_nearest
              ["obj"] Demo.tree_two_frames 1
              [[(1, 2, 3, 77); (4, 5, 6, 77)]; [(7, 8, 9, 77); (10, 11, 12, 77)]])
    as (fs' & Hrun & _ & _ & Hseg & _).
  - vm_compute. reflexivity.
  - vm_compute. eexists. reflexivity.
  - vm_compute. reflexivity.
  - intros g Hg Hc. vm_compute in Hg. apply list_elem_of_In in Hg.
    destruct Hg as [<-|[<-|[]]]; [discriminate Hc|reflexivity].
  - exists fs'. split; [exact Hrun|]. apply Hseg. lia.
Defined.

Lemma process_object_directory_pixels_witness :
  ∃ fs' segmented_image,
    process_object_directory Demo.luma_bt601 Demo.interp_nearest ["obj"]
      Demo.tree_two_frames = (Ok true, fs')
    ∧ lookup_path fs'
        ["obj"; "train_pbr"; "vggt"; "segmented"; "images"; "000000.png"]
      = Some (File (Png (RGBA segmented_image)))
    ∧ at_ segmented_image 0 1 = Some (0, 0, 0, 9)
    ∧ at_ segmented_image 1 0 = Some (7, 8, 9, 10).
Proof.
  destruct (process_object_directory_pixels Demo.luma_bt601 Demo.interp_nearest
              ["obj"] Demo.tree_two_frames 0 2 2 Demo.color_2x2 Demo.mask_2x2)
    as (fs' & surf & seg & Hrun & _ & Hseg & _ & _ & _ & _ & Hpx).
  - vm_compute. reflexivity.
  - vm_compute. eexists. reflexivity.
  - reflexivity.
  - reflexivity.
  - split; [reflexivity|]. repeat constructor.
  - split; [reflexivity|]. repeat constructor.
  - intros g Hg Hc. vm_compute in Hg. apply list_elem_of_In in Hg.
    destruct Hg as [<-|[<-|[]]]; [reflexivity|discriminate Hc].
  - lia.
  - exists fs', seg. split; [exact Hrun|]. split; [exact Hseg|].
    split.
    + apply (Hpx 0%nat 1%nat 4 5 6 9); reflexivity.
    + apply (Hpx 1%nat 0%nat 7 8 9 10); reflexivity.
Defined.

End WholeRun.

Import WholeRun.

(** ** The compositor on one pair *)

Module CompositorPairs.

Local Open Scope Z_scope.

Section Pairs.

Variable luma : Z → Z → Z → Z.
Variable interp : matrix Z → nat → nat → nat → nat → Z.

(** A run in which the composite of a colour file is not overwritten by
    that of another: it succeeds and leaves the composite in the output
    folder. *)
Lemma combine_rgb_mask_writes rgb_folder mask_folder output_folder fs f rgba :
  ¬ rgb_folder `prefix_of` output_folder → mask_folder ≠ output_folder →
  is_Some (makedirs output_folder fs) →
  f ∈ eligible fs rgb_folder →
  composite_of luma interp fs rgb_folder mask_folder f = Some rgba →
  isdir fs (os_path_join output_folder (composite_name f)) = false →
  (∀ g, g ∈ eligible fs rgb_folder → composite_name g = composite_name f → g = f) →
  ∃ fs',
    combine_rgb_mask luma interp rgb_folder mask_folder output_folder fs
    = (Ok true, fs')
    ∧ lookup_path fs' (os_path_join output_folder (composite_name f))
      = Some (File (Png (RGBA rgba))).
Proof.
  intros Hnp Hne Hmk Hel Hco Hnd Huniq.
  destruct (composite_of_inputs luma interp _ _ _ _ _ Hco) as (Hrgb & Hmask & _).
  assert (composable luma interp fs rgb_folder mask_folder output_folder f = true)
    as Hcb by (unfold composable; by rewrite Hco, Hnd).
  destruct (combine_rgb_mask_closed_form luma interp rgb_folder mask_folder
              output_folder fs Hnp Hne Hrgb (isdir_exists _ _ Hmask) Hmk)
    as (fs' & Hrun & _).
  pose proof (combine_rgb_mask_frame luma interp rgb_folder mask_folder
                output_folder fs f Hnp Hne Hrgb (isdir_exists _ _ Hmask) Hmk Hel
                Huniq) as Hframe.
  rewrite Hcb, Hrun in Hframe. simpl in Hframe.
  unfold composite_file in Hframe. rewrite Hco in Hframe. simpl in Hframe.
  assert ((0 <? length (processed luma interp fs rgb_folder mask_folder
                          output_folder))%nat = true) as Hpos.
  { apply Nat.ltb_lt. unfold processed.
    assert (f ∈ filter (λ x, Is_true (composable luma interp fs rgb_folder
                                        mask_folder output_folder x))
                  (eligible fs rgb_folder)) as Hin.
    { apply list_elem_of_filter. by rewrite Hcb. }
    destruct (filter _ _); [by apply elem_of_nil in Hin|simpl; lia]. }
  rewrite Hpos in Hrun. by exists fs'.
Qed.

Local Opaque shape2.

(** The array built from inputs of the same height and width. *)
Lemma composite_of_same_shape fs rgb_folder mask_folder f c cm bgr mask :
  lookup_path fs (os_path_join rgb_folder f) = Some (File c) →
  decode_color c = Some bgr →
  lookup_path fs (os_path_join mask_folder
                    (fst (Names.splitext f) +:+ "_000000.png"))
  = Some (File cm) →
  decode_grayscale luma cm = Some mask →
  shape2 (cvtColor_BGR2RGB bgr) = shape2 mask →
  composite_of luma interp fs rgb_folder mask_folder f
  = Some (merge_rgba (cvtColor_BGR2RGB bgr) mask).
Proof.
  intros Hc Hbgr Hcm Hmask Hshape. unfold composite_of.
  rewrite (read_file_lookup _ _ _ Hc), (read_file_lookup _ _ _ Hcm), Hbgr, Hmask.
  by rewrite decide_False by (by intros H).
Qed.

(** The array built after a resize of the mask. *)
Lemma composite_of_other_shape fs rgb_folder mask_folder f c cm bgr mask h w :
  lookup_path fs (os_path_join rgb_folder f) = Some (File c) →
  decode_color c = Some bgr →
  lookup_path fs (os_path_join mask_folder
                    (fst (Names.splitext f) +:+ "_000000.png"))
  = Some (File cm) →
  decode_grayscale luma cm = Some mask →
  shape2 (cvtColor_BGR2RGB bgr) = (h, w) → (0 < h)%nat → (0 < w)%nat →
  shape2 mask ≠ (h, w) →
  composite_of luma interp fs rgb_folder mask_folder f
  = Some (merge_rgba (cvtColor_BGR2RGB bgr) (tabulate h w (interp mask h w))).
Proof.
  intros Hc Hbgr Hcm Hmask Hshape Hh Hw Hne. unfold composite_of.
  rewrite (read_file_lookup _ _ _ Hc), (read_file_lookup _ _ _ Hcm), Hbgr, Hmask.
  rewrite Hshape. rewrite decide_True by (by intros H).
  destruct (w =? 0)%nat eqn:Ew; [apply Nat.eqb_eq in Ew; lia|].
  destruct (h =? 0)%nat eqn:Eh; [apply Nat.eqb_eq in Eh; lia|]. done.
Qed.

(** C1. For a colour file with the image extension and its mask, both
    decodable with the same height and width. When the output folder can
    be created, is neither the colour folder nor inside it and is not the
    mask folder, no directory stands at the output name and no other PNG
    name of the colour folder has the same stem, combine_rgb_mask succeeds
    and leaves, under the colour file's stem, a four-channel image of that
    height and width whose first three channels are the loaded colour
    image (after the BGR-to-RGB conversion), pixel for pixel, and whose
    fourth channel is the loaded mask, pixel for pixel. And in any tree,
    whatever the folders, the file written by an iteration of the loop
    that processes such a pair is this image. *)
Theorem combine_rgb_mask_same_size rgb_folder mask_folder output_folder f
    c cm bgr mask h w :
  let base_name := fst (Names.splitext f) in
  decode_color c = Some bgr → decode_grayscale luma cm = Some mask →
  rect h w bgr → rect h w mask →
  (∀ fs,
     ¬ rgb_folder `prefix_of` output_folder → mask_folder ≠ output_folder →
     is_Some (makedirs output_folder fs) →
     Names.is_png f = true →
     lookup_path fs (os_path_join rgb_folder f) = Some (File c) →
     lookup_path fs (os_path_join mask_folder (base_name +:+ "_000000.png"))
     = Some (File cm) →
     isdir fs (os_path_join output_folder (base_name +:+ ".png")) = false →
     (∀ g, g ∈ eligible fs rgb_folder → composite_name g = composite_name f →
           g = f) →
     ∃ fs' rgba,
       combine_rgb_mask luma interp rgb_folder mask_folder output_folder fs
       = (Ok true, fs')
       ∧ lookup_path fs' (os_path_join output_folder (base_name +:+ ".png"))
         = Some (File (Png (RGBA rgba)))
       ∧ rect h w rgba
       ∧ pmap drop_alpha rgba = cvtColor_BGR2RGB bgr
       ∧ pmap alpha rgba = mask)
  ∧ (∀ fs fs',
       lookup_path fs (os_path_join rgb_folder f) = Some (File c) →
       lookup_path fs (os_path_join mask_folder (base_name +:+ "_000000.png"))
       = Some (File cm) →
       combine_one luma interp rgb_folder mask_folder output_folder f fs
       = (Ok true, fs') →
       ∃ rgba,
         lookup_path fs' (os_path_join output_folder (base_name +:+ ".png"))
         = Some (File (Png (RGBA rgba)))
         ∧ rect h w rgba
         ∧ pmap drop_alpha rgba = cvtColor_BGR2RGB bgr
         ∧ pmap alpha rgba = mask).
Proof.
  cbv zeta. intros Hbgr Hmask Hrb Hrm.
  pose proof (rect_pmap swap_rb3 h w bgr Hrb) as Hrc.
  destruct (merge_rgba_channels h w (cvtColor_BGR2RGB bgr) mask Hrc Hrm)
    as (Hrect & Hcol & Halpha).
  split.
  - intros fs Hnp Hne Hmk Hpng Hc Hcm Hnd Huniq.
    assert (f ∈ eligible fs rgb_folder) as Hel.
    { destruct (lookup_listdir _ _ _ _ Hc) as (names & Hn & Hin).
      unfold eligible. rewrite Hn. by apply elem_of_png_files. }
    destruct (combine_rgb_mask_writes rgb_folder mask_folder output_folder fs f
                (merge_rgba (cvtColor_BGR2RGB bgr) mask) Hnp Hne Hmk Hel)
      as (fs' & Hrun & Hlook); [|done|done|].
    { apply (composite_of_same_shape _ _ _ _ c cm); try done.
      by apply (rect_shape2_eq h w). }
    exists fs', (merge_rgba (cvtColor_BGR2RGB bgr) mask). done.
  - intros fs fs' Hc Hcm Hrun.
    rewrite (Compositor.combine_one_same_shape luma interp _ _ _ _ _ c cm bgr mask)
      in Hrun; [|done|done|done|done|by apply (rect_shape2_eq h w)].
    destruct (write_file _ _ fs) as [fs1|] eqn:Hw; [|done].
    injection Hrun as <-.
    exists (merge_rgba (cvtColor_BGR2RGB bgr) mask).
    split; [by eapply lookup_write_file_eq|done].
Qed.

(** C3. For a colour file with the image extension whose mask decodes to
    other dimensions than the (non-empty) colour image. When the output
    folder can be created, is neither the colour folder nor inside it and
    is not the mask folder, no directory stands at the output name and no
    other PNG name of the colour folder has the same stem, combine_rgb_mask
    succeeds and leaves, under the colour file's stem, a composite of the
    colour image's height and width, whose colour channels are the colour
    image and whose alpha channel is the mask resized to these dimensions:
    the frame is not dropped. And in any tree with the output folder in
    place and no directory at the output name, the iteration of the loop
    on such a pair writes this composite and counts the frame. *)
Theorem combine_rgb_mask_resizes rgb_folder mask_folder output_folder f
    c cm bgr mask h w :
  let base_name := fst (Names.splitext f) in
  decode_color c = Some bgr → decode_grayscale luma cm = Some mask →
  rect h w bgr → (0 < h)%nat → (0 < w)%nat → shape2 mask ≠ (h, w) →
  (∀ fs,
     ¬ rgb_folder `prefix_of` output_folder → mask_folder ≠ output_folder →
     is_Some (makedirs output_folder fs) →
     Names.is_png f = true →
     lookup_path fs (os_path_join rgb_folder f) = Some (File c) →
     lookup_path fs (os_path_join mask_folder (base_name +:+ "_000000.png"))
     = Some (File cm) →
     isdir fs (os_path_join output_folder (base_name +:+ ".png")) = false →
     (∀ g, g ∈ eligible fs rgb_folder → composite_name g = composite_name f →
           g = f) →
     ∃ fs' rgba,
       combine_rgb_mask luma interp rgb_folder mask_folder output_folder fs
       = (Ok true, fs')
       ∧ lookup_path fs' (os_path_join output_folder (base_name +:+ ".png"))
         = Some (File (Png (RGBA rgba)))
       ∧ rect h w rgba
       ∧ pmap drop_alpha rgba = cvtColor_BGR2RGB bgr
       ∧ pmap alpha rgba = tabulate h w (interp mask h w))
  ∧ (∀ fs,
       lookup_path fs (os_path_join rgb_folder f) = Some (File c) →
       lookup_path fs (os_path_join mask_folder (base_name +:+ "_000000.png"))
       = Some (File cm) →
       isdir fs output_folder = true →
       isdir fs (os_path_join output_folder (base_name +:+ ".png")) = false →
       ∃ fs' rgba,
         combine_one luma interp rgb_folder mask_folder output_folder f fs
         = (Ok true, fs')
         ∧ lookup_path fs' (os_path_join output_folder (base_name +:+ ".png"))
           = Some (File (Png (RGBA rgba)))
         ∧ rect h w rgba
         ∧ pmap drop_alpha rgba = cvtColor_BGR2RGB bgr
         ∧ pmap alpha rgba = tabulate h w (interp mask h w)).
Proof.
  cbv zeta. intros Hbgr Hmask Hrb Hh Hw Hshape.
  pose proof (rect_pmap swap_rb3 h w bgr Hrb) as Hrc.
  pose proof (rect_shape2 h w _ Hrc Hh) as Hsc.
  destruct (merge_rgba_channels h w (cvtColor_BGR2RGB bgr)
              (tabulate h w (interp mask h w)) Hrc (rect_tabulate h w _))
    as (Hrect & Hcol & Halpha).
  split.
  - intros fs Hnp Hne Hmk Hpng Hc Hcm Hnd Huniq.
    assert (f ∈ eligible fs rgb_folder) as Hel.
    { destruct (lookup_listdir _ _ _ _ Hc) as (names & Hn & Hin).
      unfold eligible. rewrite Hn. by apply elem_of_png_files. }
    destruct (combine_rgb_mask_writes rgb_folder mask_folder output_folder fs f
                (merge_rgba (cvtColor_BGR2RGB bgr) (tabulate h w (interp mask h w)))
                Hnp Hne Hmk Hel)
      as (fs' & Hrun & Hlook); [|done|done|].
    { by apply (composite_of_other_shape _ _ _ _ c cm). }
    by eexists fs', _.
  - intros fs Hc Hcm Hout Hnd.
    rewrite (Compositor.combine_one_other_shape luma interp _ _ _ _ _ c cm bgr mask
               h w); [|done..].
    destruct (write_file_succeeds output_folder
                (fst (Names.splitext f) +:+ ".png")
                (Png (RGBA (merge_rgba (cvtColor_BGR2RGB bgr)
                              (tabulate h w (interp mask h w))))) fs Hout Hnd)
      as [fs' Hwr].
    change (output_folder ++ [fst (Names.splitext f) +:+ ".png"])
      with (os_path_join output_folder (fst (Names.splitext f) +:+ ".png")) in Hwr.
    rewrite Hwr. eexists fs', _.
    split; [done|]. split; [by eapply lookup_write_file_eq|done].
Qed.

End Pairs.

Lemma combine_rgb_mask_same_size_witness :
  ∃ fs' rgba,
    combine_rgb_mask Demo.luma_bt601 Demo.interp_nearest
      ["obj"; "train_pbr"; "000000"; "rgb"] ["obj"; "train_pbr"; "000000"; "mask"]
      ["obj"; "train_pbr"; "000000"; "rgb_mask"] Demo.tree_two_frames
    = (Ok true, fs')
    ∧ lookup_path fs' ["obj"; "train_pbr"; "000000"; "rgb_mask"; "000000.png"]
      = Some (File (Png (RGBA rgba)))
    ∧ rect 2 2 rgba
    ∧ pmap drop_alpha rgba = Demo.color_2x2
    ∧ pmap alpha rgba = Demo.mask_2x2.
Proof.
  destruct (combine_rgb_mask_same_size Demo.luma_bt601 Demo.interp_nearest
              ["obj"; "train_pbr"; "000000"; "rgb"]
              ["obj"; "train_pbr"; "000000"; "mask"]
              ["obj"; "train_pbr"; "000000"; "rgb_mask"] "000000.png"
              (Png (RGB Demo.color_2x2)) (Png (Gray Demo.mask_2x2))
              (pmap swap_rb3 Demo.color_2x2) Demo.mask_2x2 2 2) as [Hrun _].
  - reflexivity.
  - reflexivity.
  - split; [reflexivity|]. repeat constructor.
  - split; [reflexivity|]. repeat constructor.
  - apply (Hrun Demo.tree_two_frames).
    + intros [k Hk]. discriminate.
    + discriminate.
    + vm_compute. eexists. reflexivity.
    + reflexivity.
    + reflexivity.
    + reflexivity.
    + reflexivity.
    + intros g Hg Hc. vm_compute in Hg. apply list_elem_of_In in Hg.
      destruct Hg as [<-|[<-|[]]]; [reflexivity|discriminate Hc].
Defined.

Lemma combine_rgb_mask_resizes_witness :
  ∃ fs' rgba,
    combine_rgb_mask Demo.luma_bt601 Demo.interp_nearest
      ["obj"; "train_pbr"; "000000"; "rgb"] ["obj"; "train_pbr"; "000000"; "mask"]
      ["obj"; "train_pbr"; "000000"; "rgb_mask"] Demo.tree_two_frames
    = (Ok true, fs')
    ∧ lookup_path fs' ["obj"; "train_pbr"; "000000"; "rgb_mask"; "000001.png"]
      = Some (File (Png (RGBA rgba)))
    ∧ rect 2 2 rgba
    ∧ pmap drop_alpha rgba = Demo.color_2x2
    ∧ pmap alpha rgba = [[77; 77]; [77; 77]].
Proof.
  destruct (combine_rgb_mask_resizes Demo.luma_bt601 Demo.interp_nearest
              ["obj"; "train_pbr"; "000000"; "rgb"]
              ["obj"; "train_pbr"; "000000"; "mask"]
              ["obj"; "train_pbr"; "000000"; "rgb_mask"] "000001.png"
              (Png (RGB Demo.color_2x2)) (Png (Gray Demo.mask_1x1))
              (pmap swap_rb3 Demo.color_2x2) Demo.mask_1x1 2 2) as [Hrun _].
  - reflexivity.
  - reflexivity.
  - split; [reflexivity|]. repeat constructor.
  - lia.
  - lia.
  - vm_compute. discriminate.
  - apply (Hrun Demo.tree_two_frames).
    + intros [k Hk]. discriminate.
    + discriminate.
    + vm_compute. eexists. reflexivity.
    + reflexivity.
    + reflexivity.
    + reflexivity.
    + reflexivity.
    + intros g Hg Hc. vm_compute in Hg. apply list_elem_of_In in Hg.
      destruct Hg as [<-|[<-|[]]]; [discriminate Hc|reflexivity].
Defined.

End CompositorPairs.

Import CompositorPairs.

(** ** The suppressor on one image *)

Module SuppressorPixels.

Local Open Scope Z_scope.

(** C2. For every four-channel image of the folder whose name has the
    image extension, postprocess_segmented_images succeeds and leaves the
    file rewritten so that at every pixel position the background mask is
    set exactly when the alpha value is below 10, the three colour
    channels are zero exactly there and are the original ones elsewhere;
    alpha 9 is suppressed, alpha 10 is not. *)
Theorem postprocess_threshold folder fs f m :
  Names.is_png f = true →
  lookup_path fs (os_path_join folder f) = Some (File (Png (RGBA m))) →
  ∃ fs' m',
    postprocess_segmented_images folder fs = (Ok true, fs')
    ∧ lookup_path fs' (os_path_join folder f) = Some (File (Png (RGBA m')))
    ∧ ∀ i j r g b a,
        at_ m i j = Some (r, g, b, a) →
        at_ (background_mask_of (pmap swap_rb4 m)) i j = Some (a <? 10)
        ∧ at_ m' i j = Some (if a <? 10 then (0, 0, 0, a) else (r, g, b, a))
        ∧ (a = 9 → at_ m' i j = Some (0, 0, 0, 9))
        ∧ (a = 10 → at_ m' i j = Some (r, g, b, 10)).
Proof.
  intros Hpng Hm.
  destruct (lookup_listdir _ _ _ _ Hm) as (names & Hn & Hin).
  assert (f ∈ png_files names) as Hel by (by apply elem_of_png_files).
  destruct (postprocess_effect folder fs) as (Hrw & _).
  specialize (Hrw f m). unfold eligible in Hrw. rewrite Hn in Hrw.
  specialize (Hrw Hel Hm).
  pose proof (Suppressor.postprocess_segmented_images_spec folder fs) as Hspec.
  rewrite Hn in Hspec. destruct Hspec as (fs' & Hrun & _).
  assert ((0 <? rgba_count fs folder (png_files names))%nat = true) as Hpos.
  { apply Nat.ltb_lt. unfold rgba_count.
    assert (f ∈ filter (λ x, Is_true (is_rgba fs (os_path_join folder x)))
                  (png_files names)) as Hf.
    { apply list_elem_of_filter. split; [|done]. unfold is_rgba. by rewrite Hm. }
    destruct (filter _ _); [by apply elem_of_nil in Hf|simpl; lia]. }
  rewrite Hpos in Hrun. rewrite Hrun in Hrw. simpl in Hrw.
  exists fs', (pmap suppress_px m). split; [done|]. split; [done|].
  intros i j r g b a Hp.
  assert (at_ (pmap suppress_px m) i j
          = Some (if a <? 10 then (0, 0, 0, a) else (r, g, b, a))) as Hout.
  { rewrite at_pmap, Hp. simpl. unfold suppress_px. simpl. by destruct (a <? 10). }
  split; [|split; [done|split]].
  - rewrite background_mask_of_pmap, !at_pmap, Hp. done.
  - intros ->. by rewrite Hout.
  - intros ->. by rewrite Hout.
Qed.

Lemma postprocess_threshold_witness :
  ∃ fs' m',
    postprocess_segmented_images ["images"] Demo.tree_composites = (Ok true, fs')
    ∧ lookup_path fs' ["images"; "000000.png"] = Some (File (Png (RGBA m')))
    ∧ at_ m' 0 0 = Some (0, 0, 0, 9) ∧ at_ m' 0 1 = Some (4, 5, 6, 10).
Proof.
  destruct (postprocess_threshold ["images"] Demo.tree_composites "000000.png"
              [[(1, 2, 3, 9); (4, 5, 6, 10)]] eq_refl eq_refl)
    as (fs' & m' & Hr & Hl & Hpx).
  exists fs', m'. split; [exact Hr|]. split; [exact Hl|]. split.
  - exact (proj1 (proj2 (proj2 (Hpx 0%nat 0%nat 1 2 3 9 eq_refl))) eq_refl).
  - exact (proj2 (proj2 (proj2 (Hpx 0%nat 1%nat 4 5 6 10 eq_refl))) eq_refl).
Defined.

End SuppressorPixels.

Import SuppressorPixels.

(** ** The copy functions on a range *)

Module DistributorRange.

Local Open Scope Z_scope.

Lemma read_file_Some fs p c :
  read_file fs p = Some c ↔ lookup_path fs p = Some (File c).
Proof.
  unfold read_file. destruct (lookup_path fs p) as [[c'|?]|]; split; congruence.
Qed.

(** Writing a file neither adds nor removes another path. *)
Lemma write_file_exists q c fs fs' p :
  write_file q c fs = Some fs' → p ≠ q → exists_ fs' p = exists_ fs p.
Proof.
  intros Hw Hne.
  destruct (decide (q `prefix_of` p)) as [[k ->]|Hqp].
  - pose proof (write_file_not_isdir _ _ _ _ Hw) as Hd.
    unfold exists_, isdir in *. rewrite !lookup_path_app.
    rewrite (lookup_write_file_eq _ _ _ _ Hw). simpl.
    destruct k as [|k0 k]; [by rewrite app_nil_r in Hne|].
    destruct (lookup_path fs q) as [[?|?]|]; simpl; done.
  - destruct (decide (p `prefix_of` q)) as [[k ->]|Hpq].
    + pose proof (lookup_write_file_eq _ _ _ _ Hw) as He.
      rewrite lookup_path_app in He.
      assert (isdir fs' p = true) as Hd.
      { unfold isdir. destruct (lookup_path fs' p) as [[?|?]|]; simpl in He; try done.
        rewrite lookup_path_file in He. destruct k; [|done].
        by rewrite app_nil_r in Hne. }
      rewrite (isdir_exists _ _ Hd).
      rewrite (write_file_isdir _ _ _ _ p Hw) in Hd.
      by rewrite (isdir_exists _ _ Hd).
    + unfold exists_. by rewrite (lookup_write_file_other _ _ _ _ _ Hw).
Qed.

Section CopyLoop.

Variables sname dname : Z → string.
Hypothesis dname_inj : ∀ i j, dname i = dname j → i = j.

(** The loop when no source path is a destination path (the folders may
    lie inside each other) and no directory stands at a file name it
    uses. *)
Lemma copy_loop_with_exact src dst indices c fs :
  (∀ i j, os_path_join src (sname j) ≠ os_path_join dst (dname i)) →
  isdir fs dst = true →
  (∀ i, i ∈ indices → isdir fs (os_path_join src (sname i)) = false) →
  (∀ i, i ∈ indices → exists_ fs (os_path_join src (sname i)) = true →
        isdir fs (os_path_join dst (dname i)) = false) →
  ∃ fs',
    copy_loop_with sname dname src dst indices c fs
      = (Ok (c + length (present sname fs src indices))%nat, fs')
    ∧ (∀ i cc, i ∈ indices →
         lookup_path fs (os_path_join src (sname i)) = Some (File cc) →
         lookup_path fs' (os_path_join dst (dname i)) = Some (File cc))
    ∧ (∀ name,
         (∀ i, i ∈ indices → exists_ fs (os_path_join src (sname i)) = true →
               name ≠ dname i) →
         lookup_path fs' (os_path_join dst name) = lookup_path fs (os_path_join dst name))
    ∧ (∀ p, ¬ dst `prefix_of` p → ¬ p `prefix_of` dst →
            lookup_path fs' p = lookup_path fs p).
Proof.
  intros Hne. revert c fs.
  induction indices as [|i rest IH]; intros c fs Hdst Hsrc Hdn.
  - exists fs. simpl. unfold ret. rewrite Nat.add_0_r.
    split; [done|]. split; [|done]. intros i cc Hi. by apply elem_of_nil in Hi.
  - simpl. unfold bind at 1, os_path_exists, gets.
    destruct (exists_ fs (os_path_join src (sname i))) eqn:Ex.
    + assert (∃ cc, lookup_path fs (os_path_join src (sname i)) = Some (File cc))
        as [cc Hcc].
      { specialize (Hsrc i ltac:(by left)). unfold exists_, isdir in *.
        destruct (lookup_path fs (os_path_join src (sname i))) as [[cc|?]|]; by eauto. }
      unfold bind at 1.
      rewrite (Distributor.shutil_copy2_file _ _ cc);
        [|done|apply Hdn; [by left|done]|apply Hne].
      destruct (write_file_succeeds dst (dname i) cc fs Hdst
                  (Hdn i ltac:(by left) Ex)) as [fs1 Hw].
      change (dst ++ [dname i]) with (os_path_join dst (dname i)) in Hw.
      rewrite Hw.
      assert (∀ p, ¬ dst `prefix_of` p → ¬ p `prefix_of` dst →
                   lookup_path fs1 p = lookup_path fs p) as Hframe.
      { intros p H1 H2. destruct (Distributor.outside_apart dst p (dname i) H1 H2).
        by eapply lookup_write_file_other. }
      assert (∀ j cj, lookup_path fs1 (os_path_join src (sname j)) = Some (File cj)
                      ↔ lookup_path fs (os_path_join src (sname j)) = Some (File cj))
        as Hstable.
      { intros j cj. rewrite <- !read_file_Some.
        by rewrite (write_file_read_file _ _ _ _ _ Hw (Hne i j)). }
      assert (∀ j, exists_ fs1 (os_path_join src (sname j))
                   = exists_ fs (os_path_join src (sname j))) as Hex.
      { intros j. by apply (write_file_exists _ _ _ _ _ Hw). }
      destruct (IH (S c) fs1) as (fs' & Hrun & Hcopied & Hkept & Hout).
      { by rewrite (write_file_isdir _ _ _ _ _ Hw). }
      { intros j Hj. rewrite (write_file_isdir _ _ _ _ _ Hw). apply Hsrc. by right. }
      { intros j Hj Hexj. rewrite (write_file_isdir _ _ _ _ _ Hw).
        apply Hdn; [by right|]. by rewrite <- Hex. }
      exists fs'. split; [|split; [|split]].
      * rewrite Hrun. unfold present at 2. rewrite filter_cons, Ex. simpl.
        rewrite (Distributor.present_ext sname fs fs1 src rest Hex).
        unfold present. by rewrite Nat.add_succ_r.
      * intros j cj Hj Hcj. destruct (decide (j ∈ rest)) as [Hin|Hnin].
        -- apply Hcopied; [done|]. by apply Hstable.
        -- apply elem_of_cons in Hj as [->|?]; [|done].
           rewrite Hkept.
           ++ rewrite (lookup_write_file_eq _ _ _ _ Hw). congruence.
           ++ intros k Hk _ Heq. apply dname_inj in Heq. by subst.
      * intros name Hname. rewrite Hkept.
        -- eapply lookup_write_file_sibling; [exact Hw|].
           intros Heq. by apply (Hname i); [left| |].
        -- intros k Hk Hexk. apply Hname; [by right|]. by rewrite <- Hex.
      * intros p H1 H2. rewrite Hout; [|done|done]. by apply Hframe.
    + destruct (IH c fs) as (fs' & Hrun & Hcopied & Hkept & Hout); [done|..].
      { intros j Hj. apply Hsrc. by right. }
      { intros j Hj. apply Hdn. by right. }
      exists fs'. split; [|split; [|split]].
      * rewrite Hrun. unfold present at 2. by rewrite filter_cons, Ex.
      * intros j cj Hj Hcj. apply elem_of_cons in Hj as [->|?]; [|by apply Hcopied].
        unfold exists_ in Ex. by rewrite Hcj in Ex.
      * intros name Hname. apply Hkept. intros k Hk. apply Hname. by right.
      * done.
Qed.

Lemma copy_loop_with_exact_range src dst start_idx end_idx fs1 :
  (∀ i j, os_path_join src (sname j) ≠ os_path_join dst (dname i)) →
  isdir fs1 dst = true →
  (∀ i, start_idx ≤ i < end_idx → isdir fs1 (os_path_join src (sname i)) = false) →
  (∀ i, start_idx ≤ i < end_idx →
        exists_ fs1 (os_path_join src (sname i)) = true →
        isdir fs1 (os_path_join dst (dname i)) = false) →
  copies_range sname dname src dst start_idx end_idx fs1
    (copy_loop_with sname dname src dst (range start_idx end_idx) 0 fs1).
Proof.
  intros Hsd Hdst Hsrc Hdn.
  assert (∀ i, i ∈ range start_idx end_idx ↔ start_idx ≤ i < end_idx) as Hin.
  { intros i. unfold range. rewrite elem_of_seqZ. lia. }
  destruct (copy_loop_with_exact src dst (range start_idx end_idx) 0 fs1)
    as (fs' & Hrun & Hcopied & Hkept & Hout); [done|done|..].
  { intros i Hi. apply Hsrc. by apply Hin. }
  { intros i Hi. apply Hdn. by apply Hin. }
  exists fs'. split; [exact Hrun|]. split; [|split; [|split]].
  - intros i cc Hi. apply Hcopied. by apply Hin.
  - intros i Hi. apply Hkept. intros j Hj Hex Heq. apply dname_inj in Heq.
    subst j. apply Hi. split; [by apply Hin|done].
  - intros name Hname. apply Hkept. intros j Hj. apply Hname. by apply Hin.
  - exact Hout.
Qed.

End CopyLoop.

Lemma join_differ (src dst : path) (f g : string) :
  src ≠ dst → os_path_join src f ≠ os_path_join dst g.
Proof. intros Hsd Heq. by apply app_inj_tail in Heq as [? _]. Qed.

Lemma rfind_underscore_uint d :
  Names.rfind "_" (NilEmpty.string_of_uint d) = None.
Proof. induction d; simpl; by rewrite ?IHd. Qed.

Lemma rfind_underscore_fmt_06d i : Names.rfind "_" (Names.fmt_06d i) = None.
Proof.
  unfold Names.fmt_06d. destruct (i <? 0); simpl; by rewrite rfind_underscore_uint.
Qed.

(** No mask name is a plain name: only the first has an underscore. *)
Lemma mask_name_not_plain i j : mask_name j ≠ plain_name i.
Proof.
  intros H. apply (f_equal (Names.rfind "_")) in H.
  unfold mask_name, plain_name in H. rewrite !rfind_app in H. simpl in H.
  by rewrite rfind_underscore_fmt_06d in H.
Qed.

(** C6. For every range [start, end), once the destination folder has
    been created: when no directory stands at the source name of an index
    of the range, nor at the destination name of one whose source exists,
    and (for the two functions that keep the name) source and destination
    are different folders, each of the three copy functions returns, and
    the destination file of index i holds the source file's content for
    every i in the range whose source file exists, whatever is missing at
    other indices, while the destination name of every other index, in or
    out of the range, is left as it was; the count is the number of
    indices copied. One folder may lie inside the other. *)
Theorem copy_functions_exact_range src dst start_idx end_idx fs fs1 :
  makedirs dst fs = Some fs1 →
  (src ≠ dst →
   (∀ i, start_idx ≤ i < end_idx →
         isdir fs1 (os_path_join src (plain_name i)) = false) →
   (∀ i, start_idx ≤ i < end_idx →
         exists_ fs1 (os_path_join src (plain_name i)) = true →
         isdir fs1 (os_path_join dst (plain_name i)) = false) →
   copies_range plain_name plain_name src dst start_idx end_idx fs1
     (copy_images_to_directory src dst (start_idx, end_idx) fs))
  ∧ ((∀ i, start_idx ≤ i < end_idx →
           isdir fs1 (os_path_join src (mask_name i)) = false) →
     (∀ i, start_idx ≤ i < end_idx →
           exists_ fs1 (os_path_join src (mask_name i)) = true →
           isdir fs1 (os_path_join dst (plain_name i)) = false) →
     copies_range mask_name plain_name src dst start_idx end_idx fs1
       (copy_and_rename_mask_images src dst (start_idx, end_idx) fs))
  ∧ (src ≠ dst →
     (∀ i, start_idx ≤ i < end_idx →
           isdir fs1 (os_path_join src (mask_name i)) = false) →
     (∀ i, start_idx ≤ i < end_idx →
           exists_ fs1 (os_path_join src (mask_name i)) = true →
           isdir fs1 (os_path_join dst (mask_name i)) = false) →
     copies_range mask_name mask_name src dst start_idx end_idx fs1
       (copy_mask_images_to_directory src dst (start_idx, end_idx) fs)).
Proof.
  intros Hmk.
  pose proof (makedirs_isdir _ _ _ Hmk) as Hdst.
  unfold copy_images_to_directory, copy_and_rename_mask_images,
    copy_mask_images_to_directory. py_unfold.
  rewrite Hmk. split; [|split].
  - intros Hsd Hs Hd. rewrite Distributor.copy_images_loop_eq.
    apply copy_loop_with_exact_range; [exact plain_name_inj| |done..].
    intros i j. by apply join_differ.
  - intros Hs Hd. rewrite Distributor.copy_and_rename_loop_eq.
    apply copy_loop_with_exact_range; [exact plain_name_inj| |done..].
    intros i j Heq. apply app_inj_tail in Heq as [_ Heq].
    by apply mask_name_not_plain in Heq.
  - intros Hsd Hs Hd. rewrite Distributor.copy_mask_loop_eq.
    apply copy_loop_with_exact_range; [exact mask_name_inj| |done..].
    intros i j. by apply join_differ.
Qed.

Lemma copy_functions_exact_range_witness :
  copies_range plain_name plain_name ["src"] ["src"; "copy"] 0 3
    Demo.tree_gap_nested
    (copy_images_to_directory ["src"] ["src"; "copy"] (0, 3)%Z Demo.tree_gap)
  ∧ copies_range mask_name plain_name ["src"] ["src"] 0 3 Demo.tree_gap
      (copy_and_rename_mask_images ["src"] ["src"] (0, 3)%Z Demo.tree_gap).
Proof.
  split.
  - apply (copy_functions_exact_range ["src"] ["src"; "copy"] 0 3 Demo.tree_gap).
    + vm_compute. reflexivity.
    + discriminate.
    + intros i Hi.
      assert (i = 0 ∨ i = 1 ∨ i = 2)%Z as [->|[->| ->]] by lia;
        vm_compute; reflexivity.
    + intros i Hi _.
      assert (i = 0 ∨ i = 1 ∨ i = 2)%Z as [->|[->| ->]] by lia;
        vm_compute; reflexivity.
  - apply (copy_functions_exact_range ["src"] ["src"] 0 3 Demo.tree_gap).
    + vm_compute. reflexivity.
    + intros i Hi.
      assert (i = 0 ∨ i = 1 ∨ i = 2)%Z as [->|[->| ->]] by lia;
        vm_compute; reflexivity.
    + intros i Hi _.
      assert (i = 0 ∨ i = 1 ∨ i = 2)%Z as [->|[->| ->]] by lia;
        vm_compute; reflexivity.
Defined.

(** With a directory where the source of index 0 is expected, the copy
    raises at index 0 and index 1, which is in the range and whose source
    exists, is not copied. *)
Lemma copy_functions_exact_range_counterexample :
  ¬ (∀ i,
       exists_
         (snd (copy_images_to_directory ["src"] ["dst"] (0, 2)
                 Demo.tree_dir_source))
         (os_path_join ["dst"] (plain_name i)) = true
       ↔ 0 ≤ i < 2
         ∧ exists_ Demo.tree_dir_source (os_path_join ["src"] (plain_name i))
           = true).
Proof.
  intros H. destruct (H 1) as [_ H1].
  assert (exists_
            (snd (copy_images_to_directory ["src"] ["dst"] (0, 2)
                    Demo.tree_dir_source))
            (os_path_join ["dst"] (plain_name 1)) = false) as Hno
    by (vm_compute; reflexivity).
  rewrite H1 in Hno; [discriminate|]. split; [lia|reflexivity].
Qed.

End DistributorRange.

Import DistributorRange.

(** ** The outcome of the orchestration *)

Module OrchestratorOutcome.

Local Open Scope Z_scope.


Section Runs.

Variable luma : Z → Z → Z → Z.
Variable interp : matrix Z → nat → nat → nat → nat → Z.


End Runs.



End OrchestratorOutcome.
